(** * License-plate error detection: a Rocq model of [main.py]

    The development embeds the detection-and-correction engine of
    [main.py]: the similarity scorer ([difflib.SequenceMatcher] with
    the [ratio() * 100] percentage), the window matcher
    [find_license_plate_errors], and the correction resolver and sink
    [update_license_plates_with_scores]; and, around the engine, the
    ingestion [create_table] and [load_csv_to_db], the main block, and
    the two generators [create_csv] and [generate_random_license_plate].

    Python integers are [Z], Python floats are IEEE 754 binary64 values
    ([spec_float] with precision 53 and maximal exponent 1024), Python
    strings are [string]s (the sequence matcher itself is stated for
    every type of hashable elements), Python dictionaries are [gmap]s,
    and the SQLite tables are lists of rows.  The results of [random]
    are arguments of the generators: a record of draws per call or per
    iteration, with the draws that [random] can return as a decidable
    predicate. *)

From Stdlib Require Import ZArith Lia Ascii String List.
From Stdlib Require Import Sorting.Sorted Floats.SpecFloat.
From stdpp Require Import base decidable option numbers list list_numbers.
From stdpp Require Import countable gmap fin_maps strings.
From stdpp Require Import sorting.

Local Open Scope Z_scope.

(** ** Python floats: IEEE 754 binary64 *)

Module Float.

Definition prec : Z := 53.
Definition emax : Z := 1024.

(** [x * y], rounded to the nearest value, ties to even. *)
Definition mul : spec_float -> spec_float -> spec_float := SFmul prec emax.

(** [x / y] for a divisor that is not zero (Python raises
    [ZeroDivisionError] on a zero divisor, which the scorer excludes by
    a test). *)
Definition div : spec_float -> spec_float -> spec_float := SFdiv prec emax.

(** [float(z)] for a Python integer: the nearest binary64 value, ties
    to even.  On an integer beyond the range of binary64 Python raises
    [OverflowError], where this conversion gives an infinity; the
    lengths of strings are far below. *)
Definition of_int (z : Z) : spec_float := binary_normalize prec emax z 0 false.

(** The constants [0.0], [1.0], [2.0] and [100.0]. *)
Definition zero : spec_float := S754_zero false.
Definition one : spec_float := Eval cbv in of_int 1.
Definition two : spec_float := Eval cbv in of_int 2.
Definition hundred : spec_float := Eval cbv in of_int 100.

(** [int(x)]: truncation toward zero; Python raises on infinities and
    on NaN, which is [None] here. *)
Definition to_int (x : spec_float) : option Z :=
  match x with
  | S754_zero _ => Some 0
  | S754_finite s m e =>
      let magnitude :=
        match e with
        | Zneg p => Z.shiftr (Zpos m) (Zpos p)
        | _ => Z.shiftl (Zpos m) e
        end in
      Some (if s then - magnitude else magnitude)
  | S754_infinity _ | S754_nan => None
  end.

(** Python compares a float with an integer by value, exactly (no
    conversion of the integer to a float).  [compare_int x z] is the
    comparison of the value of [x] with [z]; [None] for NaN. *)
Definition compare_int (x : spec_float) (z : Z) : option comparison :=
  match x with
  | S754_nan => None
  | S754_infinity s => Some (if s then Lt else Gt)
  | S754_zero _ => Some (0 ?= z)
  | S754_finite s m e =>
      let sm := if s then Zneg m else Zpos m in
      match e with
      | Zneg p => Some (sm ?= z * 2 ^ Zpos p)
      | _ => Some (sm * 2 ^ e ?= z)
      end
  end.

(** [x >= z] *)
Definition ge_int (x : spec_float) (z : Z) : bool :=
  match compare_int x z with
  | Some (Gt | Eq) => true
  | _ => false
  end.

(** [x <= z] *)
Definition le_int (x : spec_float) (z : Z) : bool :=
  match compare_int x z with
  | Some (Lt | Eq) => true
  | _ => false
  end.

End Float.

(** ** The similarity scorer: [difflib.SequenceMatcher]

    The scorer of section 4.1 of the specification is the class
    [SequenceMatcher] of the module [difflib] of the Python library,
    which [main.py] imports and the repository does not contain.  The
    definitions of this module follow the specification (the longest
    matching block, the recursion on both sides of it, the ratio
    [2 * M / T]) in the way the library computes them. *)

Module SequenceMatcher.

Section Matcher.

(** The elements of the compared sequences are hashable. *)
Context {A : Type} `{Countable A}.

(** Modelled from the spec: [seq[i]] in [difflib], for an index inside
    the sequence. *)
Definition getitem (s : list A) (i : Z) : option A := s !! Z.to_nat i.

(** Modelled from the spec: [len(seq)] in [difflib]. *)
Definition len (s : list A) : Z := Z.of_nat (length s).

(** Modelled from the spec: one iteration of the first loop of
    [difflib.SequenceMatcher.__chain_b], which fills the table [b2j]
    from each element of [b] to the list of its indices, in increasing
    order.

    <<
    for i, elt in enumerate(b):
        indices = b2j.setdefault(elt, [])
        indices.append(i)
    >> *)
Definition chain_step (b2j : gmap A (list Z)) (ie : Z * A) : gmap A (list Z) :=
  let '(i, elt) := ie in
  <[elt := default [] (b2j !! elt) ++ [i]]> b2j.

(** Modelled from the spec: [enumerate(b)] in [__chain_b]. *)
Definition enumerate (b : list A) : list (Z * A) :=
  zip (seqZ 0 (len b)) b.

(** Modelled from the spec: the table [b2j] of [__chain_b] before the
    purge. *)
Definition build_b2j (b : list A) : gmap A (list Z) :=
  fold_left chain_step (enumerate b) ∅.

(** Modelled from the spec: the purge of popular elements in
    [difflib.SequenceMatcher.__chain_b] ([autojunk] is [True] by
    default, [isjunk] is [None], so there is no junk):

    <<
    n = len(b)
    if self.autojunk and n >= 200:
        ntest = n // 100 + 1
        for elt, idxs in b2j.items():
            if len(idxs) > ntest:
                popular.add(elt)
        for elt in popular:
            del b2j[elt]
    >> *)
Definition purge_popular (n : Z) (b2j : gmap A (list Z)) : gmap A (list Z) :=
  if 200 <=? n then
    let ntest := n / 100 + 1 in
    filter (fun kv : A * list Z => Z.of_nat (length kv.2) <= ntest) b2j
  else b2j.

(** Modelled from the spec: [difflib.SequenceMatcher.__chain_b]. *)
Definition chain_b (b : list A) : gmap A (list Z) :=
  purge_popular (len b) (build_b2j b).

(** Modelled from the spec: a matching block [(i, j, k)] of [difflib],
    [a[i:i+k] == b[j:j+k]]. *)
Definition block : Type := Z * Z * Z.

(** Modelled from the spec: [x[-1]], the size of a block. *)
Definition block_size (x : block) : Z := x.2.

(** Modelled from the spec: the inner loop of
    [difflib.SequenceMatcher.find_longest_match] over the indices [j]
    of [a[i]] in [b]:

    <<
    for j in b2j.get(a[i], nothing):
        if j < blo: continue
        if j >= bhi: break
        k = newj2len[j] = j2lenget(j-1, 0) + 1
        if k > bestsize:
            besti, bestj, bestsize = i-k+1, j-k+1, k
    >> *)
Fixpoint scan_row (blo bhi i : Z) (j2len : gmap Z Z) (js : list Z)
    (newj2len : gmap Z Z) (best : block) : gmap Z Z * block :=
  match js with
  | [] => (newj2len, best)
  | j :: js' =>
      if j <? blo then scan_row blo bhi i j2len js' newj2len best
      else if bhi <=? j then (newj2len, best)
      else
        let k := default 0 (j2len !! (j - 1)) + 1 in
        let newj2len := <[j := k]> newj2len in
        let best := if block_size best <? k then (i - k + 1, j - k + 1, k) else best in
        scan_row blo bhi i j2len js' newj2len best
  end.

(** Modelled from the spec: one iteration of [for i in range(alo, ahi)]
    in [difflib.SequenceMatcher.find_longest_match]. *)
Definition scan_step (a : list A) (b2j : gmap A (list Z)) (blo bhi : Z)
    (st : gmap Z Z * block) (i : Z) : gmap Z Z * block :=
  let '(j2len, best) := st in
  match getitem a i with
  | Some x => scan_row blo bhi i j2len (default [] (b2j !! x)) ∅ best
  | None => (∅, best)
  end.

(** Modelled from the spec: the first [while] loop of
    [difflib.SequenceMatcher.find_longest_match]; without junk
    ([isbjunk] is always false) it extends the block by equal elements
    on the left.  The first argument is the number of iterations left
    before the lower bound of the range is reached.

    <<
    while besti > alo and bestj > blo and \
          not isbjunk(b[bestj-1]) and \
          a[besti-1] == b[bestj-1]:
        besti, bestj, bestsize = besti-1, bestj-1, bestsize+1
    >> *)
Fixpoint extend_left (n : nat) (a b : list A) (alo blo : Z) (best : block) : block :=
  let '(besti, bestj, bestsize) := best in
  match n with
  | O => best
  | S n' =>
      if (alo <? besti) && (blo <? bestj)
         && bool_decide (getitem a (besti - 1) = getitem b (bestj - 1))
      then extend_left n' a b alo blo (besti - 1, bestj - 1, bestsize + 1)
      else best
  end.

(** Modelled from the spec: the second [while] loop of
    [difflib.SequenceMatcher.find_longest_match], which extends the
    block on the right; the last two loops, on junk, do nothing.  The
    first argument is the number of iterations left before the upper
    bound of the range is reached.

    <<
    while besti+bestsize < ahi and bestj+bestsize < bhi and \
          not isbjunk(b[bestj+bestsize]) and \
          a[besti+bestsize] == b[bestj+bestsize]:
        bestsize += 1
    >> *)
Fixpoint extend_right (n : nat) (a b : list A) (ahi bhi : Z) (best : block) : block :=
  let '(besti, bestj, bestsize) := best in
  match n with
  | O => best
  | S n' =>
      if (besti + bestsize <? ahi) && (bestj + bestsize <? bhi)
         && bool_decide (getitem a (besti + bestsize) = getitem b (bestj + bestsize))
      then extend_right n' a b ahi bhi (besti, bestj, bestsize + 1)
      else best
  end.

(** Modelled from the spec: [difflib.SequenceMatcher.find_longest_match],
    the longest matching block of [a[alo:ahi]] and [b[blo:bhi]], the
    first one in [a], then in [b], among the longest. *)
Definition find_longest_match (a b : list A) (b2j : gmap A (list Z))
    (alo ahi blo bhi : Z) : block :=
  let best0 : block := (alo, blo, 0) in
  let '(_, best1) :=
    fold_left (scan_step a b2j blo bhi) (seqZ alo (ahi - alo)) (∅, best0) in
  let best2 := extend_left (Z.to_nat (best1.1.1 - alo)) a b alo blo best1 in
  extend_right (Z.to_nat (ahi - (best2.1.1 + best2.2))) a b ahi bhi best2.

(** Modelled from the spec: the ranges [(alo, ahi, blo, bhi)] of the
    work list of [difflib.SequenceMatcher.get_matching_blocks]. *)
Definition range : Type := Z * Z * Z * Z.

(** Modelled from the spec: the work list of
    [difflib.SequenceMatcher.get_matching_blocks], the recursion on the
    two sides of the longest matching block:

    <<
    while queue:
        alo, ahi, blo, bhi = queue.pop()
        i, j, k = x = self.find_longest_match(alo, ahi, blo, bhi)
        if k:
            matching_blocks.append(x)
            if alo < i and blo < j:
                queue.append((alo, i, blo, j))
            if i+k < ahi and j+k < bhi:
                queue.append((i+k, ahi, j+k, bhi))
    >>

    [queue] is a Python list used as a stack: its last element is
    the head of the Rocq list.  The loop returns the queue together
    with the blocks, so that running out of iterations is visible. *)

Fixpoint blocks_loop (n : nat) (a b : list A) (b2j : gmap A (list Z))
    (queue : list range) (matching_blocks : list block) : list range * list block :=
  match n, queue with
  | _, [] => ([], matching_blocks)
  | O, _ => (queue, matching_blocks)
  | S n', (alo, ahi, blo, bhi) :: queue =>
      let x := find_longest_match a b b2j alo ahi blo bhi in
      let '(i, j, k) := x in
      if k =? 0 then blocks_loop n' a b b2j queue matching_blocks
      else
        let queue := if (alo <? i) && (blo <? j)
                     then (alo, i, blo, j) :: queue else queue in
        let queue := if (i + k <? ahi) && (j + k <? bhi)
                     then (i + k, ahi, j + k, bhi) :: queue else queue in
        blocks_loop n' a b b2j queue (matching_blocks ++ [x])
  end.

(** Modelled from the spec: the order of [matching_blocks.sort()] in
    [get_matching_blocks]; tuples are ordered lexicographically. *)
Definition block_leb (x y : block) : bool :=
  let '(i1, j1, k1) := x in
  let '(i2, j2, k2) := y in
  (i1 <? i2) || ((i1 =? i2) && ((j1 <? j2) || ((j1 =? j2) && (k1 <=? k2)))).

(** Modelled from the spec: the insertion of a block in a sorted list,
    for [matching_blocks.sort()]. *)
Fixpoint insert_block (x : block) (l : list block) : list block :=
  match l with
  | [] => [x]
  | y :: l' => if block_leb x y then x :: l else y :: insert_block x l'
  end.

(** Modelled from the spec: [matching_blocks.sort()]. *)
Definition sort_blocks (l : list block) : list block :=
  fold_right insert_block [] l.

(** Modelled from the spec: one iteration of the merge of adjacent
    blocks in [difflib.SequenceMatcher.get_matching_blocks]:

    <<
    i1 = j1 = k1 = 0
    non_adjacent = []
    for i2, j2, k2 in matching_blocks:
        if i1 + k1 == i2 and j1 + k1 == j2:
            k1 += k2
        else:
            if k1:
                non_adjacent.append((i1, j1, k1))
            i1, j1, k1 = i2, j2, k2
    if k1:
        non_adjacent.append((i1, j1, k1))
    non_adjacent.append( (la, lb, 0) )
    >> *)
Definition merge_step (st : block * list block) (x : block) : block * list block :=
  let '((i1, j1, k1), non_adjacent) := st in
  let '(i2, j2, k2) := x in
  if (i1 + k1 =? i2) && (j1 + k1 =? j2) then ((i1, j1, k1 + k2), non_adjacent)
  else
    ((i2, j2, k2),
     if k1 =? 0 then non_adjacent else non_adjacent ++ [(i1, j1, k1)]).

(** Modelled from the spec: the merge of adjacent blocks and the final
    sentinel of [get_matching_blocks]. *)
Definition merge_adjacent (la lb : Z) (matching_blocks : list block) : list block :=
  let '((i1, j1, k1), non_adjacent) :=
    fold_left merge_step matching_blocks ((0, 0, 0), []) in
  let non_adjacent :=
    if k1 =? 0 then non_adjacent else non_adjacent ++ [(i1, j1, k1)] in
  non_adjacent ++ [(la, lb, 0)].

(** Modelled from the spec: [difflib.SequenceMatcher.get_matching_blocks].
    The work-list loop needs at most [2 * len(a) + 1] iterations. *)
Definition get_matching_blocks (a b : list A) : list block :=
  let la := len a in
  let lb := len b in
  let b2j := chain_b b in
  let '(_, matching_blocks) :=
    blocks_loop (Z.to_nat (2 * la + 1)) a b b2j [(0, la, 0, lb)] [] in
  merge_adjacent la lb (sort_blocks matching_blocks).

(** Modelled from the spec: the sum of the sizes of the blocks. *)
Definition sum_sizes (blocks : list block) : Z :=
  foldr Z.add 0 (map block_size blocks).

(** Modelled from the spec: the number [M] of matched elements,
    [sum(triple[-1] for triple in self.get_matching_blocks())] in
    [difflib.SequenceMatcher.ratio]. *)
Definition matches (a b : list A) : Z :=
  sum_sizes (get_matching_blocks a b).

End Matcher.

(** Modelled from the spec: [difflib._calculate_ratio], the ratio
    [2 * M / T] in binary64, and 1.0 for a total length of zero:

    <<
    if length:
        return 2.0 * matches / length
    return 1.0
    >> *)
Definition calculate_ratio (matches length : Z) : spec_float :=
  if length =? 0 then Float.one
  else Float.div (Float.mul Float.two (Float.of_int matches)) (Float.of_int length).

(** Modelled from the spec: [SequenceMatcher(None, a, b).ratio()] on
    two strings. *)
Definition ratio (a b : string) : spec_float :=
  let a := list_ascii_of_string a in
  let b := list_ascii_of_string b in
  calculate_ratio (matches a b) (len a + len b).

End SequenceMatcher.

(** [SequenceMatcher(None, plate1, plate2).ratio() * 100] *)
Definition score (a b : string) : spec_float :=
  Float.mul (SequenceMatcher.ratio a b) (Float.of_int 100).

(** ** The window matcher: [find_license_plate_errors] *)

(** A row of [license_plates] as returned by
    [SELECT id, DateTime, LicensePlate ... ORDER BY DateTime].  The
    [DateTime] text has the fixed format [%Y-%m-%d %H:%M:%S];
    [datetime.strptime] maps it to an instant with a resolution of one
    second, and the record carries that instant, counted in seconds. *)
Record detection : Type := Detection {
  det_id : Z;
  det_time : Z;
  det_plate : string
}.

(** The dictionary appended to [errors]. *)
Record error : Type := Error {
  id1 : Z;
  id2 : Z;
  time1 : Z;
  time2 : Z;
  plate1 : string;
  plate2 : string;
  similarity : spec_float
}.

(** [timedelta(minutes=m)], in seconds *)
Definition timedelta_minutes (m : Z) : Z := 60 * m.

(** The dictionary built for the pair [record1], [record2] and their
    similarity. *)
Definition make_error (record1 record2 : detection) (similarity : spec_float) : error :=
  {| id1 := det_id record1;
     id2 := det_id record2;
     time1 := det_time record1;
     time2 := det_time record2;
     plate1 := det_plate record1;
     plate2 := det_plate record2;
     similarity := similarity |}.

(** The inner loop over [records[i+1:i+5]]; the [break] ends the scan of
    the candidates of [record1]. *)
Fixpoint compare_with_next (time_window similarity_threshold : Z)
    (record1 : detection) (candidates : list detection) : list error :=
  match candidates with
  | [] => []
  | record2 :: rest =>
      let time_diff := det_time record2 - det_time record1 in
      if time_window <? time_diff then []
      else
        let found :=
          if bool_decide (det_plate record1 <> det_plate record2) then
            let similarity := score (det_plate record1) (det_plate record2) in
            if Float.ge_int similarity similarity_threshold
            then [make_error record1 record2 similarity]
            else []
          else [] in
        found ++ compare_with_next time_window similarity_threshold record1 rest
  end.

(** [l[lo:hi]] for indices [0 <= lo <= hi]; a slice stops at the end of
    the list. *)
Definition slice {A : Type} (l : list A) (lo hi : nat) : list A :=
  take (hi - lo) (drop lo l).

(** [records] is the result of [cursor.fetchall()]. *)
Definition find_license_plate_errors (time_window_minutes similarity_threshold : Z)
    (records : list detection) : list error :=
  let time_window := timedelta_minutes time_window_minutes in
  concat (imap (fun (i : nat) (record1 : detection) =>
                  compare_with_next time_window similarity_threshold record1
                    (slice records (i + 1) (i + 5)))
               records).

(** ** The correction resolver and sink:
       [update_license_plates_with_scores] *)

Inductive correction_type : Type :=
  | unknown
  | missing_chars
  | added_chars
  | char_swap.

(** The values of one [INSERT INTO corrected_plates]. *)
Record correction : Type := Correction {
  original_id : Z;
  timestamp : Z;
  original_plate : string;
  corrected_plate : string;
  confidence_score : Z;
  correction_kind : correction_type
}.

(** A row of the table [corrected_plates]: its [id] and the inserted
    values. *)
Record corrected_plate_row : Type := CorrectedPlate {
  cp_id : Z;
  cp_values : correction
}.

(** The database: the rows of [license_plates], and the rows of
    [corrected_plates] when that table exists. *)
Record database : Type := Database {
  license_plates : list detection;
  corrected_plates : option (list corrected_plate_row)
}.

(** <<
    correction_type = 'unknown'
    if len(original) > len(candidate):
        correction_type = 'missing_chars'
    elif len(original) < len(candidate):
        correction_type = 'added_chars'
    else:
        correction_type = 'char_swap'
    >> *)
Definition classify (original candidate : string) : correction_type :=
  let correction_type := unknown in
  if (String.length candidate <? String.length original)%nat then missing_chars
  else if (String.length original <? String.length candidate)%nat then added_chars
  else char_swap.

(** [corrected = original if len(original) >= len(candidate) else candidate] *)
Definition choose_corrected (original candidate : string) : string :=
  if (String.length candidate <=? String.length original)%nat then original
  else candidate.

(** The body of the loop over [errors], up to the [INSERT]:
    [int(error['similarity'])] raises on an infinity and on a NaN. *)
Definition resolve (e : error) : option correction :=
  let original := plate1 e in
  let candidate := plate2 e in
  let correction_type := classify original candidate in
  let corrected := choose_corrected original candidate in
  confidence ← Float.to_int (similarity e);
  Some {| original_id := id1 e;
          timestamp := time1 e;
          original_plate := original;
          corrected_plate := corrected;
          confidence_score := confidence;
          correction_kind := correction_type |}.

(** The rowid that SQLite gives to a row inserted without an [id]: one
    more than the largest [id] of the table, 1 in an empty table. *)
Definition next_rowid (table : list corrected_plate_row) : Z :=
  foldr Z.max 0 (map cp_id table) + 1.

Definition insert_row (table : list corrected_plate_row) (c : correction)
    : list corrected_plate_row :=
  table ++ [ {| cp_id := next_rowid table; cp_values := c |} ].

(** [for error in errors: ... cursor.execute(INSERT ...)] *)
Fixpoint insert_corrections (table : list corrected_plate_row) (errors : list error)
    : option (list corrected_plate_row) :=
  match errors with
  | [] => Some table
  | e :: errors' =>
      c ← resolve e;
      insert_corrections (insert_row table c) errors'
  end.

(** [CREATE TABLE IF NOT EXISTS corrected_plates (...)] *)
Definition create_corrected_plates (db : database) : database :=
  match corrected_plates db with
  | Some _ => db
  | None => {| license_plates := license_plates db; corrected_plates := Some [] |}
  end.

(** [DELETE FROM corrected_plates] on a database that has the table *)
Definition delete_corrected_plates (db : database) : database :=
  {| license_plates := license_plates db;
     corrected_plates := (fun _ => []) <$> corrected_plates db |}.

(** The table is created when missing and emptied, one row is inserted
    per error, and the transaction is committed. *)
Definition update_license_plates_with_scores (errors : list error) (db : database)
    : option database :=
  let db := create_corrected_plates db in
  let db := delete_corrected_plates db in
  table ← corrected_plates db;
  table ← insert_corrections table errors;
  Some {| license_plates := license_plates db; corrected_plates := Some table |}.

(** [create_table]: [license_plates] is created when it is missing, and
    [corrected_plates] is dropped and created again. *)
Definition create_table (db : database) : database :=
  {| license_plates := license_plates db; corrected_plates := Some [] |}.

(** The end of the main block, with the defaults of the call:

    <<
    errors = find_license_plate_errors(time_window_minutes=5,
                                       similarity_threshold=70, ...)
    if errors:
        update_license_plates_with_scores(errors)
    >>

    [records] is what the [SELECT] of [find_license_plate_errors]
    fetches from [db]. *)
Definition find_and_update (records : list detection) (db : database) : option database :=
  let errors := find_license_plate_errors 5 70 records in
  match errors with
  | [] => Some db
  | _ :: _ => update_license_plates_with_scores errors db
  end.

(** ** The properties of the specification, as definitions *)

(** The records are in ascending order of their timestamps. *)
Definition sorted_by_time (records : list detection) : Prop :=
  StronglySorted (fun r1 r2 : detection => det_time r1 <= det_time r2) records.

(** The conditions under which the pair [record1], [record2] is a match:
    inside the window, different plates, score at least the threshold. *)
Definition qualifies (time_window_minutes similarity_threshold : Z)
    (record1 record2 : detection) : bool :=
  (det_time record2 - det_time record1 <=? timedelta_minutes time_window_minutes)
  && bool_decide (det_plate record1 <> det_plate record2)
  && Float.ge_int (score (det_plate record1) (det_plate record2)) similarity_threshold.

(** The matches of the specification: for every record [i] in order and
    every [j] among the four that follow it, in order, the match of the
    pair when it qualifies. *)
Definition expected_matches (time_window_minutes similarity_threshold : Z)
    (records : list detection) : list error :=
  flat_map (fun i : nat =>
    flat_map (fun j : nat =>
      match records !! i, records !! j with
      | Some record1, Some record2 =>
          if qualifies time_window_minutes similarity_threshold record1 record2
          then [make_error record1 record2
                  (score (det_plate record1) (det_plate record2))]
          else []
      | _, _ => []
      end) (seq (i + 1) 4))
    (seq 0 (length records)).

(** The value of a float lies between two integers. *)
Definition float_between (lo hi : Z) (x : spec_float) : Prop :=
  Float.ge_int x lo = true /\ Float.le_int x hi = true.

(** The rows of a table filled from an empty table: the corrections in
    order, with the ids 1, 2, ... *)
Definition numbered_rows (cs : list correction) : list corrected_plate_row :=
  imap (fun (i : nat) (c : correction) => {| cp_id := Z.of_nat i + 1; cp_values := c |}) cs.

(** ** Invariants of the sequence matcher *)

(** The entries of [j2len] before row [i] of [find_longest_match]:
    lengths of matches that end in row [i - 1], inside the ranges. *)
Definition row_ok (alo blo i : Z) (j2len : gmap Z Z) : Prop :=
  forall j k, j2len !! j = Some k -> 1 <= k <= i - alo /\ k <= j - blo + 1.

(** The block [best] lies in [a[alo:ihi]] and [b[blo:bhi]]. *)
Definition best_ok (alo blo ihi bhi : Z) (best : SequenceMatcher.block) : Prop :=
  alo <= best.1.1 /\ blo <= best.1.2 /\ 0 <= best.2 /\
  best.1.1 + best.2 <= ihi /\ best.1.2 + best.2 <= bhi.

Definition range_ok (r : SequenceMatcher.range) : Prop :=
  let '(alo, ahi, blo, bhi) := r in alo <= ahi /\ blo <= bhi.

(** The lengths of the ranges of the work list, in [a] and in [b]. *)
Definition queue_size_a (queue : list SequenceMatcher.range) : Z :=
  foldr Z.add 0 (map (fun r : SequenceMatcher.range => r.1.1.2 - r.1.1.1) queue).

Definition queue_size_b (queue : list SequenceMatcher.range) : Z :=
  foldr Z.add 0 (map (fun r : SequenceMatcher.range => r.2 - r.1.2) queue).

(** The work list and the blocks found so far fit in the two sequences. *)
Definition loop_ok (la lb : Z) (queue : list SequenceMatcher.range)
    (blocks : list SequenceMatcher.block) : Prop :=
  Forall range_ok queue /\
  Forall (fun x : SequenceMatcher.block => 0 <= SequenceMatcher.block_size x) blocks /\
  SequenceMatcher.sum_sizes blocks + queue_size_a queue <= la /\
  SequenceMatcher.sum_sizes blocks + queue_size_b queue <= lb.

(** An upper bound of the number of iterations that the work list
    still needs. *)
Definition queue_work (queue : list SequenceMatcher.range) : Z :=
  foldr Z.add 0 (map (fun r : SequenceMatcher.range => 2 * (r.1.1.2 - r.1.1.1) + 1) queue).

(** The indices of [x] in [l], in increasing order, when the first
    element of [l] has the index [k]. *)
Fixpoint positions_from {A : Type} `{EqDecision A} (k : Z) (l : list A) (x : A) : list Z :=
  match l with
  | [] => []
  | y :: l' =>
      if decide (y = x) then k :: positions_from (k + 1) l' x
      else positions_from (k + 1) l' x
  end.

Section SelfMatch.

(** The comparison of a sequence [a] with itself, with an index table
    [b2j] that has no entry for the popular elements. *)
Context {A : Type} `{Countable A}.
Variables (a : list A) (b2j : gmap A (list Z)).

(** The element at the index [i] has an entry in [b2j]. *)
Definition keyed (i : Z) : bool :=
  match SequenceMatcher.getitem a i with
  | Some x => bool_decide (is_Some (b2j !! x))
  | None => false
  end.

(** The number of consecutive elements with an entry in [b2j] that
    end at the index [i]. *)
Fixpoint run_upto (i : nat) : Z :=
  match i with
  | O => if keyed 0 then 1 else 0
  | S i' => if keyed (Z.of_nat i) then run_upto i' + 1 else 0
  end.

Definition run (i : Z) : Z :=
  if i <? 0 then 0 else run_upto (Z.to_nat i).

(** [j2len] after row [i]: no entry is longer than the runs that end
    at its row and at its column, and the entry of the diagonal is
    the run that ends at [i]. *)
Definition diag_row (i : Z) (j2len : gmap Z Z) : Prop :=
  (forall j k, j2len !! j = Some k -> 0 <= j /\ 1 <= k <= run i /\ k <= run j) /\
  (0 <= i -> keyed i = true -> j2len !! i = Some (run i)).

(** [best] after row [i]: a block of the diagonal, at least as long as
    every run that ends at a row up to [i]. *)
Definition diag_best (i : Z) (best : SequenceMatcher.block) : Prop :=
  best.1.1 = best.1.2 /\ 0 <= best.2 /\ 0 <= best.1.1 /\
  best.1.1 + best.2 <= i + 1 /\
  (forall i', 0 <= i' <= i -> run i' <= best.2).

End SelfMatch.

(** The rounding of binary64 to the nearest value, ties to even, on a
    non-negative integer [z] that loses its [n] lowest bits: the
    mantissa goes up when the lost bits are more than half a unit, or
    exactly half a unit under an odd mantissa. *)
Definition round_up (n z : Z) : bool :=
  Z.odd (z / 2 ^ (n - 1))
  && (negb (z mod 2 ^ (n - 1) =? 0) || Z.odd (z / 2 ^ n)).

Definition rounded (n z : Z) : Z :=
  z / 2 ^ n + (if round_up n z then 1 else 0).

(** The mantissa of 53 bits and the exponent of the binary64 value
    nearest to the positive integer [z]. *)
Definition nearest (z : Z) : Z * Z :=
  let d := Zdigits2 z in
  if d <=? 53 then (z * 2 ^ (53 - d), d - 53)
  else
    let n := d - 53 in
    let m := rounded n z in
    if m <? 2 ^ 53 then (m, n) else (2 ^ 52, n + 1).

(** The order of the values [m * 2 ^ e] with a mantissa of 53 bits. *)
Definition normal_le (x y : Z * Z) : Prop :=
  x.2 < y.2 \/ (x.2 = y.2 /\ x.1 <= y.1).

(** ** The ingestion: [load_csv_to_db] *)

(** A data row of the CSV file, as [csv.DictReader] yields it: the
    [DateTime] text, as the instant that it denotes in seconds, and the
    [LicensePlate] text. *)
Record csv_row : Type := CsvRow {
  csv_DateTime : Z;
  csv_LicensePlate : string
}.

(** The rowid that SQLite gives to a row inserted into [license_plates]
    without an [id]: one more than the largest [id] of the table, 1 in
    an empty table. *)
Definition next_license_id (table : list detection) : Z :=
  match map det_id table with
  | [] => 1
  | id :: ids => foldr Z.max id ids + 1
  end.

(** [INSERT INTO license_plates (DateTime, LicensePlate) VALUES (?, ?)] *)
Definition insert_license_plate (table : list detection) (row : csv_row)
    : list detection :=
  table ++ [ {| det_id := next_license_id table;
                det_time := csv_DateTime row;
                det_plate := csv_LicensePlate row |} ].

(** [for row in reader: cursor.execute(INSERT ...)] and the commit, on
    a database that has the table [license_plates]; [rows] are the data
    rows of the CSV file.  The counter [records_count] is printed
    only. *)
Definition load_csv_to_db (rows : list csv_row) (db : database) : database :=
  {| license_plates := fold_left insert_license_plate rows (license_plates db);
     corrected_plates := corrected_plates db |}.

(** [SELECT id, DateTime, LicensePlate FROM license_plates ORDER BY DateTime]
    and [fetchall()]: the rows of the table in ascending order of
    [DateTime] (for texts of the fixed format, the order of the texts is
    the order of their instants).  SQL leaves the order of rows with the
    same [DateTime] open, so [records] is any such ordering of the
    table. *)
Definition fetched (db : database) (records : list detection) : Prop :=
  records ≡ₚ license_plates db /\ sorted_by_time records.

(** The main block after [create_csv]:

    <<
    create_table()
    load_csv_to_db('license_plates.csv')
    errors = find_license_plate_errors(time_window_minutes=5,
                                       similarity_threshold=70, ...)
    if errors:
        update_license_plates_with_scores(errors)
    >>

    [rows] are the data rows of the CSV file and [records] is what the
    query of [find_license_plate_errors] fetches. *)
Definition main_block (rows : list csv_row) (records : list detection) (db : database)
    : option database :=
  let db := create_table db in
  let db := load_csv_to_db rows db in
  find_and_update records db.

(** The values of a detection, without its [id]. *)
Definition detection_values (r : detection) : csv_row :=
  {| csv_DateTime := det_time r; csv_LicensePlate := det_plate r |}.

(** ** Python strings *)

(** [s[:n]] and [s[n:]] for an index [n >= 0] *)
Definition str_take (n : nat) (s : string) : string :=
  string_of_list_ascii (take n (list_ascii_of_string s)).

Definition str_drop (n : nat) (s : string) : string :=
  string_of_list_ascii (drop n (list_ascii_of_string s)).

(** ** The generator of the test data: [create_csv] *)

Module CsvGenerator.

(** The characters of a plate *)
Definition characters : string := "0123456789ABCDEFGHJKLMNPQRSTUVWXYZ".

Inductive error_type : Type :=
  | swap
  | remove.

(** <<
    replacements = {
        '0': '8', '1': '7', '2': 'Z', '3': '8',
        '5': 'S', '6': 'G', '8': '3', 'B': '8',
        'S': '5', 'Z': '2'
    }
    >> *)
Definition replacements : gmap ascii ascii :=
  list_to_map
    [ ("0", "8"); ("1", "7"); ("2", "Z"); ("3", "8");
      ("5", "S"); ("6", "G"); ("8", "3"); ("B", "8");
      ("S", "5"); ("Z", "2") ]%char.

(** [[i for i, c in enumerate(error_plate) if c in replacements]], with
    the index [i] of the first character of [l] *)
Fixpoint possible_chars_from (i : nat) (l : list ascii) : list nat :=
  match l with
  | [] => []
  | c :: l' =>
      if bool_decide (is_Some (replacements !! c))
      then i :: possible_chars_from (S i) l'
      else possible_chars_from (S i) l'
  end.

Definition possible_chars (error_plate : string) : list nat :=
  possible_chars_from 0 (list_ascii_of_string error_plate).

(** The random draws of one iteration of the loop: [base_plate] is the
    result of [random.choices(..., k=7)], [error_type] the result of
    [random.choice(['swap', 'remove'])], and [pos] the result of
    [random.choice(possible_chars)] or of [random.randint(0, len(error_plate)-1)]. *)
Record draw : Type := Draw {
  base_plate : string;
  error_type_drawn : error_type;
  pos : nat
}.

(** The draws that [random] can return. *)
Definition valid_draw (d : draw) : bool :=
  (String.length (base_plate d) =? 7)%nat
  && forallb (fun c => bool_decide (c ∈ list_ascii_of_string characters))
             (list_ascii_of_string (base_plate d))
  && match error_type_drawn d with
     | swap =>
         bool_decide (possible_chars (base_plate d) = [])
         || bool_decide (pos d ∈ possible_chars (base_plate d))
     | remove => (pos d <? String.length (base_plate d))%nat
     end.

(** The error version of the base plate.  [error_plate[pos]] raises on
    an index past the end, and [replacements[char]] on a character that
    is no key. *)
Definition error_plate (d : draw) : option string :=
  let error_plate := base_plate d in
  match error_type_drawn d with
  | swap =>
      match possible_chars error_plate with
      | [] => Some error_plate
      | _ :: _ =>
          let pos := pos d in
          char ← String.get pos error_plate;
          new ← replacements !! char;
          Some (str_take pos error_plate +:+ String new EmptyString
                +:+ str_drop (pos + 1) error_plate)
      end
  | remove =>
      let pos := pos d in
      Some (str_take pos error_plate +:+ str_drop (pos + 1) error_plate)
  end.

(** One iteration of the loop: the rows written so far and
    [start_time], in seconds. *)
Definition write_pair (state : Z * list csv_row) (d : draw) : option (Z * list csv_row) :=
  let '(start_time, rows) := state in
  error_plate ← error_plate d;
  let rows := rows ++ [ {| csv_DateTime := start_time;
                           csv_LicensePlate := base_plate d |} ] in
  let start_time := start_time + 20 in
  let rows := rows ++ [ {| csv_DateTime := start_time;
                           csv_LicensePlate := error_plate |} ] in
  let start_time := start_time + 60 in
  Some (start_time, rows).

(** [for pair_num in range(num_records // 2)], over the list of the
    values of [pair_num] *)
Fixpoint write_pairs (state : Z * list csv_row) (draws : nat -> draw)
    (pair_nums : list nat) : option (Z * list csv_row) :=
  match pair_nums with
  | [] => Some state
  | pair_num :: rest =>
      state ← write_pair state (draws pair_num);
      write_pairs state draws rest
  end.

(** The data rows that [create_csv] writes after the header;
    [start_time] is [datetime.now()] in whole seconds, and [draws]
    gives the random draws of each iteration. *)
Definition create_csv (num_records : Z) (start_time : Z) (draws : nat -> draw)
    : option (list csv_row) :=
  snd <$> write_pairs (start_time, []) draws (seq 0 (Z.to_nat (num_records / 2))).

End CsvGenerator.

(** ** Matching blocks *)

(** The block [(i, j, k)] lies in both sequences and matches:
    [a[i:i+k] == b[j:j+k]], element by element. *)
Definition block_matches {A : Type} (a b : list A) (x : SequenceMatcher.block) : Prop :=
  0 <= x.1.1 /\ 0 <= x.1.2 /\ 0 <= x.2 /\
  x.1.1 + x.2 <= Z.of_nat (length a) /\ x.1.2 + x.2 <= Z.of_nat (length b) /\
  forall t, 0 <= t < x.2 -> a !! Z.to_nat (x.1.1 + t) = b !! Z.to_nat (x.1.2 + t).

(** The entries of [j2len] before row [i] of [find_longest_match] are
    the lengths of matches that end in row [i - 1]. *)
Definition row_matches {A : Type} (a b : list A) (i : Z) (j2len : gmap Z Z) : Prop :=
  forall j k, j2len !! j = Some k -> 1 <= k /\ block_matches a b (i - k, j - k + 1, k).

(** The range lies in both sequences. *)
Definition range_in {A : Type} (a b : list A) (r : SequenceMatcher.range) : Prop :=
  let '(alo, ahi, blo, bhi) := r in
  0 <= alo <= ahi /\ ahi <= Z.of_nat (length a) /\
  0 <= blo <= bhi /\ bhi <= Z.of_nat (length b).

(** ** The generator of one plate: [generate_random_license_plate] *)

Module RandomPlate.

Definition characters : string := "0123456789ABCDEFGHJKLMNPQRSTUVWXYZ".

Inductive deviation_type : Type :=
  | swap
  | missing_start
  | missing_end
  | missing_multiple.

(** The common character replacements, in the order of the loop. *)
Definition replacements : list (ascii * ascii) :=
  [ ("3", "8"); ("8", "3");
    ("1", "7"); ("7", "1");
    ("0", "8"); ("0", "3");
    ("B", "8"); ("S", "5");
    ("Z", "2"); ("2", "Z");
    ("O", "0"); ("I", "1") ]%char.

(** [plate.replace(old, new)] for two characters: every occurrence of
    [old] becomes [new]. *)
Definition str_replace (old new : ascii) (plate : string) : string :=
  string_of_list_ascii
    (map (fun c : ascii => if decide (c = old) then new else c)
         (list_ascii_of_string plate)).

(** The random draws of one call: [length_drawn] is the result of
    [random.choice([7, 8])], [plate_drawn] of [random.choices(characters, k=length)],
    [error_drawn] of [random.random() < 0.2], [deviation_type_drawn] of the
    choice of the deviation, [swap_drawn n] of [random.random() < 0.3] in
    the iteration [n] of the loop over the replacements,
    [num_chars_to_remove] of [random.randint(1, 2)], and
    [positions_to_remove] of [random.sample(range(len(plate)), num_chars_to_remove)]. *)
Record draw : Type := Draw {
  length_drawn : nat;
  plate_drawn : string;
  error_drawn : bool;
  deviation_type_drawn : deviation_type;
  swap_drawn : nat -> bool;
  num_chars_to_remove : nat;
  positions_to_remove : list nat
}.

(** The draws that [random] can return; the draws of the removal are
    made for the deviation [missing_multiple] only. *)
Definition valid_draw (d : draw) : bool :=
  bool_decide (length_drawn d = 7%nat \/ length_drawn d = 8%nat)
  && (String.length (plate_drawn d) =? length_drawn d)%nat
  && forallb (fun c => bool_decide (c ∈ list_ascii_of_string characters))
             (list_ascii_of_string (plate_drawn d))
  && (if error_drawn d then
        match deviation_type_drawn d with
        | missing_multiple =>
            bool_decide (num_chars_to_remove d = 1%nat \/ num_chars_to_remove d = 2%nat)
            && (length (positions_to_remove d) =? num_chars_to_remove d)%nat
            && bool_decide (NoDup (positions_to_remove d))
            && forallb (fun p => (p <? String.length (plate_drawn d))%nat)
                       (positions_to_remove d)
        | _ => true
        end
      else true).

(** <<
    for old, new in replacements:
        if old in plate and random.random() < 0.3:
            plate = plate.replace(old, new)
    >>

    [n] is the number of the iteration. *)
Fixpoint apply_swaps (n : nat) (replacements : list (ascii * ascii))
    (swap_drawn : nat -> bool) (plate : string) : string :=
  match replacements with
  | [] => plate
  | (old, new) :: rest =>
      let plate :=
        if bool_decide (old ∈ list_ascii_of_string plate) && swap_drawn n
        then str_replace old new plate
        else plate in
      apply_swaps (S n) rest swap_drawn plate
  end.

(** [char for idx, char in enumerate(plate) if idx not in positions_to_remove],
    with the index [idx] of the first character of [l] *)
Fixpoint remove_positions (idx : nat) (positions_to_remove : list nat) (l : list ascii)
    : list ascii :=
  match l with
  | [] => []
  | char :: l' =>
      if bool_decide (idx ∈ positions_to_remove)
      then remove_positions (S idx) positions_to_remove l'
      else char :: remove_positions (S idx) positions_to_remove l'
  end.

Definition generate_random_license_plate (d : draw) : string :=
  let plate := plate_drawn d in
  if error_drawn d then
    match deviation_type_drawn d with
    | swap => apply_swaps 0 replacements (swap_drawn d) plate
    | missing_start => str_drop 1 plate
    | missing_end => str_take (String.length plate - 1) plate
    | missing_multiple =>
        string_of_list_ascii
          (remove_positions 0 (positions_to_remove d) (list_ascii_of_string plate))
    end
  else plate.

End RandomPlate.

(** * Proofs *)

(** ** The resolver *)

Lemma resolve_Some (e : error) (c : correction) :
  resolve e = Some c ->
  exists confidence,
    Float.to_int (similarity e) = Some confidence /\
    c = {| original_id := id1 e; timestamp := time1 e;
           original_plate := plate1 e;
           corrected_plate := choose_corrected (plate1 e) (plate2 e);
           confidence_score := confidence;
           correction_kind := classify (plate1 e) (plate2 e) |}.
Proof.
  unfold resolve. destruct (Float.to_int (similarity e)) as [n|] eqn:E; simpl.
  - intros [= <-]. exists n. split; reflexivity.
  - discriminate.
Qed.

Lemma classify_cases (original candidate : string) :
  classify original candidate =
    match (String.length original ?= String.length candidate)%nat with
    | Gt => missing_chars
    | Lt => added_chars
    | Eq => char_swap
    end.
Proof.
  unfold classify.
  destruct (Nat.compare_spec (String.length original) (String.length candidate)) as [E|E|E].
  - rewrite E, Nat.ltb_irrefl. reflexivity.
  - apply Nat.ltb_lt in E as E'. rewrite E'.
    destruct (Nat.ltb_spec (String.length candidate) (String.length original)); [lia|reflexivity].
  - apply Nat.ltb_lt in E. rewrite E. reflexivity.
Qed.

(** C4: the correction type of a resolved match depends on the lengths
    of the two plates only: [missing_chars] when the first plate is
    longer, [added_chars] when it is shorter, [char_swap] when the
    lengths are equal. *)
Theorem correction_type_by_length (e : error) (c : correction) :
  resolve e = Some c ->
  let len1 := String.length (plate1 e) in
  let len2 := String.length (plate2 e) in
  ((len1 > len2)%nat -> correction_kind c = missing_chars) /\
  ((len1 < len2)%nat -> correction_kind c = added_chars) /\
  (len1 = len2 -> correction_kind c = char_swap).
Proof.
  intros Hc len1 len2. apply resolve_Some in Hc as (n & _ & ->). simpl.
  rewrite classify_cases. fold len1 len2.
  destruct (Nat.compare_spec len1 len2); repeat split; intros; try reflexivity; lia.
Qed.

(** C10: the correction type of a resolved match is one of
    [missing_chars], [added_chars] and [char_swap]; the initial value
    [unknown] is always overwritten. *)
Theorem correction_type_never_unknown (e : error) (c : correction) :
  resolve e = Some c ->
  correction_kind c <> unknown /\
  (correction_kind c = missing_chars \/ correction_kind c = added_chars
   \/ correction_kind c = char_swap).
Proof.
  intros Hc. apply resolve_Some in Hc as (n & _ & ->). simpl.
  rewrite classify_cases.
  destruct (String.length (plate1 e) ?= String.length (plate2 e))%nat;
    split; auto; discriminate.
Qed.

(** C5: the corrected plate of a resolved match is the first plate when
    it is at least as long as the second, the second plate otherwise;
    its length is at least the smaller of the two lengths. *)
Theorem corrected_plate_not_shorter (e : error) (c : correction) :
  resolve e = Some c ->
  corrected_plate c =
    (if (String.length (plate2 e) <=? String.length (plate1 e))%nat
     then plate1 e else plate2 e) /\
  (String.length (corrected_plate c)
   >= Nat.min (String.length (plate1 e)) (String.length (plate2 e)))%nat.
Proof.
  intros Hc. apply resolve_Some in Hc as (n & _ & ->). simpl.
  unfold choose_corrected. split; [reflexivity|].
  destruct (Nat.leb_spec (String.length (plate2 e)) (String.length (plate1 e))); lia.
Qed.

(** ** Truncation of a float to an integer *)

Lemma ge_int_spec (c : option comparison) :
  match c with Some (Gt | Eq) => true | _ => false end = true <->
  c = Some Gt \/ c = Some Eq.
Proof. destruct c as [[| |]|]; intuition congruence. Qed.

Lemma le_int_spec (c : option comparison) :
  match c with Some (Lt | Eq) => true | _ => false end = true <->
  c = Some Lt \/ c = Some Eq.
Proof. destruct c as [[| |]|]; intuition congruence. Qed.

Lemma to_int_nonneg (m : positive) (e : Z) :
  0 <= e -> Float.to_int (S754_finite false m e) = Some (Z.pos m * 2 ^ e).
Proof.
  intros He. unfold Float.to_int.
  destruct e as [|p|p]; try lia; rewrite Z.shiftl_mul_pow2 by lia; reflexivity.
Qed.

Lemma to_int_neg (m : positive) (e : Z) :
  e < 0 -> Float.to_int (S754_finite false m e) = Some (Z.pos m / 2 ^ (- e)).
Proof.
  intros He. unfold Float.to_int.
  destruct e as [|p|p]; try lia. rewrite Z.shiftr_div_pow2 by lia. reflexivity.
Qed.

Lemma compare_int_nonneg (s : bool) (m : positive) (e z : Z) :
  0 <= e ->
  Float.compare_int (S754_finite s m e) z =
    Some ((if s then Z.neg m else Z.pos m) * 2 ^ e ?= z).
Proof.
  intros He. unfold Float.compare_int. destruct e as [|p|p]; try lia; reflexivity.
Qed.

Lemma compare_int_neg (s : bool) (m : positive) (e z : Z) :
  e < 0 ->
  Float.compare_int (S754_finite s m e) z =
    Some ((if s then Z.neg m else Z.pos m) ?= z * 2 ^ (- e)).
Proof.
  intros He. unfold Float.compare_int. destruct e as [|p|p]; try lia; reflexivity.
Qed.

Lemma to_int_between (x : spec_float) :
  float_between 0 100 x ->
  exists n, Float.to_int x = Some n /\ 0 <= n <= 100 /\
            Float.ge_int x n = true /\ Float.ge_int x (n + 1) = false.
Proof.
  unfold float_between, Float.ge_int, Float.le_int.
  rewrite ge_int_spec, le_int_spec.
  destruct x as [s|s| |s m e].
  - intros _. exists 0. repeat split; lia.
  - destruct s; simpl; intros [[?|?] [?|?]]; congruence.
  - simpl. intros [[?|?] _]; congruence.
  - destruct (Z.le_gt_cases 0 e) as [He|He].
    + rewrite !compare_int_nonneg by assumption.
      assert (Hp : 0 < 2 ^ e) by (apply Z.pow_pos_nonneg; lia).
      intros [Hge Hle].
      destruct s.
      { exfalso. destruct (Z.compare_spec (Z.neg m * 2 ^ e) 0);
          destruct Hge; try congruence; nia. }
      rewrite to_int_nonneg by assumption.
      set (v := Z.pos m * 2 ^ e) in *. exists v.
      rewrite !compare_int_nonneg by assumption. fold v.
      rewrite Z.compare_refl.
      assert (v <= 100)
        by (destruct (Z.compare_spec v 100); destruct Hle; try congruence; lia).
      destruct (Z.compare_spec v (v + 1)); try lia. repeat split; lia.
    + rewrite !compare_int_neg by assumption.
      assert (Hp : 0 < 2 ^ (- e)) by (apply Z.pow_pos_nonneg; lia).
      set (q := 2 ^ (- e)) in *.
      intros [Hge Hle].
      destruct s.
      { exfalso. destruct (Z.compare_spec (Z.neg m) (0 * q));
          destruct Hge; try congruence; lia. }
      rewrite to_int_neg by assumption. fold q.
      exists (Z.pos m / q).
      rewrite !compare_int_neg by assumption. fold q.
      pose proof (Z.mul_div_le (Z.pos m) q Hp).
      pose proof (Z.mul_succ_div_gt (Z.pos m) q Hp).
      assert (Z.pos m <= 100 * q)
        by (destruct (Z.compare_spec (Z.pos m) (100 * q)); destruct Hle; try congruence; lia).
      assert (0 <= Z.pos m / q) by (apply Z.div_pos; lia).
      assert (Z.pos m / q <= 100) by (apply Z.div_le_upper_bound; lia).
      destruct (Z.compare_spec (Z.pos m) (Z.pos m / q * q));
        destruct (Z.compare_spec (Z.pos m) ((Z.pos m / q + 1) * q));
        repeat split; try lia; try reflexivity.
Qed.

(** ** The sink *)

Lemma foldr_max_app (l1 l2 : list Z) :
  foldr Z.max 0 (l1 ++ l2) = Z.max (foldr Z.max 0 l1) (foldr Z.max 0 l2).
Proof.
  induction l1 as [|x l1 IH]; simpl.
  - induction l2 as [|y l2 IH]; simpl; lia.
  - rewrite IH. lia.
Qed.

Lemma numbered_rows_snoc (cs : list correction) (c : correction) :
  numbered_rows (cs ++ [c]) =
    numbered_rows cs ++ [ {| cp_id := Z.of_nat (length cs) + 1; cp_values := c |} ].
Proof.
  unfold numbered_rows. rewrite imap_app. simpl.
  rewrite Nat.add_0_r. reflexivity.
Qed.

Lemma next_rowid_numbered (cs : list correction) :
  next_rowid (numbered_rows cs) = Z.of_nat (length cs) + 1.
Proof.
  unfold next_rowid. f_equal.
  induction cs as [|c cs IH] using rev_ind; [reflexivity|].
  rewrite numbered_rows_snoc, map_app, foldr_max_app, IH, length_app. simpl. lia.
Qed.

Lemma insert_row_numbered (cs : list correction) (c : correction) :
  insert_row (numbered_rows cs) c = numbered_rows (cs ++ [c]).
Proof.
  unfold insert_row. rewrite next_rowid_numbered, numbered_rows_snoc. reflexivity.
Qed.

Lemma insert_corrections_numbered (errors : list error) (cs0 : list correction) :
  insert_corrections (numbered_rows cs0) errors =
    (fun cs => numbered_rows (cs0 ++ cs)) <$> mapM resolve errors.
Proof.
  revert cs0. induction errors as [|e errors IH]; intros cs0; simpl.
  - rewrite app_nil_r. reflexivity.
  - destruct (resolve e) as [c|]; simpl; [|reflexivity].
    rewrite insert_row_numbered, IH.
    destruct (mapM resolve errors) as [cs|]; simpl; [|reflexivity].
    rewrite <- app_assoc. reflexivity.
Qed.

Lemma update_spec (errors : list error) (db : database) :
  update_license_plates_with_scores errors db =
    (fun cs => {| license_plates := license_plates db;
                  corrected_plates := Some (numbered_rows cs) |})
    <$> mapM resolve errors.
Proof.
  unfold update_license_plates_with_scores.
  assert (Ht : corrected_plates (delete_corrected_plates (create_corrected_plates db))
               = Some (numbered_rows [])).
  { destruct db as [lp [t|]]; reflexivity. }
  assert (Hl : license_plates (delete_corrected_plates (create_corrected_plates db))
               = license_plates db).
  { destruct db as [lp [t|]]; reflexivity. }
  rewrite Ht, Hl. simpl. rewrite (insert_corrections_numbered errors []).
  destruct (mapM resolve errors); reflexivity.
Qed.

(** C7: when the persistence step succeeds on the errors [errors], the
    table [corrected_plates] holds exactly the corrections resolved
    from [errors], in order and numbered from 1, whatever it held
    before; the detections are untouched; and running the step again
    with the same errors leaves the database as it is. *)
Theorem update_replaces_all (errors : list error) (db db1 : database) :
  update_license_plates_with_scores errors db = Some db1 ->
  (exists cs, mapM resolve errors = Some cs /\
              corrected_plates db1 = Some (numbered_rows cs)) /\
  license_plates db1 = license_plates db /\
  (forall prior : option (list corrected_plate_row),
     update_license_plates_with_scores errors
       {| license_plates := license_plates db; corrected_plates := prior |}
     = Some db1) /\
  update_license_plates_with_scores errors db1 = Some db1.
Proof.
  rewrite update_spec. destruct (mapM resolve errors) as [cs|] eqn:E; simpl; [|congruence].
  intros [= <-]. simpl. repeat split.
  - exists cs. split; reflexivity.
  - intros prior. rewrite update_spec, E. reflexivity.
  - rewrite update_spec, E. reflexivity.
Qed.

(** C8: with no detection, the matcher returns the empty list of
    matches; the end of the main block then leaves the database as it
    is, with the empty table [corrected_plates] that [create_table] made;
    and the persistence step itself, run on no match, resolves nothing
    and leaves an empty table. *)
Theorem empty_input_no_matches (time_window_minutes similarity_threshold : Z)
    (db : database) :
  find_license_plate_errors time_window_minutes similarity_threshold [] = [] /\
  find_and_update [] db = Some db /\
  corrected_plates <$> find_and_update [] (create_table db) = Some (Some []) /\
  mapM resolve [] = Some [] /\
  update_license_plates_with_scores [] db =
    Some {| license_plates := license_plates db; corrected_plates := Some [] |}.
Proof.
  repeat split. destruct db as [lp [t|]]; reflexivity.
Qed.

(** ** The scorer on empty strings *)

(** C9: the score of two empty strings is 100: the ratio of the
    sequence matcher is 1.0 when the total length is zero. *)
Theorem score_empty_strings :
  score "" "" = Float.hundred /\
  SequenceMatcher.ratio "" "" = Float.one /\
  (forall matches : Z, SequenceMatcher.calculate_ratio matches 0 = Float.one) /\
  float_between 100 100 (score "" "").
Proof.
  repeat split.
Qed.

(** ** The window matcher *)

Lemma flat_map_nil_all {A B : Type} (f : A -> list B) (l : list A) :
  (forall x, In x l -> f x = []) -> flat_map f l = [].
Proof.
  induction l as [|x l IH]; simpl; intros Hf; [reflexivity|].
  rewrite (Hf x) by auto. rewrite IH by auto. reflexivity.
Qed.

Lemma flat_map_ext_in {A B : Type} (f g : A -> list B) (l : list A) :
  (forall x, In x l -> f x = g x) -> flat_map f l = flat_map g l.
Proof.
  induction l as [|x l IH]; simpl; intros Hf; [reflexivity|].
  rewrite (Hf x) by auto. rewrite IH by auto. reflexivity.
Qed.

Lemma flat_map_flat_map {A B C : Type} (f : B -> list C) (g : A -> list B) (l : list A) :
  flat_map f (flat_map g l) = flat_map (fun x => flat_map f (g x)) l.
Proof.
  induction l as [|x l IH]; simpl; [reflexivity|].
  rewrite flat_map_app, IH. reflexivity.
Qed.

Lemma flat_map_map {A B C : Type} (f : B -> list C) (g : A -> B) (l : list A) :
  flat_map f (map g l) = flat_map (fun x => f (g x)) l.
Proof. induction l as [|x l IH]; simpl; [reflexivity|]. rewrite IH. reflexivity. Qed.

Lemma concat_imap_seq {A B : Type} (f : nat -> A -> list B) (l : list A) :
  concat (imap f l) =
    flat_map (fun i => match l !! i with Some x => f i x | None => [] end)
             (seq 0 (length l)).
Proof.
  revert f. induction l as [|x l IH]; intros f; simpl; [reflexivity|].
  f_equal. rewrite IH, <- seq_shift, flat_map_map. reflexivity.
Qed.

Lemma slice_lookups {A : Type} (l : list A) (lo n : nat) :
  take n (drop lo l) =
    flat_map (fun j => match l !! j with Some x => [x] | None => [] end) (seq lo n).
Proof.
  revert lo. induction n as [|n IH]; intros lo; simpl.
  - apply take_0.
  - destruct (l !! lo) as [x|] eqn:E.
    + rewrite (drop_S l x lo E). simpl. f_equal. apply IH.
    + rewrite drop_ge by (apply lookup_ge_None; assumption).
      simpl. symmetry. apply flat_map_nil_all. intros j Hj.
      apply in_seq in Hj. apply lookup_ge_None in E.
      rewrite (proj2 (lookup_ge_None l j)) by lia. reflexivity.
Qed.

Lemma sorted_by_time_lookup (records : list detection) (i j : nat) (r1 r2 : detection) :
  sorted_by_time records -> (i < j)%nat ->
  records !! i = Some r1 -> records !! j = Some r2 ->
  det_time r1 <= det_time r2.
Proof.
  intros Hs. revert i j. induction Hs as [|r l Hs IH Hr]; intros i j Hij H1 H2.
  - rewrite lookup_nil in H1. congruence.
  - destruct j as [|j]; [lia|]. simpl in H2. destruct i as [|i]; simpl in H1.
    + injection H1 as <-. rewrite Forall_forall in Hr. apply Hr.
      eapply list_elem_of_lookup_2. eassumption.
    + apply (IH i j); [lia|assumption..].
Qed.

Lemma sorted_by_time_slice (records : list detection) (lo hi : nat) :
  sorted_by_time records -> sorted_by_time (slice records lo hi).
Proof.
  unfold sorted_by_time, slice. intros Hs.
  assert (Hd : forall n l,
    StronglySorted (fun r1 r2 : detection => det_time r1 <= det_time r2) l ->
    StronglySorted (fun r1 r2 : detection => det_time r1 <= det_time r2) (drop n l)).
  { induction n as [|n IH]; intros l Hl; [rewrite drop_0; assumption|].
    destruct l as [|x l]; simpl; [constructor|].
    apply IH. inversion Hl; assumption. }
  apply (Hd lo) in Hs. revert Hs. generalize (drop lo records).
  generalize (hi - lo)%nat. induction n as [|n IH]; intros l Hl.
  - rewrite take_0. constructor.
  - destruct l as [|x l]; simpl; [constructor|].
    inversion Hl as [|? ? Hl' Hx]; subst. constructor; [apply IH; assumption|].
    apply Forall_take. assumption.
Qed.

(** On candidates in ascending order of time, the [break] of the inner
    loop skips records outside the window only. *)
Lemma compare_with_next_sorted (w t : Z) (r1 : detection) (cs : list detection) :
  sorted_by_time cs ->
  compare_with_next (timedelta_minutes w) t r1 cs =
    flat_map (fun r2 =>
                if qualifies w t r1 r2
                then [make_error r1 r2 (score (det_plate r1) (det_plate r2))]
                else []) cs.
Proof.
  intros Hs. induction Hs as [|r2 cs Hs IH Hr]; simpl; [reflexivity|].
  unfold qualifies at 1.
  destruct (Z.ltb_spec (timedelta_minutes w) (det_time r2 - det_time r1)) as [Hlt|Hge].
  - destruct (Z.leb_spec (det_time r2 - det_time r1) (timedelta_minutes w)); [lia|].
    simpl. symmetry. apply flat_map_nil_all. intros r3 Hr3.
    rewrite Forall_forall in Hr. apply list_elem_of_In, Hr in Hr3.
    unfold qualifies.
    destruct (Z.leb_spec (det_time r3 - det_time r1) (timedelta_minutes w)); [lia|].
    reflexivity.
  - destruct (Z.leb_spec (det_time r2 - det_time r1) (timedelta_minutes w)); [|lia].
    rewrite IH. simpl.
    destruct (bool_decide (det_plate r1 <> det_plate r2)); simpl; [|reflexivity].
    destruct (Float.ge_int _ _); reflexivity.
Qed.

Lemma find_license_plate_errors_expected (w t : Z) (records : list detection) :
  sorted_by_time records ->
  find_license_plate_errors w t records = expected_matches w t records.
Proof.
  intros Hs. unfold find_license_plate_errors, expected_matches.
  rewrite concat_imap_seq. apply flat_map_ext_in. intros i _.
  destruct (records !! i) as [r1|] eqn:E1.
  - rewrite compare_with_next_sorted by (apply sorted_by_time_slice; assumption).
    unfold slice. replace (i + 5 - (i + 1))%nat with 4%nat by lia.
    rewrite slice_lookups, flat_map_flat_map.
    apply flat_map_ext_in. intros j _.
    destruct (records !! j) as [r2|]; simpl; [|reflexivity].
    apply app_nil_r.
  - symmetry. apply flat_map_nil_all. reflexivity.
Qed.

Lemma elem_of_expected_matches (w t : Z) (records : list detection) (e : error) :
  In e (expected_matches w t records) <->
  exists (i j : nat) (r1 r2 : detection),
    (i < j <= i + 4)%nat /\
    records !! i = Some r1 /\ records !! j = Some r2 /\
    qualifies w t r1 r2 = true /\
    e = make_error r1 r2 (score (det_plate r1) (det_plate r2)).
Proof.
  unfold expected_matches. rewrite in_flat_map. split.
  - intros (i & _ & Hi). apply in_flat_map in Hi as (j & Hj & He).
    apply in_seq in Hj.
    destruct (records !! i) as [r1|] eqn:E1; [|destruct He].
    destruct (records !! j) as [r2|] eqn:E2; [|destruct He].
    destruct (qualifies w t r1 r2) eqn:Q; [|destruct He].
    destruct He as [<-|[]]. exists i, j, r1, r2. repeat split; auto; lia.
  - intros (i & j & r1 & r2 & Hij & E1 & E2 & Q & ->).
    exists i. split.
    + apply in_seq. apply lookup_lt_Some in E1. lia.
    + apply in_flat_map. exists j. split; [apply in_seq; lia|].
      rewrite E1, E2, Q. left. reflexivity.
Qed.

Lemma qualifies_true (w t : Z) (r1 r2 : detection) :
  qualifies w t r1 r2 = true <->
  det_time r2 - det_time r1 <= timedelta_minutes w /\
  det_plate r1 <> det_plate r2 /\
  Float.ge_int (score (det_plate r1) (det_plate r2)) t = true.
Proof.
  unfold qualifies. rewrite !andb_true_iff, Z.leb_le, bool_decide_eq_true. tauto.
Qed.

(** C1: on records in ascending order of time, the matcher returns the
    matches of the specification, in their order: one match for each
    pair of a record [i] and a record [j] among the four after [i] whose
    times differ by at most the window, whose plates differ and whose
    score is at least the threshold; and a match is returned if and only
    if it is the match of such a pair. *)
Theorem find_matches_iff (time_window_minutes similarity_threshold : Z)
    (records : list detection) :
  sorted_by_time records ->
  find_license_plate_errors time_window_minutes similarity_threshold records
    = expected_matches time_window_minutes similarity_threshold records /\
  forall e : error,
    In e (find_license_plate_errors time_window_minutes similarity_threshold records) <->
    exists (i j : nat) (record1 record2 : detection),
      (i < j <= i + 4)%nat /\
      records !! i = Some record1 /\ records !! j = Some record2 /\
      det_time record2 - det_time record1 <= timedelta_minutes time_window_minutes /\
      det_plate record1 <> det_plate record2 /\
      Float.ge_int (score (det_plate record1) (det_plate record2)) similarity_threshold = true /\
      e = make_error record1 record2
            (score (det_plate record1) (det_plate record2)).
Proof.
  intros Hs. split; [apply find_license_plate_errors_expected; assumption|].
  intros e. rewrite find_license_plate_errors_expected by assumption.
  rewrite elem_of_expected_matches. split.
  - intros (i & j & r1 & r2 & Hij & E1 & E2 & Q & ->).
    apply qualifies_true in Q as (? & ? & ?). exists i, j, r1, r2. auto 10.
  - intros (i & j & r1 & r2 & Hij & E1 & E2 & ? & ? & ? & ->).
    exists i, j, r1, r2. rewrite qualifies_true. auto 10.
Qed.

(** C2: on records in ascending order of time, every match returned by
    the matcher has its first time at most its second time, two
    different plates, and a time difference of at most the window. *)
Theorem match_invariants (time_window_minutes similarity_threshold : Z)
    (records : list detection) (e : error) :
  sorted_by_time records ->
  In e (find_license_plate_errors time_window_minutes similarity_threshold records) ->
  time1 e <= time2 e /\
  plate1 e <> plate2 e /\
  time2 e - time1 e <= timedelta_minutes time_window_minutes.
Proof.
  intros Hs He. rewrite find_license_plate_errors_expected in He by assumption.
  apply elem_of_expected_matches in He as (i & j & r1 & r2 & Hij & E1 & E2 & Q & ->).
  apply qualifies_true in Q as (? & ? & ?). simpl. repeat split; auto.
  apply (sorted_by_time_lookup records i j); auto. lia.
Qed.

Lemma compare_with_next_in (time_window t : Z) (r1 : detection)
    (cs : list detection) (e : error) :
  In e (compare_with_next time_window t r1 cs) ->
  exists r2,
    In r2 cs /\ e = make_error r1 r2 (score (det_plate r1) (det_plate r2)).
Proof.
  induction cs as [|r2 cs IH]; simpl; [intros []|].
  destruct (time_window <? det_time r2 - det_time r1); [intros []|].
  intros He. apply in_app_or in He as [He|He].
  - destruct (bool_decide _); [|destruct He].
    destruct (Float.ge_int _ _); [|destruct He].
    destruct He as [<-|[]]. exists r2. auto.
  - destruct (IH He) as (r & Hr & ->). exists r. auto.
Qed.

(** Every match is the match of two records of the input. *)
Lemma find_license_plate_errors_in (w t : Z) (records : list detection) (e : error) :
  In e (find_license_plate_errors w t records) ->
  exists r1 r2,
    In r1 records /\ In r2 records /\
    e = make_error r1 r2 (score (det_plate r1) (det_plate r2)).
Proof.
  unfold find_license_plate_errors. rewrite concat_imap_seq, in_flat_map.
  intros (i & _ & He).
  destruct (records !! i) as [r1|] eqn:E1; [|destruct He].
  apply compare_with_next_in in He as (r2 & Hr2 & ->).
  unfold slice in Hr2. rewrite slice_lookups, in_flat_map in Hr2.
  destruct Hr2 as (j & _ & Hj).
  destruct (records !! j) as [r|] eqn:E2; [|destruct Hj].
  destruct Hj as [->|[]].
  exists r1, r2. repeat split.
  - apply list_elem_of_In. eapply list_elem_of_lookup_2. eassumption.
  - apply list_elem_of_In. eapply list_elem_of_lookup_2. eassumption.
Qed.

(** ** The sequence matcher: the blocks stay inside their ranges *)

Module SequenceMatcherFacts.
Import SequenceMatcher.

Section Ranges.

Context {A : Type} `{Countable A}.
Variables (a b : list A) (b2j : gmap A (list Z)).

Lemma best_ok_mono (alo blo i i' bhi : Z) (best : block) :
  i <= i' -> best_ok alo blo i bhi best -> best_ok alo blo i' bhi best.
Proof. unfold best_ok. intros; lia. Qed.

Lemma scan_row_ok (alo blo bhi i : Z) (j2len : gmap Z Z) (js : list Z) :
  alo <= i -> row_ok alo blo i j2len ->
  forall (newj2len : gmap Z Z) (best : block),
    row_ok alo blo (i + 1) newj2len -> best_ok alo blo (i + 1) bhi best ->
    row_ok alo blo (i + 1) (scan_row blo bhi i j2len js newj2len best).1 /\
    best_ok alo blo (i + 1) bhi (scan_row blo bhi i j2len js newj2len best).2.
Proof.
  intros Hi Hrow. induction js as [|j js IH]; intros newj2len best Hnew Hbest; simpl.
  - split; assumption.
  - destruct (Z.ltb_spec j blo) as [Hlo|Hlo]; [apply IH; assumption|].
    destruct (Z.leb_spec bhi j) as [Hhi|Hhi]; [split; assumption|].
    assert (Hk : 1 <= default 0 (j2len !! (j - 1)) + 1 <= i + 1 - alo /\
                 default 0 (j2len !! (j - 1)) + 1 <= j - blo + 1).
    { destruct (j2len !! (j - 1)) as [k|] eqn:E; simpl.
      - apply Hrow in E. lia.
      - lia. }
    set (k := default 0 (j2len !! (j - 1)) + 1) in *.
    apply IH.
    + intros j' k' Hj'. destruct (decide (j = j')) as [<-|Hne].
      * rewrite lookup_insert_eq in Hj'. injection Hj' as <-. lia.
      * rewrite lookup_insert_ne in Hj' by assumption. apply Hnew in Hj'. lia.
    + destruct (Z.ltb_spec (block_size best) k); [|assumption].
      unfold best_ok. simpl. lia.
Qed.

Lemma scan_step_ok (alo blo bhi i : Z) (st : gmap Z Z * block) :
  alo <= i -> row_ok alo blo i st.1 -> best_ok alo blo i bhi st.2 ->
  row_ok alo blo (i + 1) (scan_step a b2j blo bhi st i).1 /\
  best_ok alo blo (i + 1) bhi (scan_step a b2j blo bhi st i).2.
Proof.
  destruct st as [j2len best]. simpl. intros Hi Hrow Hbest.
  assert (Hbest' : best_ok alo blo (i + 1) bhi best)
    by (apply (best_ok_mono alo blo i); [lia|assumption]).
  assert (Hempty : row_ok alo blo (i + 1) ∅)
    by (intros j k Hj; rewrite lookup_empty in Hj; congruence).
  destruct (getitem a i) as [x|].
  - apply (scan_row_ok alo); assumption.
  - split; assumption.
Qed.

Lemma scan_fold_ok (alo blo bhi : Z) (n : nat) :
  forall (i : Z) (st : gmap Z Z * block),
    alo <= i -> row_ok alo blo i st.1 -> best_ok alo blo i bhi st.2 ->
    row_ok alo blo (i + Z.of_nat n)
      (fold_left (scan_step a b2j blo bhi) (seqZ i (Z.of_nat n)) st).1 /\
    best_ok alo blo (i + Z.of_nat n) bhi
      (fold_left (scan_step a b2j blo bhi) (seqZ i (Z.of_nat n)) st).2.
Proof.
  induction n as [|n IH]; intros i st Hi Hrow Hbest.
  - simpl. rewrite Z.add_0_r. split; assumption.
  - rewrite seqZ_cons by lia. simpl.
    replace (Z.pred (Z.of_nat (S n))) with (Z.of_nat n) by lia.
    replace (i + Z.of_nat (S n)) with (Z.succ i + Z.of_nat n) by lia.
    destruct (scan_step_ok alo blo bhi i st Hi Hrow Hbest) as [Hrow' Hbest'].
    apply IH; [lia|..]; replace (Z.succ i) with (i + 1) by lia; assumption.
Qed.

Lemma extend_left_ok (alo blo ihi bhi : Z) (n : nat) (best : block) :
  best_ok alo blo ihi bhi best ->
  best_ok alo blo ihi bhi (extend_left n a b alo blo best).
Proof.
  revert best. induction n as [|n IH]; intros [[besti bestj] bestsize] Hb; simpl.
  - assumption.
  - destruct (Z.ltb_spec alo besti); simpl; [|assumption].
    destruct (Z.ltb_spec blo bestj); simpl; [|assumption].
    destruct (bool_decide _); [|assumption].
    apply IH. unfold best_ok in *. simpl in *. lia.
Qed.

Lemma extend_right_ok (alo blo ahi bhi : Z) (n : nat) (best : block) :
  best_ok alo blo ahi bhi best ->
  best_ok alo blo ahi bhi (extend_right n a b ahi bhi best).
Proof.
  revert best. induction n as [|n IH]; intros [[besti bestj] bestsize] Hb; simpl.
  - assumption.
  - destruct (Z.ltb_spec (besti + bestsize) ahi); simpl; [|assumption].
    destruct (Z.ltb_spec (bestj + bestsize) bhi); simpl; [|assumption].
    destruct (bool_decide _); [|assumption].
    apply IH. unfold best_ok in *. simpl in *. lia.
Qed.

(** The two loops of extension stop on their own condition: the number
    of iterations that they are given is never what ends them. *)
Lemma extend_left_stops (alo blo : Z) (n : nat) (best : block) :
  (Z.to_nat (best.1.1 - alo) <= n)%nat ->
  let r := extend_left n a b alo blo best in
  (alo <? r.1.1) && (blo <? r.1.2)
  && bool_decide (getitem a (r.1.1 - 1) = getitem b (r.1.2 - 1)) = false.
Proof.
  revert best. induction n as [|n IH]; intros [[besti bestj] bestsize] Hn; simpl in *.
  - destruct (Z.ltb_spec alo besti); [lia|reflexivity].
  - destruct ((alo <? besti) && (blo <? bestj)
              && bool_decide (getitem a (besti - 1) = getitem b (bestj - 1))) eqn:E.
    + apply IH. simpl. lia.
    + simpl. exact E.
Qed.

Lemma extend_right_stops (ahi bhi : Z) (n : nat) (best : block) :
  (Z.to_nat (ahi - (best.1.1 + best.2)) <= n)%nat ->
  let r := extend_right n a b ahi bhi best in
  (r.1.1 + r.2 <? ahi) && (r.1.2 + r.2 <? bhi)
  && bool_decide (getitem a (r.1.1 + r.2) = getitem b (r.1.2 + r.2)) = false.
Proof.
  revert best. induction n as [|n IH]; intros [[besti bestj] bestsize] Hn; simpl in *.
  - destruct (Z.ltb_spec (besti + bestsize) ahi); [lia|reflexivity].
  - destruct ((besti + bestsize <? ahi) && (bestj + bestsize <? bhi)
              && bool_decide (getitem a (besti + bestsize) = getitem b (bestj + bestsize)))
      eqn:E.
    + apply IH. simpl. lia.
    + simpl. exact E.
Qed.

(** The block found in [a[alo:ahi]] and [b[blo:bhi]] lies inside
    these ranges. *)
Lemma find_longest_match_ok (alo ahi blo bhi : Z) :
  alo <= ahi -> blo <= bhi ->
  best_ok alo blo ahi bhi (find_longest_match a b b2j alo ahi blo bhi).
Proof.
  intros Ha Hb. unfold find_longest_match.
  pose proof (scan_fold_ok alo blo bhi (Z.to_nat (ahi - alo)) alo (∅, (alo, blo, 0))) as Hf.
  rewrite Z2Nat.id in Hf by lia.
  destruct (fold_left _ _ _) as [j2len best1]. simpl in Hf.
  destruct Hf as [_ Hbest1].
  - lia.
  - intros j k Hj. rewrite lookup_empty in Hj. congruence.
  - unfold best_ok. simpl. lia.
  - replace (alo + (ahi - alo)) with ahi in Hbest1 by lia.
    apply extend_right_ok, extend_left_ok. assumption.
Qed.


Lemma sum_sizes_app (l1 l2 : list block) :
  sum_sizes (l1 ++ l2) = sum_sizes l1 + sum_sizes l2.
Proof.
  unfold sum_sizes. induction l1 as [|x l1 IH]; simpl; [reflexivity|].
  rewrite IH. lia.
Qed.

Lemma queue_size_a_nonneg (queue : list range) :
  Forall range_ok queue -> 0 <= queue_size_a queue.
Proof.
  unfold queue_size_a. induction 1 as [|[[[alo ahi] blo] bhi] queue Hr _ IH]; simpl in *; lia.
Qed.

Lemma queue_size_b_nonneg (queue : list range) :
  Forall range_ok queue -> 0 <= queue_size_b queue.
Proof.
  unfold queue_size_b. induction 1 as [|[[[alo ahi] blo] bhi] queue Hr _ IH]; simpl in *; lia.
Qed.

(** One iteration of the work list keeps the invariant. *)
Lemma blocks_loop_ok (la lb : Z) (n : nat) :
  forall (queue : list range) (blocks : list block),
    loop_ok la lb queue blocks ->
    loop_ok la lb (blocks_loop n a b b2j queue blocks).1
                  (blocks_loop n a b b2j queue blocks).2.
Proof.
  induction n as [|n IH]; intros queue blocks Hok.
  - destruct queue; assumption.
  - destruct queue as [|[[[alo ahi] blo] bhi] queue]; [assumption|].
    simpl. destruct Hok as (Hq & Hb & Hsa & Hsb).
    inversion Hq as [|? ? Hr Hq']; subst. simpl in Hr. destruct Hr as [Ha Hbb].
    pose proof (find_longest_match_ok alo ahi blo bhi Ha Hbb) as Hf.
    destruct (find_longest_match a b b2j alo ahi blo bhi) as [[i j] k].
    unfold best_ok in Hf. simpl in Hf.
    unfold queue_size_a, queue_size_b in Hsa, Hsb. simpl in Hsa, Hsb.
    fold (queue_size_a queue) in Hsa. fold (queue_size_b queue) in Hsb.
    destruct (Z.eqb_spec k 0) as [->|Hk].
    + apply IH. repeat split; try assumption; lia.
    + apply IH. unfold loop_ok. rewrite sum_sizes_app.
      unfold sum_sizes at 2 4. simpl. rewrite Z.add_0_r.
      destruct (Z.ltb_spec alo i), (Z.ltb_spec blo j),
        (Z.ltb_spec (i + k) ahi), (Z.ltb_spec (j + k) bhi); simpl;
        (split; [repeat (constructor; [simpl; lia|]); assumption|]);
        (split; [apply Forall_app; split; [assumption|];
                 constructor; [simpl; lia|constructor]|]);
        unfold queue_size_a, queue_size_b; simpl;
        fold (queue_size_a queue); fold (queue_size_b queue); lia.
Qed.

Lemma queue_work_nonneg (queue : list range) :
  Forall range_ok queue -> 0 <= queue_work queue.
Proof.
  unfold queue_work. induction 1 as [|[[[alo ahi] blo] bhi] queue Hr _ IH]; simpl in *; lia.
Qed.

(** The work list is empty after as many iterations as its work. *)
Lemma blocks_loop_done (n : nat) :
  forall (queue : list range) (blocks : list block),
    Forall range_ok queue -> queue_work queue <= Z.of_nat n ->
    (blocks_loop n a b b2j queue blocks).1 = [].
Proof.
  induction n as [|n IH]; intros queue blocks Hq Hw.
  - destruct queue as [|[[[alo ahi] blo] bhi] queue]; [reflexivity|].
    exfalso. inversion Hq as [|? ? Hr Hq']; subst. simpl in Hr. destruct Hr as [Ha Hb].
    apply queue_work_nonneg in Hq'. unfold queue_work in *. simpl in *. lia.
  - destruct queue as [|[[[alo ahi] blo] bhi] queue]; [reflexivity|].
    simpl. inversion Hq as [|? ? Hr Hq']; subst. simpl in Hr. destruct Hr as [Ha Hb].
    pose proof (find_longest_match_ok alo ahi blo bhi Ha Hb) as Hf.
    destruct (find_longest_match a b b2j alo ahi blo bhi) as [[i j] k].
    unfold best_ok in Hf. simpl in Hf.
    unfold queue_work in Hw. simpl in Hw. fold (queue_work queue) in Hw.
    destruct (Z.eqb_spec k 0) as [->|Hk].
    + apply IH; [assumption|lia].
    + apply IH.
      * destruct (Z.ltb_spec alo i), (Z.ltb_spec blo j),
          (Z.ltb_spec (i + k) ahi), (Z.ltb_spec (j + k) bhi); simpl;
          repeat (constructor; [simpl; lia|]); assumption.
      * destruct (Z.ltb_spec alo i), (Z.ltb_spec blo j),
          (Z.ltb_spec (i + k) ahi), (Z.ltb_spec (j + k) bhi); simpl;
          unfold queue_work; simpl; fold (queue_work queue); lia.
Qed.

Lemma sum_sizes_insert_block (x : block) (l : list block) :
  sum_sizes (insert_block x l) = block_size x + sum_sizes l.
Proof.
  induction l as [|y l IH]; simpl; [reflexivity|].
  destruct (block_leb x y); [reflexivity|].
  unfold sum_sizes in *. simpl. rewrite IH. lia.
Qed.

Lemma sum_sizes_sort_blocks (l : list block) :
  sum_sizes (sort_blocks l) = sum_sizes l.
Proof.
  induction l as [|x l IH]; simpl; [reflexivity|].
  rewrite sum_sizes_insert_block, IH. reflexivity.
Qed.

Lemma merge_fold_sum (l : list block) :
  forall st : block * list block,
    block_size (fold_left merge_step l st).1 + sum_sizes (fold_left merge_step l st).2
    = block_size st.1 + sum_sizes st.2 + sum_sizes l.
Proof.
  induction l as [|[[i2 j2] k2] l IH]; intros [[[i1 j1] k1] na]; simpl.
  - unfold sum_sizes. simpl. lia.
  - rewrite IH. unfold sum_sizes at 4. simpl. fold (sum_sizes l).
    destruct ((i1 + k1 =? i2) && (j1 + k1 =? j2)); simpl.
    + unfold block_size. simpl. lia.
    + destruct (Z.eqb_spec k1 0) as [->|Hk]; simpl.
      * unfold block_size. simpl. lia.
      * rewrite sum_sizes_app. unfold sum_sizes at 2, block_size. simpl. lia.
Qed.

Lemma sum_sizes_merge_adjacent (la lb : Z) (l : list block) :
  sum_sizes (merge_adjacent la lb l) = sum_sizes l.
Proof.
  unfold merge_adjacent.
  pose proof (merge_fold_sum l ((0, 0, 0), [])) as Hm.
  destruct (fold_left merge_step l _) as [[[i1 j1] k1] na].
  unfold block_size in Hm. simpl in Hm.
  rewrite sum_sizes_app. unfold sum_sizes at 2. simpl.
  destruct (Z.eqb_spec k1 0) as [->|Hk].
  - unfold sum_sizes at 2 in Hm. simpl in Hm. lia.
  - rewrite sum_sizes_app. unfold sum_sizes at 2. simpl.
    unfold sum_sizes at 2 in Hm. simpl in Hm. lia.
Qed.

End Ranges.

Section Matches.

Context {A : Type} `{Countable A}.

Lemma sum_sizes_nonneg (blocks : list block) :
  Forall (fun x : block => 0 <= block_size x) blocks -> 0 <= sum_sizes blocks.
Proof.
  unfold sum_sizes. induction 1 as [|x l Hx _ IH]; simpl; lia.
Qed.

Lemma loop_ok_init (a b : list A) :
  loop_ok (len a) (len b) [(0, len a, 0, len b)] [].
Proof.
  unfold loop_ok, queue_size_a, queue_size_b, sum_sizes, len. simpl.
  repeat split; try lia; repeat constructor; simpl; lia.
Qed.

(** The iterations that [get_matching_blocks] allows empty its work
    list. *)
Lemma get_matching_blocks_complete (a b : list A) :
  (blocks_loop (Z.to_nat (2 * len a + 1)) a b (chain_b b)
     [(0, len a, 0, len b)] []).1 = [].
Proof.
  apply blocks_loop_done.
  - repeat constructor; unfold len; simpl; lia.
  - unfold queue_work, len. simpl. lia.
Qed.

(** The number of matched elements is at most the length of each
    sequence. *)
Lemma matches_bounds (a b : list A) :
  0 <= matches a b /\ matches a b <= len a /\ matches a b <= len b.
Proof.
  unfold matches, get_matching_blocks.
  pose proof (blocks_loop_ok a b (chain_b b) (len a) (len b)
                (Z.to_nat (2 * len a + 1)) _ _ (loop_ok_init a b)) as Hok.
  destruct (blocks_loop _ a b (chain_b b) _ _) as [queue blocks].
  simpl in Hok. destruct Hok as (Hq & Hb & Hsa & Hsb).
  rewrite sum_sizes_merge_adjacent, sum_sizes_sort_blocks.
  pose proof (queue_size_a_nonneg queue Hq).
  pose proof (queue_size_b_nonneg queue Hq).
  pose proof (sum_sizes_nonneg blocks Hb). lia.
Qed.

End Matches.

End SequenceMatcherFacts.

(** ** The sequence matcher on two equal sequences *)

Module SelfMatchFacts.
Import SequenceMatcher SequenceMatcherFacts.

Section Positions.

Context {A : Type} `{Countable A}.

Lemma positions_from_bounds (l : list A) (x : A) :
  forall (k j : Z), In j (positions_from k l x) ->
    k <= j < k + len l /\ l !! Z.to_nat (j - k) = Some x.
Proof.
  unfold len. induction l as [|y l IH]; intros k j Hj; simpl in *; [destruct Hj|].
  destruct (decide (y = x)) as [->|Hne].
  - destruct Hj as [<-|Hj].
    + rewrite Z.sub_diag. simpl. split; [lia|reflexivity].
    + apply IH in Hj as [Hb Hl]. split; [lia|].
      replace (Z.to_nat (j - k)) with (S (Z.to_nat (j - (k + 1)))) by lia.
      exact Hl.
  - apply IH in Hj as [Hb Hl]. split; [lia|].
    replace (Z.to_nat (j - k)) with (S (Z.to_nat (j - (k + 1)))) by lia.
    exact Hl.
Qed.

(** The positions of [x] split around each index that holds [x]. *)
Lemma positions_from_split (l : list A) (x : A) :
  forall (k i : Z), k <= i -> l !! Z.to_nat (i - k) = Some x ->
    exists pre post,
      positions_from k l x = pre ++ i :: post /\
      (forall j, In j pre -> k <= j < i) /\
      (forall j, In j post -> i < j < k + len l).
Proof.
  induction l as [|y l IH]; intros k i Hk Hi; [rewrite lookup_nil in Hi; congruence|].
  destruct (decide (i = k)) as [->|Hik].
  - rewrite Z.sub_diag in Hi. simpl in Hi. injection Hi as ->.
    simpl. rewrite decide_True by reflexivity.
    exists [], (positions_from (k + 1) l x). split; [reflexivity|].
    split; [intros j []|].
    intros j Hj. apply positions_from_bounds in Hj. unfold len in *. simpl. lia.
  - replace (Z.to_nat (i - k)) with (S (Z.to_nat (i - (k + 1)))) in Hi by lia.
    simpl in Hi. destruct (IH (k + 1) i ltac:(lia) Hi) as (pre & post & Hp & Hpre & Hpost).
    simpl. destruct (decide (y = x)) as [->|Hne].
    + exists (k :: pre), post. rewrite Hp. split; [reflexivity|]. split.
      * intros j [<-|Hj]; [lia|]. apply Hpre in Hj. lia.
      * intros j Hj. apply Hpost in Hj. unfold len in *. simpl. lia.
    + exists pre, post. split; [assumption|]. split.
      * intros j Hj. apply Hpre in Hj. lia.
      * intros j Hj. apply Hpost in Hj. unfold len in *. simpl. lia.
Qed.

Lemma build_from_lookup (l : list A) (x : A) :
  forall (k : Z) (m : gmap A (list Z)),
    fold_left chain_step (zip (seqZ k (len l)) l) m !! x =
      match positions_from k l x with
      | [] => m !! x
      | ps => Some (default [] (m !! x) ++ ps)
      end.
Proof.
  induction l as [|y l IH]; intros k m; [reflexivity|].
  unfold len. rewrite seqZ_cons by (simpl; lia). simpl zip. simpl fold_left.
  replace (Z.pred (Z.of_nat (S (length l)))) with (len l) by (unfold len; lia).
  rewrite IH. replace (Z.succ k) with (k + 1) by lia. simpl.
  destruct (decide (y = x)) as [->|Hne].
  - rewrite lookup_insert_eq. simpl.
    destruct (positions_from (k + 1) l x); [reflexivity|].
    rewrite <- app_assoc. reflexivity.
  - rewrite lookup_insert_ne by assumption. reflexivity.
Qed.

(** An entry of the index table of [b] lists all the positions of its
    element in [b]. *)
Lemma chain_b_lookup (b : list A) (x : A) (js : list Z) :
  chain_b b !! x = Some js -> js = positions_from 0 b x.
Proof.
  unfold chain_b, purge_popular, build_b2j, enumerate. intros Hx.
  assert (Hb : fold_left chain_step (zip (seqZ 0 (len b)) b) ∅ !! x = Some js).
  { destruct (200 <=? len b); [|assumption].
    apply map_lookup_filter_Some in Hx. apply Hx. }
  rewrite build_from_lookup, lookup_empty in Hb.
  destruct (positions_from 0 b x); [congruence|].
  simpl in Hb. congruence.
Qed.

End Positions.

Section Diagonal.

Context {A : Type} `{Countable A}.
Variables (a : list A) (b2j : gmap A (list Z)).
Hypothesis b2j_positions :
  forall x js, b2j !! x = Some js -> js = positions_from 0 a x.

Lemma run_step (i : Z) :
  0 <= i ->
  run a b2j i = if keyed a b2j i then run a b2j (i - 1) + 1 else 0.
Proof.
  intros Hi. unfold run.
  destruct (Z.ltb_spec i 0); [lia|].
  destruct (Z.ltb_spec (i - 1) 0).
  - replace i with 0 by lia. reflexivity.
  - replace (Z.to_nat i) with (S (Z.to_nat (i - 1))) by lia.
    simpl run_upto.
    replace (Z.of_nat (S (Z.to_nat (i - 1)))) with i by lia.
    reflexivity.
Qed.

Lemma run_upto_bounds (i : nat) : 0 <= run_upto a b2j i <= Z.of_nat i + 1.
Proof.
  induction i as [|i IH]; simpl run_upto.
  - destruct (keyed a b2j 0); lia.
  - destruct (keyed a b2j (Z.of_nat (S i))); lia.
Qed.

Lemma run_bounds (i : Z) : 0 <= run a b2j i /\ (-1 <= i -> run a b2j i <= i + 1).
Proof.
  unfold run. destruct (Z.ltb_spec i 0); [lia|].
  pose proof (run_upto_bounds (Z.to_nat i)). lia.
Qed.

Lemma keyed_position (x : A) (js : list Z) (j : Z) :
  b2j !! x = Some js -> In j js ->
  0 <= j < len a /\ keyed a b2j j = true.
Proof.
  intros Hx Hj. rewrite (b2j_positions x js Hx) in Hj.
  apply positions_from_bounds in Hj as [Hb Hl].
  rewrite Z.sub_0_r in Hl. split; [lia|].
  unfold keyed, getitem. rewrite Hl, Hx. reflexivity.
Qed.

(** The length computed for the cell [(i, j)] from the row before. *)
Lemma entry_bound (i j : Z) (j2len : gmap Z Z) :
  diag_row a b2j (i - 1) j2len -> 0 <= i -> 0 <= j ->
  keyed a b2j i = true -> keyed a b2j j = true ->
  1 <= default 0 (j2len !! (j - 1)) + 1 <= run a b2j i /\
  default 0 (j2len !! (j - 1)) + 1 <= run a b2j j.
Proof.
  intros [Hrow _] Hi Hj Hki Hkj.
  rewrite (run_step i Hi), (run_step j Hj), Hki, Hkj.
  destruct (j2len !! (j - 1)) as [k|] eqn:E; simpl.
  - apply Hrow in E. lia.
  - pose proof (run_bounds (i - 1)). pose proof (run_bounds (j - 1)). lia.
Qed.

Lemma entry_diag (i : Z) (j2len : gmap Z Z) :
  diag_row a b2j (i - 1) j2len -> 0 <= i -> keyed a b2j i = true ->
  default 0 (j2len !! (i - 1)) + 1 = run a b2j i.
Proof.
  intros [Hrow Hdiag] Hi Hki. rewrite (run_step i Hi), Hki.
  destruct (Z.eq_dec i 0) as [->|Hi0].
  - destruct (j2len !! (0 - 1)) as [k|] eqn:E; [apply Hrow in E; lia|reflexivity].
  - destruct (keyed a b2j (i - 1)) eqn:Hk.
    + rewrite Hdiag by (assumption || lia). reflexivity.
    + assert (Hr : run a b2j (i - 1) = 0)
        by (rewrite run_step by lia; rewrite Hk; reflexivity).
      destruct (j2len !! (i - 1)) as [k|] eqn:E; simpl; [|lia].
      apply Hrow in E. lia.
Qed.

Lemma scan_row_app (blo bhi i : Z) (j2len : gmap Z Z) (l1 l2 : list Z) :
  (forall j, In j l1 -> blo <= j < bhi) ->
  forall (newj2len : gmap Z Z) (best : block),
    scan_row blo bhi i j2len (l1 ++ l2) newj2len best =
      scan_row blo bhi i j2len l2
        (scan_row blo bhi i j2len l1 newj2len best).1
        (scan_row blo bhi i j2len l1 newj2len best).2.
Proof.
  induction l1 as [|j l1 IH]; intros Hl newj2len best; [reflexivity|].
  simpl. destruct (Hl j (or_introl eq_refl)) as [Hlo Hhi].
  destruct (Z.ltb_spec j blo); [lia|]. destruct (Z.leb_spec bhi j); [lia|].
  apply IH. intros j' Hj'. apply Hl. right. assumption.
Qed.

(** Cells that are not longer than [best] leave it as it is. *)
Lemma scan_row_keep (i : Z) (j2len : gmap Z Z) (js : list Z) :
  forall (newj2len : gmap Z Z) (best : block),
    (forall j, In j js ->
       0 <= j < len a /\ j <> i /\
       default 0 (j2len !! (j - 1)) + 1 <= block_size best /\
       1 <= default 0 (j2len !! (j - 1)) + 1 <= run a b2j i /\
       default 0 (j2len !! (j - 1)) + 1 <= run a b2j j) ->
    (forall j k, newj2len !! j = Some k ->
       0 <= j /\ 1 <= k <= run a b2j i /\ k <= run a b2j j) ->
    (scan_row 0 (len a) i j2len js newj2len best).2 = best /\
    (forall j k, (scan_row 0 (len a) i j2len js newj2len best).1 !! j = Some k ->
       0 <= j /\ 1 <= k <= run a b2j i /\ k <= run a b2j j) /\
    (scan_row 0 (len a) i j2len js newj2len best).1 !! i = newj2len !! i.
Proof.
  induction js as [|j js IH]; intros newj2len best Hjs Hnew; simpl.
  - auto.
  - destruct (Hjs j (or_introl eq_refl)) as (Hj & Hji & Hbest & Hk1 & Hk2).
    destruct (Z.ltb_spec j 0); [lia|]. destruct (Z.leb_spec (len a) j); [lia|].
    destruct (Z.ltb_spec (block_size best) (default 0 (j2len !! (j - 1)) + 1)); [lia|].
    destruct (IH (<[j:=default 0 (j2len !! (j - 1)) + 1]> newj2len) best) as (Hb & He & Hi).
    + intros j' Hj'. apply Hjs. right. assumption.
    + intros j' k' Hj'. destruct (decide (j = j')) as [<-|Hne].
      * rewrite lookup_insert_eq in Hj'. injection Hj' as <-. lia.
      * rewrite lookup_insert_ne in Hj' by assumption. apply Hnew in Hj'. assumption.
    + split; [assumption|]. split; [assumption|].
      rewrite Hi. apply lookup_insert_ne. assumption.
Qed.

(** One row of the comparison of [a] with itself keeps the best
    block on the diagonal. *)
Lemma diag_step (i : Z) (st : gmap Z Z * block) :
  0 <= i < len a ->
  diag_row a b2j (i - 1) st.1 -> diag_best a b2j (i - 1) st.2 ->
  diag_row a b2j i (scan_step a b2j 0 (len a) st i).1 /\
  diag_best a b2j i (scan_step a b2j 0 (len a) st i).2.
Proof.
  destruct st as [j2len best]. simpl. intros Hi Hrow Hbest.
  destruct Hbest as (Hd & Hk0 & Hi0 & Hsum & Hruns).
  destruct (lookup_lt_is_Some_2 a (Z.to_nat i)) as [x Hx]; [unfold len in Hi; lia|].
  unfold getitem. rewrite Hx.
  destruct (b2j !! x) as [js|] eqn:Hjs; simpl.
  - (* [a[i]] has an entry *)
    assert (Hki : keyed a b2j i = true)
      by (unfold keyed, getitem; rewrite Hx, Hjs; reflexivity).
    pose proof (b2j_positions x js Hjs) as Hpos.
    destruct (positions_from_split a x 0 i) as (pre & post & Hsplit & Hpre & Hpost);
      [lia|rewrite Z.sub_0_r; assumption|].
    rewrite <- Hpos in Hsplit.
    assert (Hin : forall j, In j pre \/ In j post -> In j js).
    { intros j Hj. rewrite Hsplit. apply in_app_iff. simpl. tauto. }
    rewrite Hsplit, scan_row_app by (intros j Hj; apply Hpre in Hj; lia).
    destruct (scan_row_keep i j2len pre ∅ best) as (Hb1 & He1 & Hi1).
    { intros j Hj. pose proof (Hpre j Hj).
      destruct (keyed_position x js j Hjs (Hin j (or_introl Hj))) as [Hjb Hkj].
      pose proof (entry_bound i j j2len Hrow ltac:(lia) ltac:(lia) Hki Hkj).
      pose proof (Hruns j ltac:(lia)). unfold block_size. repeat split; lia. }
    { intros j k Hj. rewrite lookup_empty in Hj. congruence. }
    rewrite Hb1. simpl scan_row.
    destruct (Z.ltb_spec i 0); [lia|]. destruct (Z.leb_spec (len a) i); [lia|].
    rewrite (entry_diag i j2len Hrow ltac:(lia) Hki).
    pose proof (entry_bound i i j2len Hrow ltac:(lia) ltac:(lia) Hki Hki) as Hr.
    rewrite (entry_diag i j2len Hrow ltac:(lia) Hki) in Hr.
    pose proof (run_bounds i) as Hrb.
    set (new1 := (scan_row 0 (len a) i j2len pre ∅ best).1) in *.
    set (best2 := if block_size best <? run a b2j i
                  then (i - run a b2j i + 1, i - run a b2j i + 1, run a b2j i)
                  else best).
    assert (Hbest2 : run a b2j i <= block_size best2 /\ diag_best a b2j i best2).
    { unfold best2. destruct (Z.ltb_spec (block_size best) (run a b2j i)) as [Hlt|Hge].
      - split; [reflexivity|]. unfold diag_best. simpl. repeat split; try lia.
        intros i' Hi'. destruct (Z.eq_dec i' i) as [->|Hne]; [lia|].
        pose proof (Hruns i' ltac:(lia)). unfold block_size in Hlt. lia.
      - split; [assumption|]. unfold diag_best. repeat split; try lia.
        intros i' Hi'. destruct (Z.eq_dec i' i) as [->|Hne]; [assumption|].
        apply Hruns. lia. }
    destruct Hbest2 as [Hge2 Hbest2].
    destruct (scan_row_keep i j2len post (<[i:=run a b2j i]> new1) best2)
      as (Hb3 & He3 & Hi3).
    { intros j Hj. pose proof (Hpost j Hj).
      destruct (keyed_position x js j Hjs (Hin j (or_intror Hj))) as [Hjb Hkj].
      pose proof (entry_bound i j j2len Hrow ltac:(lia) ltac:(lia) Hki Hkj).
      repeat split; lia. }
    { intros j k Hj. destruct (decide (i = j)) as [<-|Hne].
      - rewrite lookup_insert_eq in Hj. injection Hj as <-. lia.
      - rewrite lookup_insert_ne in Hj by assumption. apply He1 in Hj. assumption. }
    rewrite Hb3. split; [|assumption]. split; [assumption|].
    intros _ _. rewrite Hi3. apply lookup_insert_eq.
  - (* [a[i]] is popular: no cell in this row *)
    assert (Hki : keyed a b2j i = false)
      by (unfold keyed, getitem; rewrite Hx, Hjs; reflexivity).
    assert (Hr : run a b2j i = 0)
      by (rewrite run_step by lia; rewrite Hki; reflexivity).
    split.
    + split; [intros j k Hj; rewrite lookup_empty in Hj; congruence|].
      intros _ Hk. congruence.
    + unfold diag_best. repeat split; try lia.
      intros i' Hi'. destruct (Z.eq_dec i' i) as [->|Hne]; [lia|].
      apply Hruns. lia.
Qed.

Lemma diag_fold (m : nat) :
  forall (i : Z) (st : gmap Z Z * block),
    0 <= i -> i + Z.of_nat m <= len a ->
    diag_row a b2j (i - 1) st.1 -> diag_best a b2j (i - 1) st.2 ->
    diag_best a b2j (i + Z.of_nat m - 1)
      (fold_left (scan_step a b2j 0 (len a)) (seqZ i (Z.of_nat m)) st).2.
Proof.
  induction m as [|m IH]; intros i st Hi Hm Hrow Hbest.
  - simpl. rewrite Z.add_0_r. assumption.
  - rewrite seqZ_cons by lia. simpl fold_left.
    replace (Z.pred (Z.of_nat (S m))) with (Z.of_nat m) by lia.
    replace (i + Z.of_nat (S m) - 1) with (Z.succ i + Z.of_nat m - 1) by lia.
    destruct (diag_step i st ltac:(lia) Hrow Hbest) as [Hrow' Hbest'].
    apply IH; [lia|lia|..]; replace (Z.succ i - 1) with i by lia; assumption.
Qed.

Lemma extend_left_self (m : nat) :
  forall (d k : Z), d = Z.of_nat m ->
    extend_left m a a 0 0 (d, d, k) = (0, 0, k + d).
Proof.
  induction m as [|m IH]; intros d k Hd; simpl.
  - subst d. rewrite Z.add_0_r. reflexivity.
  - destruct (Z.ltb_spec 0 d); [|lia]. simpl.
    rewrite bool_decide_eq_true_2 by reflexivity.
    rewrite IH by lia. f_equal. lia.
Qed.

Lemma extend_right_self (m : nat) :
  forall (s : Z), s + Z.of_nat m = len a ->
    extend_right m a a (len a) (len a) (0, 0, s) = (0, 0, len a).
Proof.
  induction m as [|m IH]; intros s Hs; simpl.
  - f_equal. lia.
  - rewrite Z.add_0_l. destruct (Z.ltb_spec s (len a)); [|lia]. simpl.
    rewrite bool_decide_eq_true_2 by reflexivity.
    apply IH. lia.
Qed.

(** The longest match of a sequence with itself is the whole
    sequence. *)
Lemma find_longest_match_self :
  find_longest_match a a b2j 0 (len a) 0 (len a) = (0, 0, len a).
Proof.
  unfold find_longest_match.
  pose proof (diag_fold (Z.to_nat (len a - 0)) 0 (∅, (0, 0, 0))) as Hf.
  assert (Hlen : 0 <= len a) by (unfold len; lia).
  rewrite Z2Nat.id in Hf by lia.
  destruct (fold_left _ _ _) as [j2len [[d d'] k]].
  destruct Hf as (Hd & Hk & Hd0 & Hsum & _); simpl in *.
  - lia.
  - lia.
  - split; [intros j k' Hj; rewrite lookup_empty in Hj; congruence|]. lia.
  - unfold diag_best. simpl. repeat split; lia.
  - subst d'. rewrite (extend_left_self (Z.to_nat (d - 0)) d k) by lia.
    simpl. apply extend_right_self. lia.
Qed.

End Diagonal.

Section SelfMatches.

Context {A : Type} `{Countable A}.

(** All the elements of a sequence match in the comparison with
    itself. *)
Lemma matches_self (a : list A) : matches a a = len a.
Proof.
  unfold matches, get_matching_blocks.
  rewrite (surjective_pairing (blocks_loop _ a a (chain_b a) _ _)).
  rewrite sum_sizes_merge_adjacent, sum_sizes_sort_blocks.
  assert (Hlen : 0 <= len a) by (unfold len; lia).
  replace (Z.to_nat (2 * len a + 1)) with (S (Z.to_nat (2 * len a))) by lia.
  simpl blocks_loop.
  rewrite (find_longest_match_self a (chain_b a) (chain_b_lookup a)).
  destruct (Z.eqb_spec (len a) 0) as [E|E].
  - rewrite E. destruct (Z.to_nat (2 * 0)); reflexivity.
  - rewrite Z.ltb_irrefl. simpl.
    destruct (Z.to_nat (2 * len a)); unfold sum_sizes; simpl; lia.
Qed.

End SelfMatches.

End SelfMatchFacts.

(** ** Rounding of binary64 values *)

Module FloatFacts.

Lemma fexp_eq (x : Z) : fexp Float.prec Float.emax x = Z.max (x - 53) (-1074).
Proof. reflexivity. Qed.

Lemma iter_pos_nat {T : Type} (f : T -> T) (p : positive) (x : T) :
  SpecFloat.iter_pos f p x = Nat.iter (Pos.to_nat p) f x.
Proof.
  revert x. induction p as [p IH|p IH|]; intros x.
  - change (SpecFloat.iter_pos f p~1 x)
      with (SpecFloat.iter_pos f p (SpecFloat.iter_pos f p (f x))).
    rewrite !IH, Pos2Nat.inj_xI.
    replace (S (2 * Pos.to_nat p)) with (Pos.to_nat p + S (Pos.to_nat p))%nat by lia.
    rewrite Nat.iter_add, Nat.iter_succ_r. reflexivity.
  - change (SpecFloat.iter_pos f p~0 x)
      with (SpecFloat.iter_pos f p (SpecFloat.iter_pos f p x)).
    rewrite !IH, Pos2Nat.inj_xO.
    replace (2 * Pos.to_nat p)%nat with (Pos.to_nat p + Pos.to_nat p)%nat by lia.
    rewrite Nat.iter_add. reflexivity.
  - reflexivity.
Qed.

Lemma shr_1_spec (m : Z) (r s : bool) :
  0 <= m ->
  shr_1 {| shr_m := m; shr_r := r; shr_s := s |} =
    {| shr_m := m / 2; shr_r := Z.odd m; shr_s := r || s |}.
Proof.
  intros Hm. rewrite <- Z.div2_div.
  destruct m as [|[p|p|]|p]; try reflexivity. lia.
Qed.

(** [n] shifts to the right divide the mantissa by [2 ^ n], and lose
    nothing when the mantissa is a multiple of [2 ^ n]. *)
Lemma shr_nat_spec (n : nat) (m : Z) (r s : bool) :
  0 <= m ->
  let R := Nat.iter n shr_1 {| shr_m := m; shr_r := r; shr_s := s |} in
  shr_m R = m / 2 ^ Z.of_nat n /\
  ((n > 0)%nat -> r = false -> s = false -> m mod 2 ^ Z.of_nat n = 0 ->
   shr_r R = false /\ shr_s R = false).
Proof.
  intros Hm. induction n as [|n IH]; cbv zeta in *.
  - simpl. split; [rewrite Z.div_1_r; reflexivity|lia].
  - rewrite Nat.iter_succ. destruct IH as [IHm IHf].
    destruct (Nat.iter n shr_1 _) as [m' r' s'] eqn:E. simpl in IHm, IHf.
    assert (Hp : 0 < 2 ^ Z.of_nat n) by (apply Z.pow_pos_nonneg; lia).
    assert (Hm' : 0 <= m') by (subst m'; apply Z.div_pos; lia).
    rewrite shr_1_spec by assumption. simpl.
    assert (Hpow : 2 ^ Z.of_nat (S n) = 2 ^ Z.of_nat n * 2)
      by (rewrite Nat2Z.inj_succ, Z.pow_succ_r by lia; lia).
    split.
    + rewrite IHm, Hpow, Z.div_div by lia. reflexivity.
    + intros _ Hr Hs Hmod. rewrite Hpow in Hmod.
      apply Z.mod_divide in Hmod; [|lia]. destruct Hmod as [q Hq].
      assert (Hdiv : m / 2 ^ Z.of_nat n = q * 2).
      { rewrite Hq.
        replace (q * (2 ^ Z.of_nat n * 2)) with (q * 2 * 2 ^ Z.of_nat n) by lia.
        apply Z.div_mul. lia. }
      split.
      * rewrite IHm, Hdiv, Z.mul_comm, Z.odd_mul. reflexivity.
      * destruct n as [|n].
        { simpl in E. injection E as <- <- <-. rewrite Hr, Hs. reflexivity. }
        destruct IHf as [-> ->]; try assumption; try lia; try reflexivity.
        rewrite Hq. apply Z.mod_divide; [lia|].
        exists (q * 2). lia.
Qed.

Lemma digits2_pos_bounds (p : positive) :
  2 ^ (Z.pos (digits2_pos p) - 1) <= Z.pos p < 2 ^ Z.pos (digits2_pos p).
Proof.
  induction p as [p IH|p IH|]; simpl digits2_pos.
  - rewrite Pos2Z.inj_succ.
    replace (Z.succ (Z.pos (digits2_pos p)) - 1) with (Z.succ (Z.pos (digits2_pos p) - 1)) by lia.
    rewrite !Z.pow_succ_r by lia. lia.
  - rewrite Pos2Z.inj_succ.
    replace (Z.succ (Z.pos (digits2_pos p)) - 1) with (Z.succ (Z.pos (digits2_pos p) - 1)) by lia.
    rewrite !Z.pow_succ_r by lia. lia.
  - simpl. lia.
Qed.

Lemma Zdigits2_bounds (m : Z) :
  0 < m -> 0 < Zdigits2 m /\ 2 ^ (Zdigits2 m - 1) <= m < 2 ^ Zdigits2 m.
Proof.
  destruct m as [|p|p]; try lia. intros _. simpl Zdigits2.
  split; [lia|apply digits2_pos_bounds].
Qed.

Lemma Zdigits2_nonneg (m : Z) : 0 <= Zdigits2 m.
Proof. destruct m; simpl; lia. Qed.

(** The number of digits of a mantissa between two powers of 2. *)
Lemma Zdigits2_unique (m d : Z) :
  2 ^ (d - 1) <= m < 2 ^ d -> 0 < d -> Zdigits2 m = d.
Proof.
  intros Hm Hd.
  assert (Hpos : 0 < m).
  { assert (0 < 2 ^ (d - 1)) by (apply Z.pow_pos_nonneg; lia). lia. }
  destruct (Zdigits2_bounds m Hpos) as [Hd' Hb].
  destruct (Z.lt_trichotomy (Zdigits2 m) d) as [Hlt|[Heq|Hgt]]; [|assumption|].
  - assert (2 ^ Zdigits2 m <= 2 ^ (d - 1)) by (apply Z.pow_le_mono_r; lia). lia.
  - assert (2 ^ d <= 2 ^ (Zdigits2 m - 1)) by (apply Z.pow_le_mono_r; lia). lia.
Qed.

Lemma Zdigits2_ge (m d : Z) : 0 <= d -> 2 ^ d <= m -> d < Zdigits2 m.
Proof.
  intros Hd Hm.
  assert (Hpos : 0 < m).
  { assert (0 < 2 ^ d) by (apply Z.pow_pos_nonneg; lia). lia. }
  destruct (Zdigits2_bounds m Hpos) as [Hd' Hb].
  destruct (Z.lt_ge_cases d (Zdigits2 m)) as [Hlt|Hge]; [assumption|].
  assert (2 ^ Zdigits2 m <= 2 ^ d) by (apply Z.pow_le_mono_r; lia). lia.
Qed.

Lemma shr_record_of_loc_m (m : Z) (l : location) : shr_m (shr_record_of_loc m l) = m.
Proof. destruct l as [|[| |]]; reflexivity. Qed.

(** The shift of [shr_fexp]: the exponent becomes the larger of [e]
    and the exponent of the format, and the mantissa is divided
    accordingly. *)
Lemma shr_fexp_spec (m e : Z) (l : location) :
  0 <= m ->
  let e' := Z.max e (fexp Float.prec Float.emax (Zdigits2 m + e)) in
  (shr_fexp Float.prec Float.emax m e l).2 = e' /\
  shr_m (shr_fexp Float.prec Float.emax m e l).1 = m / 2 ^ (e' - e) /\
  (l = loc_Exact -> m mod 2 ^ (e' - e) = 0 ->
   loc_of_shr_record (shr_fexp Float.prec Float.emax m e l).1 = loc_Exact).
Proof.
  intros Hm e'. unfold shr_fexp, shr.
  set (E := fexp Float.prec Float.emax (Zdigits2 m + e)) in *.
  destruct (E - e) as [|n|n] eqn:En; simpl.
  - replace (e' - e) with 0 by lia. rewrite Z.div_1_r, shr_record_of_loc_m.
    split; [lia|]. split; [reflexivity|]. intros -> _. reflexivity.
  - replace (e' - e) with (Z.pos n) by lia.
    split; [lia|]. rewrite iter_pos_nat.
    destruct (shr_nat_spec (Pos.to_nat n) m
                (shr_r (shr_record_of_loc m l)) (shr_s (shr_record_of_loc m l)) Hm)
      as [Hsm Hfl].
    rewrite positive_nat_Z in *.
    assert (Hrec : shr_record_of_loc m l =
                   {| shr_m := m; shr_r := shr_r (shr_record_of_loc m l);
                      shr_s := shr_s (shr_record_of_loc m l) |})
      by (destruct l as [|[| |]]; reflexivity).
    rewrite Hrec. split; [exact Hsm|].
    intros -> Hmod. destruct Hfl as [Hr Hs]; try reflexivity; try assumption; [lia|].
    simpl in *. destruct (Nat.iter _ _ _) as [m' r' s']. simpl in *.
    rewrite Hr, Hs. reflexivity.
  - replace (e' - e) with 0 by lia. rewrite Z.div_1_r, shr_record_of_loc_m.
    split; [lia|]. split; [reflexivity|]. intros -> _. reflexivity.
Qed.

Lemma round_nearest_even_cases (m : Z) (l : location) :
  round_nearest_even m l = m \/
  (round_nearest_even m l = m + 1 /\ l <> loc_Exact).
Proof.
  destruct l as [|[| |]]; simpl; auto;
    try (right; split; [reflexivity|discriminate]).
  destruct (Z.even m); [auto|]. right. split; [reflexivity|discriminate].
Qed.

Lemma pow2_pos (x : Z) : 0 <= x -> 0 < 2 ^ x.
Proof. intros. apply Z.pow_pos_nonneg; lia. Qed.

Lemma pow2_split (x y z : Z) : y <= x -> z <= y -> 2 ^ (x - z) = 2 ^ (x - y) * 2 ^ (y - z).
Proof.
  intros Hxy Hyz. rewrite <- Z.pow_add_r by lia. f_equal. lia.
Qed.

Lemma canonical_mantissa_eq (m : positive) (e : Z) :
  canonical_mantissa Float.prec Float.emax m e = true ->
  Z.max (Zdigits2 (Z.pos m) + e - 53) (-1074) = e.
Proof. unfold canonical_mantissa. rewrite fexp_eq. intros He. apply Z.eqb_eq in He. exact He. Qed.

(** Rounding does not exceed a value of the format: when the exact
    value [mx * 2 ^ ex] (plus a fraction of a unit when [lx] is not
    exact) is at most the binary64 value [mB * 2 ^ eB], so is the
    rounded value.  The values are compared as multiples of
    [2 ^ k]. *)
Lemma round_aux_le (mx ex : Z) (lx : location) (mB : positive) (eB k : Z) :
  2 ^ 52 <= mx -> k <= ex -> k <= eB ->
  canonical_mantissa Float.prec Float.emax mB eB = true ->
  Zdigits2 (Z.pos mB) + eB <= 971 ->
  mx * 2 ^ (ex - k) <= Z.pos mB * 2 ^ (eB - k) ->
  (lx <> loc_Exact -> mx * 2 ^ (ex - k) < Z.pos mB * 2 ^ (eB - k)) ->
  binary_round_aux Float.prec Float.emax false mx ex lx = S754_zero false \/
  exists m e,
    binary_round_aux Float.prec Float.emax false mx ex lx = S754_finite false m e /\
    ex <= e /\ Z.pos m * 2 ^ (e - k) <= Z.pos mB * 2 ^ (eB - k).
Proof.
  intros Hmx Hkx HkB Hcan Hsmall Hle Hlt.
  apply canonical_mantissa_eq in Hcan.
  assert (Hmx0 : 0 < mx) by (assert (0 < 2 ^ 52) by (apply pow2_pos; lia); lia).
  pose proof (Zdigits2_ge mx 52 ltac:(lia) Hmx) as Hd.
  destruct (Zdigits2_bounds mx Hmx0) as [_ Hdx].
  destruct (Zdigits2_bounds (Z.pos mB) ltac:(lia)) as [HdB0 HdB].
  set (d := Zdigits2 mx) in *. set (dB := Zdigits2 (Z.pos mB)) in *.
  unfold binary_round_aux.
  destruct (shr_fexp_spec mx ex lx ltac:(lia)) as (He1 & Hm1 & Hl1).
  rewrite fexp_eq in *. fold d in He1, Hm1, Hl1.
  destruct (shr_fexp Float.prec Float.emax mx ex lx) as [R1 e1]. simpl in He1, Hm1, Hl1.
  set (m1 := shr_m R1) in *. set (l1 := loc_of_shr_record R1) in *.
  rewrite <- He1 in Hm1, Hl1.
  assert (He1x : ex <= e1) by lia.
  assert (He1v : e1 = Z.max (d + ex - 53) (-1074)) by lia.
  clear He1. set (n := e1 - ex) in *.
  assert (Hn : 0 < 2 ^ n) by (apply pow2_pos; lia).
  assert (HP1 : 0 < 2 ^ (ex - k)) by (apply pow2_pos; lia).
  assert (HPB : 0 < 2 ^ (eB - k)) by (apply pow2_pos; lia).
  assert (Hm1le : m1 * 2 ^ n <= mx)
    by (rewrite Hm1, Z.mul_comm; apply Z.mul_div_le; lia).
  assert (Hm1nn : 0 <= m1) by (rewrite Hm1; apply Z.div_pos; lia).
  assert (He1k : 2 ^ (e1 - k) = 2 ^ n * 2 ^ (ex - k)) by (apply pow2_split; lia).
  set (m2 := round_nearest_even m1 l1).
  assert (Hm2 : 0 <= m2 /\ m2 * 2 ^ (e1 - k) <= Z.pos mB * 2 ^ (eB - k)).
  { destruct (round_nearest_even_cases m1 l1) as [Hr|[Hr Hne]]; fold m2 in Hr; rewrite Hr.
    - split; [assumption|]. rewrite He1k.
      assert (m1 * 2 ^ n * 2 ^ (ex - k) <= mx * 2 ^ (ex - k))
        by (apply Z.mul_le_mono_nonneg_r; lia).
      lia.
    - split; [lia|].
      assert (Hstrict : m1 * 2 ^ (e1 - k) < Z.pos mB * 2 ^ (eB - k)).
      { rewrite He1k.
        assert (m1 * 2 ^ n * 2 ^ (ex - k) <= mx * 2 ^ (ex - k))
          by (apply Z.mul_le_mono_nonneg_r; lia).
        destruct (Z.eq_dec (mx mod 2 ^ n) 0) as [Hmod|Hmod].
        - assert (Hlx : lx <> loc_Exact).
          { intros ->. apply Hne. apply Hl1; [reflexivity|assumption]. }
          apply Hlt in Hlx. lia.
        - pose proof (Z.mod_pos_bound mx (2 ^ n) Hn).
          pose proof (Z.div_mod mx (2 ^ n) ltac:(lia)) as Hdm.
          rewrite <- Hm1 in Hdm.
          assert (m1 * 2 ^ n < mx) by lia.
          assert (m1 * 2 ^ n * 2 ^ (ex - k) < mx * 2 ^ (ex - k))
            by (apply Z.mul_lt_mono_pos_r; lia).
          lia. }
      destruct (Z.le_gt_cases e1 eB) as [HeB|HeB].
      + assert (HQ : 0 < 2 ^ (eB - e1)) by (apply pow2_pos; lia).
        assert (HeBk : 2 ^ (eB - k) = 2 ^ (eB - e1) * 2 ^ (e1 - k))
          by (apply pow2_split; lia).
        assert (HPe : 0 < 2 ^ (e1 - k)) by (apply pow2_pos; lia).
        rewrite HeBk in *. rewrite Z.mul_assoc in *.
        apply Z.mul_lt_mono_pos_r in Hstrict; [|assumption].
        apply Z.mul_le_mono_nonneg_r; lia.
      + exfalso.
        assert (HdBd : dB + eB - k <= d + ex - 1 - k) by lia.
        assert (H1 : Z.pos mB * 2 ^ (eB - k) < 2 ^ dB * 2 ^ (eB - k))
          by (apply Z.mul_lt_mono_pos_r; lia).
        assert (Ea : 2 ^ (dB + (eB - k)) = 2 ^ dB * 2 ^ (eB - k))
          by (apply Z.pow_add_r; lia).
        assert (Eb : 2 ^ (d - 1 + (ex - k)) = 2 ^ (d - 1) * 2 ^ (ex - k))
          by (apply Z.pow_add_r; lia).
        assert (H2 : 2 ^ (dB + (eB - k)) <= 2 ^ (d - 1 + (ex - k)))
          by (apply Z.pow_le_mono_r; lia).
        assert (H3 : 2 ^ (d - 1) * 2 ^ (ex - k) <= mx * 2 ^ (ex - k))
          by (apply Z.mul_le_mono_nonneg_r; lia).
        lia. }
  destruct Hm2 as [Hm2nn Hm2le].
  destruct (shr_fexp_spec m2 e1 loc_Exact Hm2nn) as (He3 & Hm3 & _).
  rewrite fexp_eq in *.
  destruct (shr_fexp Float.prec Float.emax m2 e1 loc_Exact) as [R3 e3].
  simpl in He3, Hm3. simpl.
  set (m3 := shr_m R3) in *.
  rewrite <- He3 in Hm3.
  assert (He31 : e1 <= e3) by lia.
  clear He3. set (n3 := e3 - e1) in *.
  assert (Hn3 : 0 < 2 ^ n3) by (apply pow2_pos; lia).
  assert (Hm3le : m3 * 2 ^ n3 <= m2)
    by (rewrite Hm3, Z.mul_comm; apply Z.mul_div_le; lia).
  assert (Hm3nn : 0 <= m3) by (rewrite Hm3; apply Z.div_pos; lia).
  assert (He3k : 2 ^ (e3 - k) = 2 ^ n3 * 2 ^ (e1 - k)) by (apply pow2_split; lia).
  assert (HPe : 0 < 2 ^ (e1 - k)) by (apply pow2_pos; lia).
  assert (Hm3B : m3 * 2 ^ (e3 - k) <= Z.pos mB * 2 ^ (eB - k)).
  { rewrite He3k.
    assert (m3 * 2 ^ n3 * 2 ^ (e1 - k) <= m2 * 2 ^ (e1 - k))
      by (apply Z.mul_le_mono_nonneg_r; lia).
    lia. }
  destruct m3 as [|m|m] eqn:Em3; [left; reflexivity| |lia].
  right. exists m, e3.
  assert (He3max : e3 <= 971).
  { destruct (Z.le_gt_cases e3 971) as [Hok|Hover]; [assumption|exfalso].
    assert (H1 : Z.pos mB * 2 ^ (eB - k) < 2 ^ dB * 2 ^ (eB - k))
      by (apply Z.mul_lt_mono_pos_r; lia).
    assert (Ea : 2 ^ (dB + (eB - k)) = 2 ^ dB * 2 ^ (eB - k))
      by (apply Z.pow_add_r; lia).
    assert (H2 : 2 ^ (dB + (eB - k)) <= 2 ^ (e3 - k))
      by (apply Z.pow_le_mono_r; lia).
    assert (H3 : 0 < 2 ^ (e3 - k)) by (apply pow2_pos; lia).
    assert (H4 : 1 * 2 ^ (e3 - k) <= Z.pos m * 2 ^ (e3 - k))
      by (apply Z.mul_le_mono_nonneg_r; lia).
    lia. }
  replace (Float.emax - Float.prec) with 971 by reflexivity.
  destruct (Z.leb_spec e3 971); [|lia].
  split; [reflexivity|]. split; [lia|assumption].
Qed.

(** A mantissa of 53 bits followed by zeros is rounded to itself. *)
Lemma round_aux_exact (s : bool) (m : positive) (n ex : Z) :
  2 ^ 52 <= Z.pos m < 2 ^ 53 -> 0 <= n -> -1074 <= ex + n <= 971 ->
  binary_round_aux Float.prec Float.emax s (Z.pos m * 2 ^ n) ex loc_Exact =
    S754_finite s m (ex + n).
Proof.
  intros Hm Hn He.
  assert (Hp : 0 < 2 ^ n) by (apply pow2_pos; lia).
  assert (Hd : Zdigits2 (Z.pos m * 2 ^ n) = 53 + n).
  { apply Zdigits2_unique; [|lia].
    replace (53 + n - 1) with (52 + n) by lia.
    rewrite !Z.pow_add_r by lia. nia. }
  assert (Hdm : Zdigits2 (Z.pos m) = 53) by (apply Zdigits2_unique; lia).
  unfold binary_round_aux.
  destruct (shr_fexp_spec (Z.pos m * 2 ^ n) ex loc_Exact ltac:(lia)) as (He1 & Hm1 & Hl1).
  rewrite fexp_eq, Hd in *.
  destruct (shr_fexp Float.prec Float.emax (Z.pos m * 2 ^ n) ex loc_Exact) as [R1 e1].
  simpl in He1, Hm1, Hl1.
  replace (Z.max ex (Z.max (53 + n + ex - 53) (-1074)) - ex) with n in * by lia.
  rewrite Z.div_mul in Hm1 by lia.
  rewrite Hl1 by (reflexivity || apply Z.mod_mul; lia).
  rewrite Hm1. simpl round_nearest_even.
  destruct (shr_fexp_spec (Z.pos m) e1 loc_Exact ltac:(lia)) as (He3 & Hm3 & _).
  rewrite fexp_eq, Hdm in *.
  destruct (shr_fexp Float.prec Float.emax (Z.pos m) e1 loc_Exact) as [R3 e3].
  simpl in He3, Hm3.
  replace (Z.max e1 (Z.max (53 + e1 - 53) (-1074)) - e1) with 0 in Hm3 by lia.
  rewrite Z.div_1_r in Hm3. rewrite Hm3.
  replace (Float.emax - Float.prec) with 971 by reflexivity.
  destruct (Z.leb_spec e3 971); [|lia]. f_equal. lia.
Qed.

Lemma pos_iter_xO (p d : positive) :
  Z.pos (Pos.iter xO p d) = Z.pos p * 2 ^ Z.pos d.
Proof.
  induction d as [|d IH] using Pos.peano_ind.
  - simpl. lia.
  - rewrite Pos.iter_succ, Pos2Z.inj_xO, IH, Pos2Z.inj_succ, Z.pow_succ_r by lia. lia.
Qed.

(** The round and sticky bits after [n] shifts. *)
Lemma shr_nat_flags (n : nat) (m : Z) :
  0 <= m -> (n > 0)%nat ->
  let R := Nat.iter n shr_1 {| shr_m := m; shr_r := false; shr_s := false |} in
  shr_r R = Z.odd (m / 2 ^ (Z.of_nat n - 1)) /\
  shr_s R = negb (m mod 2 ^ (Z.of_nat n - 1) =? 0).
Proof.
  intros Hm. induction n as [|n IH]; [lia|]. intros _. cbv zeta in *.
  rewrite Nat.iter_succ.
  destruct (shr_nat_spec n m false false Hm) as [Hsm _].
  replace (Z.of_nat (S n) - 1) with (Z.of_nat n) by lia.
  destruct n as [|n].
  - simpl Nat.iter. rewrite shr_1_spec by assumption. simpl.
    rewrite Z.div_1_r, Z.mod_1_r. split; reflexivity.
  - destruct IH as [IHr IHs]; [lia|].
    replace (Z.of_nat (S n) - 1) with (Z.of_nat n) in * by lia.
    destruct (Nat.iter (S n) shr_1 _) as [m' r' s']. simpl in Hsm, IHr, IHs.
    assert (Hp : 0 < 2 ^ Z.of_nat n) by (apply pow2_pos; lia).
    assert (Hm' : 0 <= m') by (subst m'; apply Z.div_pos; [lia|apply pow2_pos; lia]).
    rewrite shr_1_spec by assumption. simpl. split; [rewrite Hsm; reflexivity|].
    assert (Hpow : 2 ^ Z.of_nat (S n) = 2 ^ Z.of_nat n * 2)
      by (rewrite Nat2Z.inj_succ, Z.pow_succ_r by lia; lia).
    rewrite IHr, IHs, Hpow, Z.rem_mul_r, Zmod_odd by lia.
    pose proof (Z.mod_pos_bound m (2 ^ Z.of_nat n) Hp).
    destruct (Z.odd (m / 2 ^ Z.of_nat n));
      destruct (Z.eqb_spec (m mod 2 ^ Z.of_nat n) 0); simpl;
      symmetry;
      first [apply negb_true_iff, Z.eqb_neq; lia|apply negb_false_iff, Z.eqb_eq; lia].
Qed.

(** The rounding of the shifted mantissa, on integers. *)
Lemma round_shift (n : nat) (z : Z) :
  0 <= z -> (n > 0)%nat ->
  let R := Nat.iter n shr_1 {| shr_m := z; shr_r := false; shr_s := false |} in
  round_nearest_even (shr_m R) (loc_of_shr_record R) = rounded (Z.of_nat n) z.
Proof.
  intros Hz Hn. cbv zeta.
  destruct (shr_nat_spec n z false false Hz) as [Hsm _].
  destruct (shr_nat_flags n z Hz Hn) as [Hr Hs].
  destruct (Nat.iter n shr_1 _) as [m' r' s']. simpl in *.
  unfold rounded, round_up. rewrite <- Hr, <- Hs, <- Hsm.
  destruct r', s'; simpl; try lia.
  rewrite <- Z.negb_odd. destruct (Z.odd m'); simpl; lia.
Qed.

Lemma round_up_spec (n z : Z) :
  1 <= n -> 0 <= z ->
  round_up n z = true <->
  2 ^ n < 2 * (z mod 2 ^ n) \/
  (2 * (z mod 2 ^ n) = 2 ^ n /\ Z.odd (z / 2 ^ n) = true).
Proof.
  intros Hn Hz. unfold round_up.
  assert (Hh : 0 < 2 ^ (n - 1)) by (apply pow2_pos; lia).
  assert (Hpow : 2 ^ n = 2 ^ (n - 1) * 2).
  { replace n with (Z.succ (n - 1)) at 1 by lia. rewrite Z.pow_succ_r by lia. lia. }
  rewrite Hpow, Z.rem_mul_r, Zmod_odd by lia.
  pose proof (Z.mod_pos_bound z (2 ^ (n - 1)) Hh).
  set (h := 2 ^ (n - 1)) in *. set (u := z mod h) in *.
  destruct (Z.odd (z / h)); simpl.
  - destruct (Z.eqb_spec u 0) as [Hu|Hu]; simpl.
    + split; [intros Ho; right; split; [lia|assumption]|].
      intros [Hgt|[_ Ho]]; [lia|assumption].
    + split; [intros _; left; lia|reflexivity].
  - split; [discriminate|]. intros [Hgt|[Heq _]]; lia.
Qed.

Lemma rounded_mono (n z1 z2 : Z) :
  1 <= n -> 0 <= z1 <= z2 -> rounded n z1 <= rounded n z2.
Proof.
  intros Hn Hz. unfold rounded.
  assert (Hp : 0 < 2 ^ n) by (apply pow2_pos; lia).
  assert (Hq : z1 / 2 ^ n <= z2 / 2 ^ n) by (apply Z.div_le_mono; lia).
  destruct (Z.eq_dec (z1 / 2 ^ n) (z2 / 2 ^ n)) as [Heq|Hne].
  - destruct (round_up n z1) eqn:U1; [|destruct (round_up n z2); lia].
    assert (U2 : round_up n z2 = true).
    { apply round_up_spec in U1; [|lia|lia]. apply round_up_spec; [lia|lia|].
      pose proof (Z.div_mod z1 (2 ^ n) ltac:(lia)).
      pose proof (Z.div_mod z2 (2 ^ n) ltac:(lia)).
      rewrite <- Heq. rewrite <- Heq in *.
      assert (z1 mod 2 ^ n <= z2 mod 2 ^ n) by lia.
      destruct U1 as [Hgt|[Hhalf Ho]]; [left; lia|].
      destruct (Z.eq_dec (z1 mod 2 ^ n) (z2 mod 2 ^ n));
        [right; split; [lia|assumption]|left; lia]. }
    rewrite U2. lia.
  - destruct (round_up n z1), (round_up n z2); lia.
Qed.

Lemma rounded_double (n z : Z) :
  1 <= n -> 0 <= z -> rounded (n + 1) (2 * z) = rounded n z.
Proof.
  intros Hn Hz. unfold rounded.
  assert (Hp : 0 < 2 ^ n) by (apply pow2_pos; lia).
  assert (Hpow : 2 ^ (n + 1) = 2 * 2 ^ n) by (rewrite Z.pow_add_r by lia; lia).
  assert (Hdiv : 2 * z / 2 ^ (n + 1) = z / 2 ^ n)
    by (rewrite Hpow; apply Z.div_mul_cancel_l; lia).
  assert (Hmod : (2 * z) mod 2 ^ (n + 1) = 2 * (z mod 2 ^ n))
    by (rewrite Hpow; apply Z.mul_mod_distr_l; lia).
  assert (Hup : round_up (n + 1) (2 * z) = round_up n z).
  { pose proof (round_up_spec n z ltac:(lia) ltac:(lia)) as H1.
    pose proof (round_up_spec (n + 1) (2 * z) ltac:(lia) ltac:(lia)) as H2.
    rewrite Hmod, Hdiv, Hpow in H2.
    destruct (round_up n z), (round_up (n + 1) (2 * z)); try reflexivity.
    - assert (false = true); [|congruence].
      apply H2. destruct (proj1 H1 eq_refl) as [?|[? ?]]; [left; lia|right].
      split; [lia|assumption].
    - assert (false = true); [|congruence].
      apply H1. destruct (proj1 H2 eq_refl) as [?|[? ?]]; [left; lia|right].
      split; [lia|assumption]. }
  rewrite Hdiv, Hup. reflexivity.
Qed.

Lemma Zdigits2_double (z : Z) : 0 < z -> Zdigits2 (2 * z) = Zdigits2 z + 1.
Proof.
  intros Hz. destruct (Zdigits2_bounds z Hz) as [Hd0 Hd].
  apply Zdigits2_unique; [|lia].
  replace (Zdigits2 z + 1 - 1) with (Z.succ (Zdigits2 z - 1)) by lia.
  replace (Zdigits2 z + 1) with (Z.succ (Zdigits2 z)) by lia.
  rewrite !Z.pow_succ_r by lia. lia.
Qed.

Lemma rounded_bounds (n z : Z) :
  1 <= n -> 0 < z -> Zdigits2 z = 53 + n ->
  2 ^ 52 <= z / 2 ^ n < 2 ^ 53 /\ z / 2 ^ n <= rounded n z <= z / 2 ^ n + 1.
Proof.
  intros Hn Hz Hd. destruct (Zdigits2_bounds z Hz) as [_ Hb]. rewrite Hd in Hb.
  replace (53 + n - 1) with (52 + n) in Hb by lia.
  rewrite !Z.pow_add_r in Hb by lia.
  assert (Hp : 0 < 2 ^ n) by (apply pow2_pos; lia).
  split.
  - split; [apply Z.div_le_lower_bound; lia|apply Z.div_lt_upper_bound; lia].
  - unfold rounded. destruct (round_up n z); lia.
Qed.

(** The nearest value has a mantissa of 53 bits, and the exponent of
    the digits of [z], or one more under the mantissa [2 ^ 52]. *)
Lemma nearest_spec (z : Z) :
  0 < z ->
  2 ^ 52 <= (nearest z).1 < 2 ^ 53 /\
  ((nearest z).2 = Zdigits2 z - 53 \/
   ((nearest z).2 = Zdigits2 z - 52 /\ (nearest z).1 = 2 ^ 52 /\ 53 < Zdigits2 z)).
Proof.
  intros Hz. destruct (Zdigits2_bounds z Hz) as [Hd0 Hd]. unfold nearest.
  set (d := Zdigits2 z) in *.
  destruct (Z.leb_spec d 53) as [Hle|Hgt]; simpl.
  - split; [|left; reflexivity].
    assert (E52 : 2 ^ 52 = 2 ^ (d - 1) * 2 ^ (53 - d))
      by (rewrite <- Z.pow_add_r by lia; f_equal; lia).
    assert (E53 : 2 ^ 53 = 2 ^ d * 2 ^ (53 - d))
      by (rewrite <- Z.pow_add_r by lia; f_equal; lia).
    rewrite E52, E53.
    assert (0 < 2 ^ (53 - d)) by (apply pow2_pos; lia). nia.
  - destruct (rounded_bounds (d - 53) z ltac:(lia) Hz ltac:(fold d; lia)) as [Hq Hr].
    destruct (Z.ltb_spec (rounded (d - 53) z) (2 ^ 53)); simpl.
    + split; [lia|left; reflexivity].
    + split; [lia|right; repeat split; lia].
Qed.

Lemma finite_to_pos (m : positive) (v e e' : Z) :
  Z.pos m = v -> e = e' -> S754_finite false m e = S754_finite false (Z.to_pos v) e'.
Proof. intros <- <-. reflexivity. Qed.

(** The conversion of a positive integer to binary64. *)
Lemma of_int_nearest (z : Z) :
  0 < z -> Zdigits2 z <= 1000 ->
  Float.of_int z = S754_finite false (Z.to_pos (nearest z).1) (nearest z).2.
Proof.
  intros Hz Hd1000. destruct z as [|p|p]; try lia.
  destruct (Zdigits2_bounds (Z.pos p) ltac:(lia)) as [Hd0 Hd].
  unfold Float.of_int, binary_normalize, binary_round, shl_align, nearest.
  rewrite fexp_eq. change (Z.pos (digits2_pos p)) with (Zdigits2 (Z.pos p)).
  set (d := Zdigits2 (Z.pos p)) in *.
  destruct (Z.leb_spec d 53) as [Hle|Hgt]; cbn [fst snd].
  - replace (Z.max (d + 0 - 53) (-1074) - 0) with (d - 53) by lia.
    replace (Z.max (d + 0 - 53) (-1074)) with (d - 53) by lia.
    destruct (d - 53) as [|n|n] eqn:En; try lia.
    + assert (Hm : 2 ^ 52 <= Z.pos p < 2 ^ 53).
      { replace 52 with (d - 1) by lia. replace 53 with d by lia. exact Hd. }
      pose proof (round_aux_exact false p 0 0 Hm ltac:(lia) ltac:(lia)) as Hr.
      rewrite Z.mul_1_r in Hr. rewrite Hr.
      apply finite_to_pos; [|reflexivity].
      replace (53 - d) with 0 by lia. lia.
    + assert (Hm : 2 ^ 52 <= Z.pos (Pos.iter xO p n) < 2 ^ 53).
      { rewrite pos_iter_xO.
        replace 52 with (d - 1 + Z.pos n) by lia. replace 53 with (d + Z.pos n) by lia.
        rewrite !Z.pow_add_r by lia.
        assert (0 < 2 ^ Z.pos n) by (apply pow2_pos; lia). nia. }
      pose proof (round_aux_exact false (Pos.iter xO p n) 0 (Z.neg n) Hm
                    ltac:(lia) ltac:(lia)) as Hr.
      rewrite Z.mul_1_r, Z.add_0_r in Hr. rewrite Hr.
      apply finite_to_pos; [|reflexivity].
      rewrite pos_iter_xO. f_equal. f_equal. lia.
  - replace (Z.max (d + 0 - 53) (-1074) - 0) with (d - 53) by lia.
    destruct (d - 53) as [|n|n] eqn:En; try lia.
    destruct (rounded_bounds (Z.pos n) (Z.pos p) ltac:(lia) ltac:(lia) ltac:(fold d; lia))
      as [Hq Hr].
    unfold binary_round_aux, shr_fexp at 1, shr.
    rewrite fexp_eq. fold d.
    replace (Z.max (d + 0 - 53) (-1074) - 0) with (Z.pos n) by lia.
    cbn [shr_record_of_loc]. rewrite iter_pos_nat.
    pose proof (round_shift (Pos.to_nat n) (Z.pos p) ltac:(lia) ltac:(lia)) as Hrs.
    cbv zeta in Hrs. rewrite Hrs, positive_nat_Z. clear Hrs.
    set (m2 := rounded (Z.pos n) (Z.pos p)) in *.
    destruct (shr_fexp_spec m2 (0 + Z.pos n) loc_Exact ltac:(lia)) as (He3 & Hm3 & _).
    rewrite fexp_eq in *.
    destruct (shr_fexp Float.prec Float.emax m2 (0 + Z.pos n) loc_Exact) as [R3 e3].
    simpl in He3, Hm3. cbn [fst snd].
    replace (Float.emax - Float.prec) with 971 by reflexivity.
    destruct (Z.ltb_spec m2 (2 ^ 53)) as [Hlt|Hge]; cbn [fst snd].
    + assert (Hd2 : Zdigits2 m2 = 53) by (apply Zdigits2_unique; lia).
      rewrite Hd2 in *.
      assert (He3n : e3 = Z.pos n) by lia.
      replace (Z.max (0 + Z.pos n) (Z.max (53 + (0 + Z.pos n) - 53) (-1074)) - (0 + Z.pos n))
        with 0 in Hm3 by lia.
      rewrite Z.div_1_r in Hm3. rewrite Hm3.
      destruct m2 as [|q|q] eqn:Em2; try lia.
      destruct (Z.leb_spec e3 971); [|lia].
      apply finite_to_pos; [reflexivity|assumption].
    + assert (Em2 : m2 = 2 ^ 53) by lia.
      assert (Hd2 : Zdigits2 m2 = 54) by (rewrite Em2; reflexivity).
      rewrite Hd2 in *.
      assert (He3n : e3 = Z.pos n + 1) by lia.
      replace (Z.max (0 + Z.pos n) (Z.max (54 + (0 + Z.pos n) - 53) (-1074)) - (0 + Z.pos n))
        with 1 in Hm3 by lia.
      rewrite Em2 in Hm3. change (2 ^ 53 / 2 ^ 1) with (Z.pos 4503599627370496) in Hm3.
      rewrite Hm3.
      destruct (Z.leb_spec e3 971); [|lia].
      apply finite_to_pos; [reflexivity|assumption].
Qed.

(** The conversion is monotone. *)
Lemma nearest_mono (z1 z2 : Z) :
  0 < z1 <= z2 -> normal_le (nearest z1) (nearest z2).
Proof.
  intros Hz.
  destruct (nearest_spec z1 ltac:(lia)) as [Hm1 He1].
  destruct (nearest_spec z2 ltac:(lia)) as [Hm2 He2].
  destruct (Zdigits2_bounds z1 ltac:(lia)) as [Hd10 Hd1].
  destruct (Zdigits2_bounds z2 ltac:(lia)) as [Hd20 Hd2].
  assert (Hdd : Zdigits2 z1 <= Zdigits2 z2).
  { destruct (Z.le_gt_cases (Zdigits2 z1) (Zdigits2 z2)) as [Hok|Hgt]; [assumption|].
    assert (2 ^ Zdigits2 z2 <= 2 ^ (Zdigits2 z1 - 1)) by (apply Z.pow_le_mono_r; lia). lia. }
  unfold normal_le.
  destruct (Z.eq_dec (Zdigits2 z1) (Zdigits2 z2)) as [Heq|Hne]; [|lia].
  clear He1 He2. revert Hm1 Hm2. unfold nearest. rewrite <- Heq.
  set (d := Zdigits2 z1) in *.
  destruct (Z.leb_spec d 53) as [Hle|Hgt]; cbn [fst snd].
  - intros _ _. right. split; [reflexivity|].
    apply Z.mul_le_mono_nonneg_r; [|lia].
    assert (0 < 2 ^ (53 - d)) by (apply pow2_pos; lia). lia.
  - pose proof (rounded_mono (d - 53) z1 z2 ltac:(lia) ltac:(lia)) as Hr.
    destruct (Z.ltb_spec (rounded (d - 53) z1) (2 ^ 53));
      destruct (Z.ltb_spec (rounded (d - 53) z2) (2 ^ 53)); cbn [fst snd];
      intros _ _; lia.
Qed.

(** The double of an integer has the same mantissa and the next
    exponent. *)
Lemma nearest_double (z : Z) :
  0 < z -> nearest (2 * z) = ((nearest z).1, (nearest z).2 + 1).
Proof.
  intros Hz. destruct (Zdigits2_bounds z Hz) as [Hd0 Hd].
  unfold nearest. rewrite (Zdigits2_double z Hz).
  set (d := Zdigits2 z) in *.
  destruct (Z.leb_spec d 53) as [Hle|Hgt]; cbn [fst snd].
  - destruct (Z.leb_spec (d + 1) 53) as [Hle'|Hgt'].
    + f_equal; [|lia].
      replace (53 - d) with (Z.succ (53 - (d + 1))) by lia.
      rewrite Z.pow_succ_r by lia. lia.
    + assert (Ed : d = 53) by lia. rewrite Ed in *.
      replace (53 + 1 - 53) with 1 by lia.
      assert (Hr : rounded 1 (2 * z) = z).
      { unfold rounded, round_up. change (2 ^ (1 - 1)) with 1. change (2 ^ 1) with 2.
        rewrite Z.div_1_r, Z.odd_mul. simpl andb.
        rewrite Z.mul_comm, Z.div_mul by lia. lia. }
      rewrite Hr. destruct (Z.ltb_spec z (2 ^ 53)); [|lia].
      f_equal; simpl; lia.
  - destruct (Z.leb_spec (d + 1) 53); [lia|].
    replace (d + 1 - 53) with (d - 53 + 1) by lia.
    rewrite rounded_double by lia.
    destruct (Z.ltb_spec (rounded (d - 53) z) (2 ^ 53)); cbn [fst snd]; f_equal; lia.
Qed.

(** The product by 2.0 moves the exponent. *)
Lemma mul_two_normal (m : positive) (e : Z) :
  2 ^ 52 <= Z.pos m < 2 ^ 53 -> -1075 <= e <= 970 ->
  Float.mul Float.two (S754_finite false m e) = S754_finite false m (e + 1).
Proof.
  intros Hm He. unfold Float.mul, Float.two, SFmul. simpl xorb.
  replace (Z.pos (4503599627370496 * m)) with (Z.pos m * 2 ^ 52) by lia.
  rewrite round_aux_exact by lia. f_equal. lia.
Qed.

Lemma div_eucl_div_mod (x y : Z) : Z.div_eucl x y = (x / y, x mod y).
Proof. unfold Z.div, Z.modulo. destruct (Z.div_eucl x y). reflexivity. Qed.

Lemma new_location_exact (nb k : Z) :
  new_location nb k <> loc_Exact -> k <> 0.
Proof.
  intros Hl ->. apply Hl. unfold new_location, new_location_even, new_location_odd.
  destruct (Z.even nb); reflexivity.
Qed.

(** The quotient of two mantissas of 53 bits, before rounding. *)
Lemma div_core_spec (m1 m2 : positive) (e1 e2 : Z) :
  2 ^ 52 <= Z.pos m1 < 2 ^ 53 -> 2 ^ 52 <= Z.pos m2 < 2 ^ 53 ->
  -1021 <= e1 - e2 ->
  SFdiv_core_binary Float.prec Float.emax (Z.pos m1) e1 (Z.pos m2) e2 =
    (Z.pos m1 * 2 ^ 53 / Z.pos m2, e1 - e2 - 53,
     new_location (Z.pos m2) ((Z.pos m1 * 2 ^ 53) mod Z.pos m2)).
Proof.
  intros Hm1 Hm2 He. unfold SFdiv_core_binary.
  rewrite (Zdigits2_unique (Z.pos m1) 53), (Zdigits2_unique (Z.pos m2) 53) by lia.
  rewrite fexp_eq.
  replace (Z.min (Z.max (53 + e1 - (53 + e2) - 53) (-1074)) (e1 - e2)) with (e1 - e2 - 53) by lia.
  replace (e1 - e2 - (e1 - e2 - 53)) with 53 by lia.
  rewrite Z.shiftl_mul_pow2 by lia.
  rewrite div_eucl_div_mod. reflexivity.
Qed.

(** The quotient of a binary64 value by itself is 1.0. *)
Lemma div_self (m : positive) (e : Z) :
  2 ^ 52 <= Z.pos m < 2 ^ 53 ->
  Float.div (S754_finite false m e) (S754_finite false m e) = Float.one.
Proof.
  intros Hm. unfold Float.div, SFdiv. rewrite div_core_spec by lia.
  rewrite Z.mul_comm, Z.div_mul, Z.mod_mul by lia.
  replace (new_location (Z.pos m) 0) with loc_Exact
    by (unfold new_location; destruct (Z.even (Z.pos m)); reflexivity).
  replace (e - e - 53) with (-53) by lia. reflexivity.
Qed.

(** The quotient of two binary64 values [x <= y] with mantissas of 53
    bits is at most 1.0: it is zero or a value [m * 2 ^ e] with
    [m * 2 ^ e <= 1]. *)
Lemma div_le_one (m1 m2 : positive) (e1 e2 : Z) :
  2 ^ 52 <= Z.pos m1 < 2 ^ 53 -> 2 ^ 52 <= Z.pos m2 < 2 ^ 53 ->
  normal_le (Z.pos m1, e1) (Z.pos m2, e2) -> -1021 <= e1 - e2 ->
  Float.div (S754_finite false m1 e1) (S754_finite false m2 e2) = Float.zero \/
  exists m e k,
    Float.div (S754_finite false m1 e1) (S754_finite false m2 e2)
      = S754_finite false m e /\
    k <= e /\ k <= -52 /\ Z.pos m * 2 ^ (e - k) <= 2 ^ (- k).
Proof.
  intros Hm1 Hm2 Hle He. unfold normal_le in Hle. simpl in Hle.
  set (t := e2 - e1).
  assert (Ht0 : 0 <= t) by lia.
  assert (Ht : 0 < 2 ^ t) by (apply pow2_pos; lia).
  assert (Hm12 : Z.pos m1 <= Z.pos m2 * 2 ^ t).
  { destruct (Z.eq_dec t 0) as [Et|Et].
    - rewrite Et. simpl. lia.
    - assert (2 ^ 1 <= 2 ^ t) by (apply Z.pow_le_mono_r; lia).
      change (2 ^ 1) with 2 in *. change (2 ^ 53) with (2 ^ 52 * 2) in Hm1. nia. }
  unfold Float.div, SFdiv. rewrite div_core_spec by lia. simpl xorb.
  set (q := Z.pos m1 * 2 ^ 53 / Z.pos m2).
  set (r := (Z.pos m1 * 2 ^ 53) mod Z.pos m2).
  assert (Hdm : Z.pos m1 * 2 ^ 53 = Z.pos m2 * q + r) by (apply Z.div_mod; lia).
  assert (Hr : 0 <= r < Z.pos m2) by (apply Z.mod_pos_bound; lia).
  assert (Hq52 : 2 ^ 52 <= q) by (apply Z.div_le_lower_bound; lia).
  assert (Hpow : 2 ^ (t + 53) = 2 ^ t * 2 ^ 53) by (apply Z.pow_add_r; lia).
  assert (Hqle : q <= 2 ^ (t + 53)) by nia.
  set (k := e1 - e2 - 53).
  assert (Hone : Z.pos 4503599627370496 * 2 ^ (-52 - k) = 2 ^ (t + 53)).
  { change (Z.pos 4503599627370496) with (2 ^ 52).
    rewrite <- Z.pow_add_r by lia. f_equal. lia. }
  destruct (round_aux_le q k (new_location (Z.pos m2) r) 4503599627370496 (-52) k)
    as [Hz|(m & e & Hf & Hek & Hb)]; try lia.
  - reflexivity.
  - simpl. lia.
  - rewrite Z.sub_diag, Z.mul_1_r, Hone. assumption.
  - intros Hl. apply new_location_exact in Hl.
    rewrite Z.sub_diag, Z.mul_1_r, Hone. nia.
  - left. assumption.
  - right. exists m, e, k. split; [assumption|]. split; [assumption|].
    split; [lia|]. rewrite Hone in Hb. replace (- k) with (t + 53) by lia. assumption.
Qed.

(** The product by 100.0 of a value that is at most 1.0 is at most
    100. *)
Lemma mul_hundred_between (x : spec_float) :
  x = Float.zero \/
  (exists m e k, x = S754_finite false m e /\
                 k <= e /\ k <= -52 /\ Z.pos m * 2 ^ (e - k) <= 2 ^ (- k)) ->
  float_between 0 100 (Float.mul x Float.hundred).
Proof.
  intros [->|(mr & er & k & -> & Hke & Hk & Hle)]; [split; reflexivity|].
  unfold Float.mul, Float.hundred, SFmul. simpl xorb.
  assert (Hpk : 0 < 2 ^ (- k)) by (apply pow2_pos; lia).
  assert (Hpe : 0 < 2 ^ (er - k)) by (apply pow2_pos; lia).
  destruct (round_aux_le (Z.pos (mr * 7036874417766400)) (er + -46) loc_Exact
              7036874417766400 (-46) (k - 46))
    as [Hz|(m & e & Hf & Hek & Hb)]; try lia.
  - reflexivity.
  - simpl. lia.
  - replace (er + -46 - (k - 46)) with (er - k) by lia.
    replace (-46 - (k - 46)) with (- k) by lia.
    rewrite Pos2Z.inj_mul. nia.
  - intros Hl. congruence.
  - rewrite Hz. split; reflexivity.
  - rewrite Hf. clear Hf.
    replace (-46 - (k - 46)) with (- k) in Hb by lia.
    change (Z.pos 7036874417766400) with (100 * 2 ^ 46) in Hb.
    unfold float_between, Float.ge_int, Float.le_int.
    destruct (Z.le_gt_cases 0 e) as [He|He].
    + rewrite !compare_int_nonneg by assumption.
      assert (Hp : 0 < 2 ^ e) by (apply pow2_pos; lia).
      replace (e - (k - 46)) with (e + 46 + - k) in Hb by lia.
      rewrite !Z.pow_add_r in Hb by lia.
      assert (H46 : 0 < 2 ^ 46) by (apply pow2_pos; lia).
      assert (Hv : Z.pos m * 2 ^ e <= 100).
      { apply (Z.mul_le_mono_pos_r _ _ (2 ^ 46 * 2 ^ (- k))); nia. }
      destruct (Z.compare_spec (Z.pos m * 2 ^ e) 0);
        destruct (Z.compare_spec (Z.pos m * 2 ^ e) 100); split; try reflexivity; nia.
    + rewrite !compare_int_neg by assumption.
      assert (Hp : 0 < 2 ^ (- e)) by (apply pow2_pos; lia).
      assert (Hpek : 0 < 2 ^ (e - (k - 46))) by (apply pow2_pos; lia).
      assert (Hsplit : 2 ^ 46 * 2 ^ (- k) = 2 ^ (- e) * 2 ^ (e - (k - 46))).
      { rewrite <- !Z.pow_add_r by lia. f_equal. lia. }
      assert (Hv : Z.pos m <= 100 * 2 ^ (- e)).
      { apply (Z.mul_le_mono_pos_r _ _ (2 ^ (e - (k - 46)))); [assumption|]. nia. }
      destruct (Z.compare_spec (Z.pos m) (0 * 2 ^ (- e)));
        destruct (Z.compare_spec (Z.pos m) (100 * 2 ^ (- e))); split; try reflexivity; lia.
Qed.

End FloatFacts.

(** ** The bounds of the score *)

Lemma len_list_ascii_of_string (s : string) :
  SequenceMatcher.len (list_ascii_of_string s) = Z.of_nat (String.length s).
Proof.
  unfold SequenceMatcher.len. f_equal.
  induction s as [|c s IH]; simpl; [reflexivity|]. rewrite IH. reflexivity.
Qed.

Lemma Zdigits2_le (z k : Z) : 0 < z < 2 ^ k -> 0 <= k -> Zdigits2 z <= k.
Proof.
  intros Hz Hk. destruct (FloatFacts.Zdigits2_bounds z ltac:(lia)) as [Hd0 Hd].
  destruct (Z.le_gt_cases (Zdigits2 z) k) as [Hok|Hgt]; [assumption|].
  assert (2 ^ k <= 2 ^ (Zdigits2 z - 1)) by (apply Z.pow_le_mono_r; lia). lia.
Qed.

Lemma score_between (a b : string) :
  Z.of_nat (String.length a) < 2 ^ 63 -> Z.of_nat (String.length b) < 2 ^ 63 ->
  float_between 0 100 (score a b).
Proof.
  intros Hla Hlb. unfold score, SequenceMatcher.ratio, SequenceMatcher.calculate_ratio.
  change (Float.of_int 100) with Float.hundred.
  pose proof (SequenceMatcherFacts.matches_bounds
                (list_ascii_of_string a) (list_ascii_of_string b)) as (HM0 & HMa & HMb).
  rewrite !len_list_ascii_of_string in *.
  set (M := SequenceMatcher.matches (list_ascii_of_string a) (list_ascii_of_string b)) in *.
  set (L := Z.of_nat (String.length a) + Z.of_nat (String.length b)) in *.
  destruct (Z.eqb_spec L 0) as [HL|HL]; [split; reflexivity|].
  apply FloatFacts.mul_hundred_between.
  assert (HL64 : 0 < L < 2 ^ 64) by (change (2 ^ 64) with (2 ^ 63 + 2 ^ 63); lia).
  pose proof (Zdigits2_le L 64 HL64 ltac:(lia)) as HdL.
  rewrite (FloatFacts.of_int_nearest L) by lia.
  destruct (FloatFacts.nearest_spec L ltac:(lia)) as [HmL HeL].
  destruct (Z.eq_dec M 0) as [->|HM]; [left; reflexivity|].
  assert (HM64 : 0 < M < 2 ^ 64) by lia.
  pose proof (Zdigits2_le M 64 HM64 ltac:(lia)) as HdM.
  destruct (FloatFacts.Zdigits2_bounds M ltac:(lia)) as [HdM0 _].
  rewrite (FloatFacts.of_int_nearest M) by lia.
  destruct (FloatFacts.nearest_spec M ltac:(lia)) as [HmM HeM].
  pose proof (FloatFacts.nearest_mono (2 * M) L ltac:(lia)) as Hmono.
  rewrite FloatFacts.nearest_double in Hmono by lia.
  destruct (nearest M) as [m1 e1]. destruct (nearest L) as [m2 e2]. cbn [fst snd] in *.
  rewrite FloatFacts.mul_two_normal by (rewrite ?Z2Pos.id by lia; lia).
  apply FloatFacts.div_le_one; rewrite ?Z2Pos.id by lia; try lia. exact Hmono.
Qed.

Lemma score_self (a : string) :
  a <> ""%string ->
  Z.of_nat (String.length a) < 2 ^ 63 ->
  score a a = Float.hundred.
Proof.
  intros Ha Hlen. unfold score, SequenceMatcher.ratio, SequenceMatcher.calculate_ratio.
  rewrite SelfMatchFacts.matches_self, !len_list_ascii_of_string.
  assert (Hn : 0 < Z.of_nat (String.length a)).
  { destruct a; [congruence|simpl; lia]. }
  set (n := Z.of_nat (String.length a)) in *.
  destruct (Z.eqb_spec (n + n) 0) as [HL|HL]; [lia|].
  replace (n + n) with (2 * n) by lia.
  assert (Hn64 : 0 < n < 2 ^ 64) by (change (2 ^ 64) with (2 ^ 63 + 2 ^ 63); lia).
  assert (H2n : 0 < 2 * n < 2 ^ 64) by (change (2 ^ 64) with (2 ^ 63 + 2 ^ 63); lia).
  pose proof (Zdigits2_le n 64 Hn64 ltac:(lia)) as Hdn.
  pose proof (Zdigits2_le (2 * n) 64 H2n ltac:(lia)) as Hd2n.
  destruct (FloatFacts.Zdigits2_bounds n ltac:(lia)) as [Hdn0 _].
  rewrite (FloatFacts.of_int_nearest n), (FloatFacts.of_int_nearest (2 * n)) by lia.
  rewrite FloatFacts.nearest_double by lia.
  destruct (FloatFacts.nearest_spec n ltac:(lia)) as [Hm He].
  destruct (nearest n) as [m e]. cbn [fst snd] in *.
  rewrite FloatFacts.mul_two_normal by (rewrite ?Z2Pos.id by lia; lia).
  rewrite FloatFacts.div_self by (rewrite ?Z2Pos.id by lia; lia).
  reflexivity.
Qed.

(** C3: for two strings of lengths below [2 ^ 63] (the lengths of the
    strings of Python), the score is between 0 and 100; and the score
    of a string that is not empty with itself is 100. *)
Theorem score_bounds :
  (forall a b : string,
     Z.of_nat (String.length a) < 2 ^ 63 -> Z.of_nat (String.length b) < 2 ^ 63 ->
     float_between 0 100 (score a b)) /\
  (forall a : string,
     a <> ""%string ->
     Z.of_nat (String.length a) < 2 ^ 63 ->
     score a a = Float.hundred).
Proof.
  split; [exact score_between|exact score_self].
Qed.

(** The similarity of every match of the matcher is a percentage. *)
Lemma find_license_plate_errors_between (w t : Z) (records : list detection) (e : error) :
  Forall (fun r : detection => Z.of_nat (String.length (det_plate r)) < 2 ^ 63) records ->
  In e (find_license_plate_errors w t records) ->
  float_between 0 100 (similarity e).
Proof.
  intros Hlen He. rewrite Forall_forall in Hlen.
  apply find_license_plate_errors_in in He as (r1 & r2 & H1 & H2 & ->). simpl.
  apply score_between; apply Hlen, list_elem_of_In; assumption.
Qed.

(** C6: for a match whose similarity is a percentage between 0 and 100,
    the confidence score of its correction is the truncation of the
    similarity to an integer [n] ([n <= similarity < n + 1]), and [n] is
    between 0 and 100; and the similarity of every match that the
    matcher returns, on plates of lengths below [2 ^ 63], is such a
    percentage. *)
Theorem confidence_is_truncated_similarity :
  (forall e : error,
     float_between 0 100 (similarity e) ->
     exists c : correction,
       resolve e = Some c /\
       Float.to_int (similarity e) = Some (confidence_score c) /\
       Float.ge_int (similarity e) (confidence_score c) = true /\
       Float.ge_int (similarity e) (confidence_score c + 1) = false /\
       0 <= confidence_score c <= 100) /\
  (forall (time_window_minutes similarity_threshold : Z)
          (records : list detection) (e : error),
     Forall (fun r : detection => Z.of_nat (String.length (det_plate r)) < 2 ^ 63)
            records ->
     In e (find_license_plate_errors time_window_minutes similarity_threshold records) ->
     float_between 0 100 (similarity e)).
Proof.
  split; [|exact find_license_plate_errors_between].
  intros e Hb. destruct (to_int_between _ Hb) as (n & Hn & Hr & Hge & Hlt).
  unfold resolve. rewrite Hn. simpl. eexists. split; [reflexivity|]. simpl. auto.
Qed.

(** ** The scenarios of the specification and of the library *)

(** Two plates that differ in one character, 20 seconds apart: one
    match of similarity 6/7 of 100 (85.71...), a [char_swap] that keeps
    the first plate, with the confidence 85. *)
Example scenario_char_swap :
  let records := [Detection 1 0 "1234567"; Detection 2 20 "1234568"] in
  find_license_plate_errors 5 70 records =
    [make_error (Detection 1 0 "1234567") (Detection 2 20 "1234568")
       (S754_finite false 6031606643799771 (-46))] /\
  mapM resolve (find_license_plate_errors 5 70 records) =
    Some [ {| original_id := 1; timestamp := 0; original_plate := "1234567";
              corrected_plate := "1234567"; confidence_score := 85;
              correction_kind := char_swap |} ].
Proof. vm_compute. split; reflexivity. Qed.

(** A plate and the same plate without its first character. *)
Example scenario_missing_chars :
  let records := [Detection 1 0 "AB12345"; Detection 2 20 "B12345"] in
  mapM resolve (find_license_plate_errors 5 70 records) =
    Some [ {| original_id := 1; timestamp := 0; original_plate := "AB12345";
              corrected_plate := "AB12345"; confidence_score := 92;
              correction_kind := missing_chars |} ].
Proof. vm_compute. reflexivity. Qed.

(** Two similar plates 10 minutes apart, with a window of 5 minutes. *)
Example scenario_outside_window :
  find_license_plate_errors 5 70
    [Detection 1 0 "1234567"; Detection 2 600 "1234568"] = [].
Proof. vm_compute. reflexivity. Qed.

(** The examples of the documentation of [difflib]. *)
Example difflib_matching_blocks :
  SequenceMatcher.get_matching_blocks
    (list_ascii_of_string "abxcd") (list_ascii_of_string "abcd")
  = [(0, 0, 2); (3, 2, 2); (5, 4, 0)].
Proof. vm_compute. reflexivity. Qed.

Example difflib_find_longest_match :
  let a := list_ascii_of_string " abcd" in
  let b := list_ascii_of_string "abcd abcd" in
  SequenceMatcher.find_longest_match a b (SequenceMatcher.chain_b b) 0 5 0 9 = (0, 4, 5).
Proof. vm_compute. reflexivity. Qed.

(** [SequenceMatcher(None, "abcd", "bcde").ratio()] is 0.75. *)
Example difflib_ratio :
  SequenceMatcher.ratio "abcd" "bcde" = S754_finite false 6755399441055744 (-53).
Proof. vm_compute. reflexivity. Qed.

(** ** The theorems on the records of the specification's scenarios *)

Lemma find_matches_iff_witness :
  let records := [Detection 1 0 "1234567"; Detection 2 20 "1234568";
                  Detection 3 700 "AB12345"; Detection 4 720 "B12345"] in
  sorted_by_time records /\
  find_license_plate_errors 5 70 records = expected_matches 5 70 records.
Proof.
  intros records.
  assert (Hs : sorted_by_time records) by (repeat constructor; vm_compute; discriminate).
  split; [exact Hs|].
  exact (proj1 (find_matches_iff 5 70 records Hs)).
Defined.

Lemma match_invariants_witness :
  let record1 := Detection 1 0 "1234567" in
  let record2 := Detection 2 20 "1234568" in
  let e := make_error record1 record2 (score "1234567" "1234568") in
  sorted_by_time [record1; record2] /\
  In e (find_license_plate_errors 5 70 [record1; record2]) /\
  time1 e <= time2 e /\ plate1 e <> plate2 e /\
  time2 e - time1 e <= timedelta_minutes 5.
Proof.
  intros record1 record2 e.
  assert (Hs : sorted_by_time [record1; record2]) by (repeat constructor; vm_compute; discriminate).
  assert (He : In e (find_license_plate_errors 5 70 [record1; record2]))
    by (vm_compute; left; reflexivity).
  split; [exact Hs|]. split; [exact He|].
  exact (match_invariants 5 70 [record1; record2] e Hs He).
Defined.

Lemma score_bounds_witness :
  float_between 0 100 (score "1234567" "1234568") /\
  score "AB12345" "AB12345" = Float.hundred.
Proof.
  destruct score_bounds as [Hb Hs]. split.
  - apply Hb; vm_compute; reflexivity.
  - apply Hs; [discriminate|vm_compute; reflexivity].
Defined.

Lemma correction_type_by_length_witness :
  let e := make_error (Detection 1 0 "AB12345") (Detection 2 20 "B12345")
             (score "AB12345" "B12345") in
  exists c, resolve e = Some c /\ correction_kind c = missing_chars.
Proof.
  intros e.
  exists {| original_id := 1; timestamp := 0; original_plate := "AB12345";
            corrected_plate := "AB12345"; confidence_score := 92;
            correction_kind := missing_chars |}.
  assert (Hc : resolve e = Some {| original_id := 1; timestamp := 0;
            original_plate := "AB12345"; corrected_plate := "AB12345";
            confidence_score := 92; correction_kind := missing_chars |})
    by (vm_compute; reflexivity).
  split; [exact Hc|].
  apply (proj1 (correction_type_by_length e _ Hc)). vm_compute. lia.
Defined.

Lemma correction_type_never_unknown_witness :
  let e := make_error (Detection 1 0 "1234567") (Detection 2 20 "1234568")
             (score "1234567" "1234568") in
  exists c, resolve e = Some c /\ correction_kind c <> unknown.
Proof.
  intros e.
  assert (Hc : resolve e = Some {| original_id := 1; timestamp := 0;
            original_plate := "1234567"; corrected_plate := "1234567";
            confidence_score := 85; correction_kind := char_swap |})
    by (vm_compute; reflexivity).
  eexists. split; [exact Hc|].
  exact (proj1 (correction_type_never_unknown e _ Hc)).
Defined.

Lemma corrected_plate_not_shorter_witness :
  let e := make_error (Detection 1 0 "B12345") (Detection 2 20 "AB12345")
             (score "B12345" "AB12345") in
  exists c, resolve e = Some c /\ corrected_plate c = "AB12345"%string /\
            (String.length (corrected_plate c) >= 6)%nat.
Proof.
  intros e.
  assert (Hc : resolve e = Some {| original_id := 1; timestamp := 0;
            original_plate := "B12345"; corrected_plate := "AB12345";
            confidence_score := 92; correction_kind := added_chars |})
    by (vm_compute; reflexivity).
  eexists. split; [exact Hc|].
  destruct (corrected_plate_not_shorter e _ Hc) as [Hp Hl].
  split; [exact Hp|exact Hl].
Defined.

Lemma confidence_is_truncated_similarity_witness :
  let records := [Detection 1 0 "1234567"; Detection 2 20 "1234568"] in
  let e := make_error (Detection 1 0 "1234567") (Detection 2 20 "1234568")
             (score "1234567" "1234568") in
  In e (find_license_plate_errors 5 70 records) /\
  float_between 0 100 (similarity e) /\
  exists c, resolve e = Some c /\ 0 <= confidence_score c <= 100.
Proof.
  intros records e.
  destruct confidence_is_truncated_similarity as [Hconf Hsim].
  assert (Hlen : Forall (fun r : detection =>
                           Z.of_nat (String.length (det_plate r)) < 2 ^ 63) records)
    by (repeat constructor; vm_compute; reflexivity).
  assert (He : In e (find_license_plate_errors 5 70 records))
    by (vm_compute; left; reflexivity).
  pose proof (Hsim 5 70 records e Hlen He) as Hb.
  split; [exact He|]. split; [exact Hb|].
  destruct (Hconf e Hb) as (c & Hc & _ & _ & _ & Hr).
  exists c. split; [exact Hc|exact Hr].
Defined.

Lemma update_replaces_all_witness :
  let errors := [make_error (Detection 1 0 "1234567") (Detection 2 20 "1234568")
                   (score "1234567" "1234568")] in
  let stale := {| cp_id := 7;
                  cp_values := {| original_id := 9; timestamp := 3;
                                  original_plate := "ZZ"; corrected_plate := "ZZZ";
                                  confidence_score := 80;
                                  correction_kind := added_chars |} |} in
  let db := {| license_plates := []; corrected_plates := Some [stale] |} in
  exists db1,
    update_license_plates_with_scores errors db = Some db1 /\
    update_license_plates_with_scores errors db1 = Some db1.
Proof.
  intros errors stale db.
  assert (Hu : update_license_plates_with_scores errors db =
               Some {| license_plates := [];
                       corrected_plates := Some [ {| cp_id := 1;
                         cp_values := {| original_id := 1; timestamp := 0;
                                         original_plate := "1234567";
                                         corrected_plate := "1234567";
                                         confidence_score := 85;
                                         correction_kind := char_swap |} |} ] |})
    by (vm_compute; reflexivity).
  eexists. split; [exact Hu|].
  exact (proj2 (proj2 (proj2 (update_replaces_all errors db _ Hu)))).
Defined.

(** * Further properties of the program *)

(** ** The window matcher on records in any order *)

Lemma sublist_flat_map {A B : Type} (f g : A -> list B) (l : list A) :
  (forall x, f x `sublist_of` g x) -> flat_map f l `sublist_of` flat_map g l.
Proof.
  intros Hfg. induction l as [|x l IH]; simpl; [constructor|].
  apply sublist_app; [apply Hfg|exact IH].
Qed.

(** The matches of [record1] are the matches of the candidates that
    qualify, up to the candidate at which the loop breaks. *)
Lemma compare_with_next_sublist (w t : Z) (r1 : detection) (cs : list detection) :
  compare_with_next (timedelta_minutes w) t r1 cs `sublist_of`
    flat_map (fun r2 =>
                if qualifies w t r1 r2
                then [make_error r1 r2 (score (det_plate r1) (det_plate r2))]
                else []) cs.
Proof.
  induction cs as [|r2 cs IH]; simpl; [constructor|].
  destruct (Z.ltb_spec (timedelta_minutes w) (det_time r2 - det_time r1)) as [Hlt|Hge].
  - apply sublist_nil_l.
  - apply sublist_app; [|exact IH].
    unfold qualifies.
    destruct (Z.leb_spec (det_time r2 - det_time r1) (timedelta_minutes w)); [|lia].
    simpl. destruct (bool_decide (det_plate r1 <> det_plate r2)); simpl; [|constructor].
    destruct (Float.ge_int _ _); reflexivity.
Qed.

Lemma find_license_plate_errors_sublist (w t : Z) (records : list detection) :
  find_license_plate_errors w t records `sublist_of` expected_matches w t records.
Proof.
  unfold find_license_plate_errors, expected_matches.
  rewrite concat_imap_seq. apply sublist_flat_map. intros i.
  destruct (records !! i) as [r1|] eqn:E1; [|apply sublist_nil_l].
  etransitivity; [apply compare_with_next_sublist|].
  unfold slice. replace (i + 5 - (i + 1))%nat with 4%nat by lia.
  rewrite slice_lookups, flat_map_flat_map.
  apply sublist_flat_map. intros j.
  destruct (records !! j) as [r2|]; simpl; [|constructor].
  rewrite app_nil_r. reflexivity.
Qed.

(** A match of the matcher is a match of the inner loop of one record. *)
Lemma find_license_plate_errors_elem (w t : Z) (records : list detection) (e : error) :
  In e (find_license_plate_errors w t records) <->
  exists (i : nat) (r1 : detection),
    records !! i = Some r1 /\
    In e (compare_with_next (timedelta_minutes w) t r1 (slice records (i + 1) (i + 5))).
Proof.
  unfold find_license_plate_errors. rewrite concat_imap_seq, in_flat_map. split.
  - intros (i & _ & He). destruct (records !! i) as [r1|] eqn:E1; [|destruct He].
    exists i, r1. auto.
  - intros (i & r1 & E1 & He). exists i. split.
    + apply in_seq. apply lookup_lt_Some in E1. lia.
    + rewrite E1. exact He.
Qed.

Lemma find_license_plate_errors_pair (w t : Z) (records : list detection) (e : error) :
  In e (find_license_plate_errors w t records) ->
  exists (i j : nat) (r1 r2 : detection),
    (i < j <= i + 4)%nat /\
    records !! i = Some r1 /\ records !! j = Some r2 /\
    qualifies w t r1 r2 = true /\
    e = make_error r1 r2 (score (det_plate r1) (det_plate r2)).
Proof.
  intros He. apply elem_of_expected_matches.
  apply list_elem_of_In. eapply elem_of_sublist; [apply list_elem_of_In; exact He|].
  apply find_license_plate_errors_sublist.
Qed.


Lemma compare_with_next_length (tw t : Z) (r1 : detection) (cs : list detection) :
  (length (compare_with_next tw t r1 cs) <= length cs)%nat.
Proof.
  induction cs as [|r2 cs IH]; simpl; [lia|].
  destruct (tw <? det_time r2 - det_time r1); simpl; [lia|].
  rewrite length_app.
  destruct (bool_decide _); simpl; [|lia].
  destruct (Float.ge_int _ _); simpl; lia.
Qed.

Lemma flat_map_length_le {A B : Type} (f : A -> list B) (l : list A) (k : nat) :
  (forall x, In x l -> length (f x) <= k)%nat ->
  (length (flat_map f l) <= k * length l)%nat.
Proof.
  induction l as [|x l IH]; simpl; intros Hf; [lia|].
  rewrite length_app. specialize (Hf x (or_introl eq_refl)) as Hx.
  specialize (IH (fun y Hy => Hf y (or_intror Hy))). lia.
Qed.

(** X2: the matcher returns at most four matches per record, and none for
    the last one: at most [4 * (n - 1)] matches on [n] records. *)
Theorem find_matches_at_most_four_per_record (time_window_minutes similarity_threshold : Z)
    (records : list detection) :
  (length (find_license_plate_errors time_window_minutes similarity_threshold records)
   <= 4 * (length records - 1))%nat.
Proof.
  unfold find_license_plate_errors. rewrite concat_imap_seq.
  destruct (length records) as [|n] eqn:En; [reflexivity|].
  rewrite seq_S, flat_map_app, length_app. simpl.
  rewrite app_nil_r.
  assert (Hlast : length (match records !! n with
                    | Some x => compare_with_next (timedelta_minutes time_window_minutes)
                                  similarity_threshold x (slice records (n + 1) (n + 5))
                    | None => []
                    end) = 0%nat).
  { destruct (records !! n); [|reflexivity].
    unfold slice. rewrite drop_ge by lia. rewrite take_nil. reflexivity. }
  rewrite Hlast.
  pose proof (flat_map_length_le
    (fun i => match records !! i with
              | Some x => compare_with_next (timedelta_minutes time_window_minutes)
                            similarity_threshold x (slice records (i + 1) (i + 5))
              | None => []
              end) (seq 0 n) 4) as Hb.
  rewrite length_seq in Hb. replace (n - 0)%nat with n by lia.
  assert (Hn : (length
     (flat_map
        (fun i : nat =>
         match records !! i with
         | Some x =>
             compare_with_next (timedelta_minutes time_window_minutes) similarity_threshold x
               (slice records (i + 1) (i + 5))
         | None => []
         end) (seq 0 n)) <= 4 * n)%nat).
  { apply Hb. intros i _. destruct (records !! i); simpl; [|lia].
    etransitivity; [apply compare_with_next_length|].
    unfold slice. rewrite length_take. lia. }
  lia.
Qed.

Lemma compare_ge_iff (a b : Z) :
  Some (a ?= b) = Some Gt \/ Some (a ?= b) = Some Eq <-> b <= a.
Proof.
  destruct (Z.compare_spec a b); split; intros; try lia; auto;
    destruct H0; congruence.
Qed.

Lemma compare_le_iff (a b : Z) :
  Some (a ?= b) = Some Lt \/ Some (a ?= b) = Some Eq <-> a <= b.
Proof.
  destruct (Z.compare_spec a b); split; intros; try lia; auto;
    destruct H0; congruence.
Qed.

Lemma ge_int_mono (x : spec_float) (t t' : Z) :
  t <= t' -> Float.ge_int x t' = true -> Float.ge_int x t = true.
Proof.
  intros Ht. unfold Float.ge_int. rewrite !ge_int_spec.
  destruct x as [s|s| |s m e].
  - unfold Float.compare_int. rewrite !compare_ge_iff. lia.
  - simpl. auto.
  - simpl. auto.
  - destruct (Z.le_gt_cases 0 e) as [He|He].
    + rewrite !compare_int_nonneg by assumption. rewrite !compare_ge_iff. lia.
    + rewrite !compare_int_neg by assumption. rewrite !compare_ge_iff.
      assert (Hp : 0 < 2 ^ (- e)) by (apply Z.pow_pos_nonneg; lia). nia.
Qed.

Lemma compare_with_next_threshold (tw t t' : Z) (r1 : detection) (cs : list detection) :
  t <= t' ->
  compare_with_next tw t' r1 cs `sublist_of` compare_with_next tw t r1 cs.
Proof.
  intros Ht. induction cs as [|r2 cs IH]; simpl; [constructor|].
  destruct (tw <? det_time r2 - det_time r1); [constructor|].
  apply sublist_app; [|exact IH].
  destruct (bool_decide _); [|constructor].
  destruct (Float.ge_int _ t') eqn:E'; [|apply sublist_nil_l].
  rewrite (ge_int_mono _ t t' Ht E'). reflexivity.
Qed.

Lemma compare_with_next_window (tw tw' t : Z) (r1 : detection) (cs : list detection) :
  tw <= tw' ->
  compare_with_next tw t r1 cs `sublist_of` compare_with_next tw' t r1 cs.
Proof.
  intros Ht. induction cs as [|r2 cs IH]; simpl; [constructor|].
  destruct (Z.ltb_spec tw (det_time r2 - det_time r1)); [apply sublist_nil_l|].
  destruct (Z.ltb_spec tw' (det_time r2 - det_time r1)); [lia|].
  apply sublist_app; [reflexivity|exact IH].
Qed.

Lemma find_license_plate_errors_sublist_pointwise (w w' t t' : Z) (records : list detection) :
  (forall r1 cs,
     compare_with_next (timedelta_minutes w) t r1 cs `sublist_of`
     compare_with_next (timedelta_minutes w') t' r1 cs) ->
  find_license_plate_errors w t records `sublist_of` find_license_plate_errors w' t' records.
Proof.
  intros Hc. unfold find_license_plate_errors. rewrite !concat_imap_seq.
  apply sublist_flat_map. intros i. destruct (records !! i); [apply Hc|constructor].
Qed.

(** X3: raising the similarity threshold only removes matches: the matches
    at the threshold [t'] are a sublist of the matches at a threshold
    [t <= t'], on the same records and window, in any order. *)
Theorem find_matches_threshold_antitone (time_window_minutes t t' : Z)
    (records : list detection) :
  t <= t' ->
  find_license_plate_errors time_window_minutes t' records
    `sublist_of` find_license_plate_errors time_window_minutes t records.
Proof.
  intros Ht. apply find_license_plate_errors_sublist_pointwise.
  intros r1 cs. apply compare_with_next_threshold. exact Ht.
Qed.

(** X4: widening the time window only adds matches: the matches for the
    window [w] are a sublist of the matches for a window [w' >= w], on
    the same records and threshold, in any order. *)
Theorem find_matches_window_monotone (w w' similarity_threshold : Z)
    (records : list detection) :
  w <= w' ->
  find_license_plate_errors w similarity_threshold records
    `sublist_of` find_license_plate_errors w' similarity_threshold records.
Proof.
  intros Hw. apply find_license_plate_errors_sublist_pointwise.
  intros r1 cs. apply compare_with_next_window. unfold timedelta_minutes. lia.
Qed.

Lemma ge_le_int (x : spec_float) (lo hi : Z) :
  Float.ge_int x lo = true -> Float.le_int x hi = true -> lo <= hi.
Proof.
  unfold Float.ge_int, Float.le_int. rewrite ge_int_spec, le_int_spec.
  destruct x as [s|s| |s m e].
  - unfold Float.compare_int. rewrite compare_ge_iff, compare_le_iff. lia.
  - destruct s; simpl; intros [?|?] [?|?]; congruence.
  - simpl. intros [?|?]; congruence.
  - destruct (Z.le_gt_cases 0 e) as [He|He].
    + rewrite !compare_int_nonneg by assumption.
      rewrite compare_ge_iff, compare_le_iff. lia.
    + rewrite !compare_int_neg by assumption.
      rewrite compare_ge_iff, compare_le_iff.
      assert (Hp : 0 < 2 ^ (- e)) by (apply Z.pow_pos_nonneg; lia). nia.
Qed.

(** X5: with a similarity threshold above 100 the matcher returns no match
    (on plates of lengths below [2 ^ 63]), since no score exceeds 100. *)
Theorem find_matches_threshold_above_100 (time_window_minutes similarity_threshold : Z)
    (records : list detection) :
  Forall (fun r : detection => Z.of_nat (String.length (det_plate r)) < 2 ^ 63) records ->
  100 < similarity_threshold ->
  find_license_plate_errors time_window_minutes similarity_threshold records = [].
Proof.
  intros Hlen Ht.
  destruct (find_license_plate_errors time_window_minutes similarity_threshold records)
    as [|e l] eqn:E; [reflexivity|exfalso].
  assert (He : In e (find_license_plate_errors time_window_minutes similarity_threshold records))
    by (rewrite E; left; reflexivity).
  pose proof (find_license_plate_errors_between _ _ _ _ Hlen He) as [_ Hle].
  apply find_license_plate_errors_pair in He as (i & j & r1 & r2 & _ & _ & _ & Q & ->).
  apply qualifies_true in Q as (_ & _ & Hge). simpl in Hle.
  pose proof (ge_le_int _ _ _ Hge Hle). lia.
Qed.

(** X6: when the ids of the records are pairwise different (they are the
    primary key of [license_plates]), the two ids of every match are
    different: no record is matched with itself. *)
Theorem find_matches_distinct_ids (time_window_minutes similarity_threshold : Z)
    (records : list detection) (e : error) :
  NoDup (map det_id records) ->
  In e (find_license_plate_errors time_window_minutes similarity_threshold records) ->
  id1 e <> id2 e.
Proof.
  intros Hnd He.
  apply find_license_plate_errors_pair in He as (i & j & r1 & r2 & Hij & E1 & E2 & _ & ->).
  simpl. intros Hid.
  assert (Hi : map det_id records !! i = Some (det_id r1))
    by (rewrite list_lookup_fmap, E1; reflexivity).
  assert (Hj : map det_id records !! j = Some (det_id r1))
    by (rewrite list_lookup_fmap, E2, Hid; reflexivity).
  pose proof (NoDup_lookup _ _ _ _ Hnd Hi Hj). lia.
Qed.

(** X7: the [break] of the inner loop: when the record that follows
    [record1] is outside the time window, no match whose first record
    is [record1] is returned, whatever the later records are (the ids of
    the records are pairwise different). *)
Theorem find_matches_break (time_window_minutes similarity_threshold : Z)
    (records : list detection) (i : nat) (record1 record2 : detection) :
  NoDup (map det_id records) ->
  records !! i = Some record1 ->
  records !! (i + 1)%nat = Some record2 ->
  timedelta_minutes time_window_minutes < det_time record2 - det_time record1 ->
  forall e : error,
    In e (find_license_plate_errors time_window_minutes similarity_threshold records) ->
    id1 e <> det_id record1.
Proof.
  intros Hnd E1 E2 Hlt e He Hid.
  apply find_license_plate_errors_elem in He as (i' & r1' & E1' & He).
  pose proof (compare_with_next_in _ _ _ _ _ He) as (r2' & _ & Heq).
  assert (Hi : map det_id records !! i = Some (det_id record1))
    by (rewrite list_lookup_fmap, E1; reflexivity).
  assert (Hi' : map det_id records !! i' = Some (det_id record1))
    by (rewrite list_lookup_fmap, E1', <- Hid, Heq; reflexivity).
  pose proof (NoDup_lookup _ _ _ _ Hnd Hi Hi'). subst i'.
  assert (r1' = record1) by congruence. subst r1'.
  unfold slice in He. rewrite (drop_S _ _ _ E2) in He.
  replace (i + 5 - (i + 1))%nat with 4%nat in He by lia. simpl in He.
  destruct (Z.ltb_spec (timedelta_minutes time_window_minutes)
              (det_time record2 - det_time record1)); [destruct He|lia].
Qed.

(** ** The resolver and the sink behind the matcher *)

(** X8: the stored corrected plate differs from the original plate only
    for the correction type [added_chars], where it is the second plate
    and is longer than the original; for [missing_chars] and
    [char_swap] the corrected plate is the original plate itself. *)
Theorem corrected_plate_changes_only_when_added (e : error) (c : correction) :
  resolve e = Some c ->
  (correction_kind c = added_chars ->
   corrected_plate c = plate2 e /\
   (String.length (original_plate c) < String.length (corrected_plate c))%nat) /\
  (correction_kind c <> added_chars -> corrected_plate c = original_plate c).
Proof.
  intros Hc. apply resolve_Some in Hc as (n & _ & ->). simpl.
  rewrite classify_cases. unfold choose_corrected.
  destruct (Nat.compare_spec (String.length (plate1 e)) (String.length (plate2 e)));
    destruct (Nat.leb_spec (String.length (plate2 e)) (String.length (plate1 e)));
    split; intros; try congruence; try lia; auto.
Qed.

Lemma to_int_ge (x : spec_float) (n t : Z) :
  Float.ge_int x t = true -> Float.to_int x = Some n -> t <= n.
Proof.
  unfold Float.ge_int. rewrite ge_int_spec.
  destruct x as [s|s| |s m e]; try discriminate.
  - unfold Float.compare_int, Float.to_int. rewrite compare_ge_iff.
    intros ? [= <-]. assumption.
  - destruct (Z.le_gt_cases 0 e) as [He|He].
    + rewrite compare_int_nonneg, compare_ge_iff by assumption.
      unfold Float.to_int. intros Hge [= <-].
      replace (match e with Z.neg p => Z.shiftr (Z.pos m) (Z.pos p)
               | _ => Z.shiftl (Z.pos m) e end) with (Z.pos m * 2 ^ e)
        by (destruct e as [|p|p]; try lia; rewrite Z.shiftl_mul_pow2 by lia; reflexivity).
      destruct s; lia.
    + rewrite compare_int_neg, compare_ge_iff by assumption.
      assert (Hp : 0 < 2 ^ (- e)) by (apply Z.pow_pos_nonneg; lia).
      unfold Float.to_int. intros Hge [= <-].
      replace (match e with Z.neg p => Z.shiftr (Z.pos m) (Z.pos p)
               | _ => Z.shiftl (Z.pos m) e end) with (Z.pos m / 2 ^ (- e))
        by (destruct e as [|p|p]; try lia; rewrite Z.shiftr_div_pow2 by lia; reflexivity).
      set (q := 2 ^ (- e)) in *.
      pose proof (Z.mul_div_le (Z.pos m) q Hp).
      pose proof (Z.mul_succ_div_gt (Z.pos m) q Hp).
      destruct s; nia.
Qed.


Lemma numbered_rows_values (cs : list correction) :
  map cp_values (numbered_rows cs) = cs.
Proof.
  unfold numbered_rows. induction cs as [|c cs IH] using rev_ind; [reflexivity|].
  rewrite imap_app, map_app, IH. reflexivity.
Qed.

(** The persistence step succeeds on the matches of the matcher, and
    stores one row per match. *)
Lemma update_find_rows (w t : Z) (records : list detection) (db : database) :
  Forall (fun r : detection => Z.of_nat (String.length (det_plate r)) < 2 ^ 63) records ->
  exists cs : list correction,
    mapM resolve (find_license_plate_errors w t records) = Some cs /\
    update_license_plates_with_scores (find_license_plate_errors w t records) db =
      Some {| license_plates := license_plates db;
              corrected_plates := Some (numbered_rows cs) |} /\
    length (numbered_rows cs) = length (find_license_plate_errors w t records) /\
    Forall (fun row : corrected_plate_row =>
              0 <= confidence_score (cp_values row) <= 100 /\
              t <= confidence_score (cp_values row)) (numbered_rows cs).
Proof.
  intros Hlen. set (errors := find_license_plate_errors w t records).
  assert (Hall : forall e, In e errors ->
            exists c, resolve e = Some c /\ 0 <= confidence_score c <= 100 /\
                      t <= confidence_score c).
  { intros e He.
    pose proof (find_license_plate_errors_between _ _ _ _ Hlen He) as Hb.
    destruct (to_int_between _ Hb) as (n & Hn & Hr & _).
    unfold resolve. rewrite Hn. simpl. eexists. split; [reflexivity|]. simpl.
    split; [exact Hr|].
    apply find_license_plate_errors_pair in He as (i & j & r1 & r2 & _ & _ & _ & Q & ->).
    apply qualifies_true in Q as (_ & _ & Hge). simpl in Hn.
    apply (to_int_ge _ _ _ Hge Hn). }
  destruct (mapM resolve errors) as [cs|] eqn:E.
  - exists cs. rewrite update_spec, E. repeat split.
    + unfold numbered_rows. rewrite length_imap. symmetry. eapply length_mapM. exact E.
    + apply Forall_forall. intros row Hrow.
      assert (Hc : cp_values row ∈ cs).
      { rewrite <- (numbered_rows_values cs). apply list_elem_of_fmap. exists row. auto. }
      apply mapM_Some in E.
      apply list_elem_of_lookup in Hc as (k & Hk).
      destruct (Forall2_lookup_r _ _ _ _ _ E Hk) as (e & He & Hres).
      apply list_elem_of_lookup_2, list_elem_of_In in He.
      destruct (Hall e He) as (c & Hc' & Hb).
      assert (c = cp_values row) by congruence. subst c. exact Hb.
  - exfalso. apply mapM_None in E. apply Exists_exists in E as (e & He & Hn).
    apply list_elem_of_In in He. destruct (Hall e He) as (c & Hc & _). congruence.
Qed.



(** ** The ingestion *)

Lemma foldr_max_ge (x : Z) (l : list Z) :
  x <= foldr Z.max x l /\ Forall (fun y => y <= foldr Z.max x l) l.
Proof.
  induction l as [|y l [IH1 IH2]]; simpl; [split; [lia|constructor]|].
  split; [lia|]. constructor; [lia|].
  eapply Forall_impl; [exact IH2|]. simpl. intros; lia.
Qed.

Lemma next_license_id_above (table : list detection) :
  Forall (fun r : detection => det_id r < next_license_id table) table.
Proof.
  unfold next_license_id. destruct table as [|r table]; simpl; [constructor|].
  destruct (foldr_max_ge (det_id r) (map det_id table)) as [H1 H2].
  constructor; [lia|].
  rewrite Forall_forall in H2. apply Forall_forall. intros r' Hr'.
  assert (det_id r' <= foldr Z.max (det_id r) (map det_id table)); [|lia].
  apply H2. apply list_elem_of_fmap. exists r'. auto.
Qed.

Lemma insert_license_plate_NoDup (table : list detection) (row : csv_row) :
  NoDup (map det_id table) -> NoDup (map det_id (insert_license_plate table row)).
Proof.
  intros Hnd. unfold insert_license_plate. rewrite map_app. simpl.
  apply NoDup_app. split; [exact Hnd|]. split; [|apply NoDup_singleton].
  intros x Hx Hx'. apply list_elem_of_singleton in Hx'. subst x.
  apply list_elem_of_fmap in Hx as (r & Hr & Hin).
  pose proof (next_license_id_above table) as Ha.
  rewrite Forall_forall in Ha. specialize (Ha r Hin). lia.
Qed.

Lemma load_rows_spec (rows : list csv_row) (table : list detection) :
  exists new : list detection,
    fold_left insert_license_plate rows table = table ++ new /\
    map detection_values new = rows.
Proof.
  revert table. induction rows as [|row rows IH]; intros table; simpl.
  - exists []. rewrite app_nil_r. split; reflexivity.
  - destruct (IH (insert_license_plate table row)) as (new & Hf & Hv).
    exists ({| det_id := next_license_id table; det_time := csv_DateTime row;
               det_plate := csv_LicensePlate row |} :: new). split.
    + rewrite Hf. unfold insert_license_plate. rewrite <- app_assoc. reflexivity.
    + simpl. rewrite Hv. destruct row; reflexivity.
Qed.

Lemma load_rows_NoDup (rows : list csv_row) (table : list detection) :
  NoDup (map det_id table) ->
  NoDup (map det_id (fold_left insert_license_plate rows table)).
Proof.
  revert table. induction rows as [|row rows IH]; intros table Hnd; simpl; [exact Hnd|].
  apply IH, insert_license_plate_NoDup, Hnd.
Qed.

Lemma load_rows_values (rows : list csv_row) (table : list detection) :
  map detection_values (fold_left insert_license_plate rows table) =
    map detection_values table ++ rows.
Proof.
  destruct (load_rows_spec rows table) as (new & -> & Hv).
  rewrite map_app, Hv. reflexivity.
Qed.

(** X12: [load_csv_to_db] appends: the rows that the table held stay in
    place, one row per CSV row follows them, in the order of the file
    and with the values of the file, and [corrected_plates] is
    untouched. *)
Theorem load_csv_to_db_appends (rows : list csv_row) (db : database) :
  exists new : list detection,
    license_plates (load_csv_to_db rows db) = license_plates db ++ new /\
    map detection_values new = rows /\
    corrected_plates (load_csv_to_db rows db) = corrected_plates db.
Proof.
  destruct (load_rows_spec rows (license_plates db)) as (new & Hf & Hv).
  exists new. repeat split; assumption.
Qed.

(** X13: [load_csv_to_db] keeps the ids of [license_plates] pairwise
    different. *)
Theorem load_csv_to_db_unique_ids (rows : list csv_row) (db : database) :
  NoDup (map det_id (license_plates db)) ->
  NoDup (map det_id (license_plates (load_csv_to_db rows db))).
Proof.
  intros Hnd. apply load_rows_NoDup, Hnd.
Qed.

(** X14: [create_table] never empties [license_plates], so the ingestion
    accumulates: after [create_table] and [load_csv_to_db] the table
    holds its former rows followed by the rows of the file, and running
    the two steps again on the same file stores every row of the file
    a second time. *)
Theorem ingestion_accumulates (rows : list csv_row) (db : database) :
  let run := fun db : database => load_csv_to_db rows (create_table db) in
  map detection_values (license_plates (run db)) =
    map detection_values (license_plates db) ++ rows /\
  map detection_values (license_plates (run (run db))) =
    map detection_values (license_plates db) ++ rows ++ rows.
Proof.
  cbv zeta. unfold load_csv_to_db, create_table. cbn [license_plates corrected_plates].
  rewrite !load_rows_values, <- app_assoc. split; reflexivity.
Qed.

Lemma mapM_resolve_elem (errors : list error) (cs : list correction) (c : correction) :
  mapM resolve errors = Some cs -> c ∈ cs ->
  exists e : error, In e errors /\ resolve e = Some c.
Proof.
  intros Hm Hc. apply mapM_Some in Hm.
  apply list_elem_of_lookup in Hc as (k & Hk).
  destruct (Forall2_lookup_r _ _ _ _ _ Hm Hk) as (e & He & Hres).
  exists e. split; [|exact Hres].
  apply list_elem_of_In. eapply list_elem_of_lookup_2. exact He.
Qed.

(** X15: the main block after [create_csv], on any result [records] of the
    query (plates of lengths below [2 ^ 63]): it succeeds, and
    [corrected_plates] then holds exactly the corrections of the
    specification's matches of [records] at window 5 and threshold 70,
    numbered from 1 (no row when there is no match); every confidence
    score is between 70 and 100, and the [original_id], [timestamp] and
    [original_plate] of every correction are those of a row of
    [license_plates]. *)
Theorem main_block_corrections (rows : list csv_row) (records : list detection)
    (db : database) :
  fetched (load_csv_to_db rows (create_table db)) records ->
  Forall (fun r : detection => Z.of_nat (String.length (det_plate r)) < 2 ^ 63) records ->
  exists (db2 : database) (cs : list correction),
    main_block rows records db = Some db2 /\
    license_plates db2 = license_plates (load_csv_to_db rows (create_table db)) /\
    mapM resolve (expected_matches 5 70 records) = Some cs /\
    corrected_plates db2 = Some (numbered_rows cs) /\
    Forall (fun c : correction =>
              70 <= confidence_score c <= 100 /\
              exists r : detection,
                In r (license_plates db2) /\
                det_id r = original_id c /\
                det_time r = timestamp c /\
                det_plate r = original_plate c) cs.
Proof.
  intros [Hp Hs] Hlen. unfold main_block, find_and_update.
  set (db1 := load_csv_to_db rows (create_table db)) in *.
  destruct (update_find_rows 5 70 records db1 Hlen) as (cs & Hm & Hu & _ & Hf).
  assert (Hcs : Forall (fun c : correction =>
              70 <= confidence_score c <= 100 /\
              exists r : detection,
                In r (license_plates db1) /\
                det_id r = original_id c /\
                det_time r = timestamp c /\
                det_plate r = original_plate c) cs).
  { apply Forall_forall. intros c Hc. split.
    - rewrite <- (numbered_rows_values cs) in Hc.
      apply list_elem_of_fmap in Hc as (row & -> & Hrow).
      rewrite Forall_forall in Hf. specialize (Hf row Hrow). lia.
    - destruct (mapM_resolve_elem _ _ _ Hm Hc) as (e & He & Hres).
      apply find_license_plate_errors_in in He as (r1 & r2 & H1 & _ & ->).
      assert (Hin : In r1 (license_plates db1)).
      { apply list_elem_of_In. rewrite <- Hp. apply list_elem_of_In. exact H1. }
      apply resolve_Some in Hres as (n & _ & ->).
      exists r1. split; [exact Hin|]. repeat split. }
  rewrite (find_license_plate_errors_expected 5 70 records Hs) in *.
  destruct (expected_matches 5 70 records) as [|e errors] eqn:E.
  - injection Hm as <-. exists db1, []. repeat split. constructor.
  - eexists _, cs. split; [exact Hu|]. repeat split; assumption.
Qed.

(** ** Python strings *)

Lemma length_list_ascii_of_string (s : string) :
  length (list_ascii_of_string s) = String.length s.
Proof. induction s as [|c s IH]; simpl; [reflexivity|]. rewrite IH. reflexivity. Qed.

Lemma list_ascii_of_string_app (s1 s2 : string) :
  list_ascii_of_string (s1 +:+ s2) = list_ascii_of_string s1 ++ list_ascii_of_string s2.
Proof. induction s1 as [|c s1 IH]; simpl; [reflexivity|]. rewrite IH. reflexivity. Qed.

Lemma get_list_ascii_of_string (n : nat) (s : string) :
  String.get n s = list_ascii_of_string s !! n.
Proof.
  revert n. induction s as [|c s IH]; intros [|n]; simpl; try reflexivity. apply IH.
Qed.

Lemma list_ascii_of_string_inj (s1 s2 : string) :
  list_ascii_of_string s1 = list_ascii_of_string s2 -> s1 = s2.
Proof.
  intros Hl. rewrite <- (string_of_list_ascii_of_string s1),
    <- (string_of_list_ascii_of_string s2), Hl. reflexivity.
Qed.

(** ** The generator of the test data *)

Module CsvGeneratorFacts.
Import CsvGenerator.

Lemma replacements_lookup (c new : ascii) :
  replacements !! c = Some new ->
  new <> c /\ new ∈ list_ascii_of_string characters.
Proof.
  intros Hl. apply elem_of_list_to_map_2 in Hl.
  repeat (apply elem_of_cons in Hl as [Hl|Hl];
          [injection Hl as -> ->; split; [discriminate|vm_compute; set_solver]|]).
  apply elem_of_nil in Hl. destruct Hl.
Qed.

Lemma possible_chars_from_elem (i p : nat) (l : list ascii) :
  p ∈ possible_chars_from i l ->
  exists c, (i <= p)%nat /\ l !! (p - i)%nat = Some c /\ is_Some (replacements !! c).
Proof.
  revert i. induction l as [|c l IH]; intros i; simpl; [intros Hp; inversion Hp|].
  intros Hp.
  assert (Hrec : p ∈ possible_chars_from (S i) l ->
            exists c0, (i <= p)%nat /\ (c :: l) !! (p - i)%nat = Some c0 /\
                       is_Some (replacements !! c0)).
  { intros Hp'. destruct (IH _ Hp') as (c0 & Hi & Hl & Hr).
    exists c0. split; [lia|]. split; [|exact Hr].
    replace (p - i)%nat with (S (p - S i)) by lia. exact Hl. }
  destruct (bool_decide (is_Some (replacements !! c))) eqn:E.
  - apply elem_of_cons in Hp as [->|Hp]; [|auto].
    exists c. rewrite Nat.sub_diag. apply bool_decide_eq_true in E. auto.
  - auto.
Qed.

Lemma possible_chars_from_nil (i : nat) (l : list ascii) :
  possible_chars_from i l = [] ->
  Forall (fun c => replacements !! c = None) l.
Proof.
  revert i. induction l as [|c l IH]; intros i; simpl; [constructor|].
  destruct (bool_decide (is_Some (replacements !! c))) eqn:E; [discriminate|].
  intros Hn. constructor; [|eapply IH; exact Hn].
  apply bool_decide_eq_false in E. apply eq_None_not_Some. exact E.
Qed.

(** The error version of a valid draw, on the lists of characters:
    one character deleted, one character replaced, or, for a swap on a
    plate without a character to replace, the base plate. *)
Lemma error_plate_valid (d : draw) :
  valid_draw d = true ->
  let l := list_ascii_of_string (base_plate d) in
  length l = 7%nat /\
  Forall (fun c => c ∈ list_ascii_of_string characters) l /\
  exists e : string,
    error_plate d = Some e /\
    match error_type_drawn d with
    | remove =>
        (pos d < 7)%nat /\ list_ascii_of_string e = delete (pos d) l
    | swap =>
        (possible_chars (base_plate d) = [] /\ e = base_plate d) \/
        (exists c new,
           possible_chars (base_plate d) <> [] /\
           l !! pos d = Some c /\ replacements !! c = Some new /\
           list_ascii_of_string e = <[pos d := new]> l)
    end.
Proof.
  intros Hv l. unfold valid_draw in Hv. rewrite !andb_true_iff in Hv.
  destruct Hv as [[Hlen Hchars] Hpos].
  apply Nat.eqb_eq in Hlen. rewrite <- length_list_ascii_of_string in Hlen. fold l in Hlen.
  split; [exact Hlen|]. split.
  { apply Forall_forall. intros c Hc. rewrite forallb_forall in Hchars.
    apply list_elem_of_In, Hchars in Hc. apply bool_decide_eq_true in Hc. exact Hc. }
  unfold error_plate. destruct (error_type_drawn d).
  - apply orb_true_iff in Hpos as [Hp|Hp]; apply bool_decide_eq_true in Hp.
    + rewrite Hp. exists (base_plate d). split; [reflexivity|]. left. auto.
    + destruct (possible_chars_from_elem _ _ _ Hp) as (c & _ & Hc & [new Hnew]).
      rewrite Nat.sub_0_r in Hc.
      destruct (possible_chars (base_plate d)) as [|p ps] eqn:Ep; [inversion Hp|].
      rewrite get_list_ascii_of_string. fold l. fold l in Hc. rewrite Hc. simpl. rewrite Hnew. simpl.
      eexists. split; [reflexivity|]. right. exists c, new.
      split; [discriminate|]. repeat split; try assumption.
      rewrite !list_ascii_of_string_app. unfold str_take, str_drop.
      rewrite !list_ascii_of_string_of_list_ascii. fold l. simpl.
      rewrite Nat.add_1_r. symmetry. apply insert_take_drop.
      apply lookup_lt_Some in Hc. exact Hc.
  - apply Nat.ltb_lt in Hpos. rewrite <- length_list_ascii_of_string in Hpos.
    fold l in Hpos. eexists. split; [reflexivity|]. split; [lia|].
    rewrite list_ascii_of_string_app. unfold str_take, str_drop.
    rewrite !list_ascii_of_string_of_list_ascii. fold l.
    rewrite Nat.add_1_r. symmetry. apply delete_take_drop.
Qed.

Lemma write_pairs_spec (draws : nat -> draw) (len a : nat) (s : Z) (rows0 : list csv_row) :
  (forall k, valid_draw (draws k) = true) ->
  exists rows : list csv_row,
    write_pairs (s, rows0) draws (seq a len) =
      Some (s + 80 * Z.of_nat len, rows0 ++ rows) /\
    length rows = (2 * len)%nat /\
    forall k : nat, (k < len)%nat ->
      exists e : string,
        error_plate (draws (a + k)%nat) = Some e /\
        rows !! (2 * k)%nat =
          Some {| csv_DateTime := s + 80 * Z.of_nat k;
                  csv_LicensePlate := base_plate (draws (a + k)%nat) |} /\
        rows !! (2 * k + 1)%nat =
          Some {| csv_DateTime := s + 80 * Z.of_nat k + 20; csv_LicensePlate := e |}.
Proof.
  intros Hv. revert a s rows0. induction len as [|len IH]; intros a s rows0.
  - exists []. simpl. rewrite app_nil_r, Z.add_0_r. repeat split. intros k Hk. lia.
  - cbn [seq write_pairs]. unfold write_pair.
    destruct (error_plate_valid (draws a) (Hv a)) as (_ & _ & e0 & He0 & _).
    rewrite He0. cbn [mbind option_bind].
    destruct (IH (S a) (s + 20 + 60)
                ((rows0 ++ [ {| csv_DateTime := s; csv_LicensePlate := base_plate (draws a) |} ])
                 ++ [ {| csv_DateTime := s + 20; csv_LicensePlate := e0 |} ]))
      as (rows & Hw & Hl & Hk).
    exists ({| csv_DateTime := s; csv_LicensePlate := base_plate (draws a) |}
            :: {| csv_DateTime := s + 20; csv_LicensePlate := e0 |} :: rows).
    split; [|split].
    + rewrite Hw. f_equal. f_equal; [lia|]. rewrite <- !app_assoc. reflexivity.
    + simpl. lia.
    + intros [|k] Hlt.
      * exists e0. rewrite Nat.add_0_r. split; [exact He0|].
        simpl. rewrite Z.add_0_r. split; reflexivity.
      * destruct (Hk k ltac:(lia)) as (e & He & H1 & H2).
        exists e. replace (a + S k)%nat with (S a + k)%nat by lia.
        split; [exact He|].
        replace (2 * S k)%nat with (S (S (2 * k))) by lia.
        replace (S (S (2 * k)) + 1)%nat with (S (S (2 * k + 1))) by lia.
        simpl. simpl in H1, H2. rewrite H1, H2.
        split; do 2 f_equal; lia.
Qed.

Lemma create_csv_spec (num_records start_time : Z) (draws : nat -> draw) :
  (forall k, valid_draw (draws k) = true) ->
  exists rows : list csv_row,
    create_csv num_records start_time draws = Some rows /\
    length rows = (2 * Z.to_nat (num_records / 2))%nat /\
    forall k : nat, (k < Z.to_nat (num_records / 2))%nat ->
      exists e : string,
        error_plate (draws k) = Some e /\
        rows !! (2 * k)%nat =
          Some {| csv_DateTime := start_time + 80 * Z.of_nat k;
                  csv_LicensePlate := base_plate (draws k) |} /\
        rows !! (2 * k + 1)%nat =
          Some {| csv_DateTime := start_time + 80 * Z.of_nat k + 20;
                  csv_LicensePlate := e |}.
Proof.
  intros Hv. unfold create_csv.
  destruct (write_pairs_spec draws (Z.to_nat (num_records / 2)) 0 start_time [] Hv)
    as (rows & Hw & Hl & Hk).
  exists rows. rewrite Hw. simpl. repeat split; assumption.
Qed.

(** X16: [create_csv] writes [2 * (num_records // 2)] data rows: for an odd
    [num_records] one row less than the number it announces. *)
Theorem create_csv_row_count (num_records start_time : Z) (draws : nat -> draw) :
  (forall k, valid_draw (draws k) = true) ->
  0 <= num_records ->
  exists rows : list csv_row,
    create_csv num_records start_time draws = Some rows /\
    Z.of_nat (length rows) = num_records - num_records mod 2.
Proof.
  intros Hv Hn. destruct (create_csv_spec num_records start_time draws Hv)
    as (rows & Hc & Hl & _).
  exists rows. split; [exact Hc|]. rewrite Hl.
  pose proof (Z.div_mod num_records 2 ltac:(lia)).
  assert (0 <= num_records / 2) by (apply Z.div_pos; lia).
  lia.
Qed.

(** X17: the layout of the file of [create_csv]: the pair [k] (for
    [2 * k + 1 < num_records]) is the row [2 * k], with the base plate of
    the draw [k] at [start_time + 80 * k] seconds, and the row
    [2 * k + 1], with its error version 20 seconds later. *)
Theorem create_csv_pairs (num_records start_time : Z) (draws : nat -> draw) :
  (forall k, valid_draw (draws k) = true) ->
  exists rows : list csv_row,
    create_csv num_records start_time draws = Some rows /\
    forall k : nat, 2 * Z.of_nat k + 1 < num_records ->
      exists e : string,
        error_plate (draws k) = Some e /\
        rows !! (2 * k)%nat =
          Some {| csv_DateTime := start_time + 80 * Z.of_nat k;
                  csv_LicensePlate := base_plate (draws k) |} /\
        rows !! (2 * k + 1)%nat =
          Some {| csv_DateTime := start_time + 80 * Z.of_nat k + 20;
                  csv_LicensePlate := e |}.
Proof.
  intros Hv. destruct (create_csv_spec num_records start_time draws Hv)
    as (rows & Hc & _ & Hk).
  exists rows. split; [exact Hc|]. intros k Hlt. apply Hk.
  assert (Z.of_nat k + 1 <= num_records / 2) by (apply Z.div_le_lower_bound; lia). lia.
Qed.

Lemma create_csv_row (num_records start_time : Z) (draws : nat -> draw)
    (rows : list csv_row) (i : nat) (r : csv_row) :
  (forall k, valid_draw (draws k) = true) ->
  create_csv num_records start_time draws = Some rows ->
  rows !! i = Some r ->
  exists (k : nat) (e : string),
    error_plate (draws k) = Some e /\
    ((i = (2 * k)%nat /\
      r = {| csv_DateTime := start_time + 80 * Z.of_nat k;
             csv_LicensePlate := base_plate (draws k) |}) \/
     (i = (2 * k + 1)%nat /\
      r = {| csv_DateTime := start_time + 80 * Z.of_nat k + 20;
             csv_LicensePlate := e |})).
Proof.
  intros Hv Hc Hi.
  destruct (create_csv_spec num_records start_time draws Hv) as (rows' & Hc' & Hl & Hk).
  assert (rows' = rows) by congruence. subst rows'.
  apply lookup_lt_Some in Hi as Hlt. rewrite Hl in Hlt.
  pose proof (Nat.div_mod_eq i 2) as Hd.
  pose proof (Nat.mod_upper_bound i 2 ltac:(lia)) as Hm.
  destruct (Hk (i / 2)%nat ltac:(lia)) as (e & He & H0 & H1).
  exists (i / 2)%nat, e. split; [exact He|].
  destruct (i mod 2)%nat as [|[|m]] eqn:Em; [| |lia].
  - left. split; [lia|]. replace (2 * (i / 2))%nat with i in H0 by lia. congruence.
  - right. split; [lia|]. replace (2 * (i / 2) + 1)%nat with i in H1 by lia. congruence.
Qed.

Lemma create_csv_row_times (num_records start_time : Z) (draws : nat -> draw)
    (rows : list csv_row) (i j : nat) (r1 r2 : csv_row) :
  (forall k, valid_draw (draws k) = true) ->
  create_csv num_records start_time draws = Some rows ->
  (i < j)%nat -> rows !! i = Some r1 -> rows !! j = Some r2 ->
  csv_DateTime r1 + 20 <= csv_DateTime r2.
Proof.
  intros Hv Hc Hij H1 H2.
  destruct (create_csv_row _ _ _ _ _ _ Hv Hc H1) as (k1 & e1 & _ & [[-> ->]|[-> ->]]);
    destruct (create_csv_row _ _ _ _ _ _ Hv Hc H2) as (k2 & e2 & _ & [[-> ->]|[-> ->]]);
    simpl; lia.
Qed.

(** X18: the timestamps of the rows of [create_csv] increase strictly, by
    at least 20 seconds from a row to any later row. *)
Theorem create_csv_times_increase (num_records start_time : Z) (draws : nat -> draw)
    (rows : list csv_row) :
  (forall k, valid_draw (draws k) = true) ->
  create_csv num_records start_time draws = Some rows ->
  forall (i j : nat) (r1 r2 : csv_row),
    (i < j)%nat -> rows !! i = Some r1 -> rows !! j = Some r2 ->
    csv_DateTime r1 + 20 <= csv_DateTime r2.
Proof.
  intros Hv Hc i j r1 r2. apply (create_csv_row_times _ _ _ _ _ _ _ _ Hv Hc).
Qed.

Lemma error_plate_shape (d : draw) (e : string) :
  valid_draw d = true ->
  error_plate d = Some e ->
  (String.length e = 6%nat \/ String.length e = 7%nat) /\
  Forall (fun c => c ∈ list_ascii_of_string characters) (list_ascii_of_string e).
Proof.
  intros Hv He.
  destruct (error_plate_valid d Hv) as (Hlen & Hchars & e' & He' & Hshape).
  assert (e' = e) by congruence. subst e'.
  rewrite <- length_list_ascii_of_string.
  destruct (error_type_drawn d).
  - destruct Hshape as [[_ ->]|(c & new & _ & Hc & Hnew & ->)].
    + split; [right; exact Hlen|exact Hchars].
    + split; [right; rewrite length_insert; exact Hlen|].
      apply Forall_insert; [exact Hchars|].
      apply (replacements_lookup c new Hnew).
  - destruct Hshape as [Hpos ->]. split.
    + left. rewrite length_delete by (apply lookup_lt_is_Some; lia). lia.
    + apply Forall_delete. exact Hchars.
Qed.

(** X19: the error version of a [remove] draw is the base plate without
    the character at the drawn position: it has 6 characters, so the
    resolver classifies the pair (base plate first) as [missing_chars]
    and keeps the base plate as the corrected plate. *)
Theorem remove_error_plate (d : draw) :
  valid_draw d = true ->
  error_type_drawn d = remove ->
  exists e : string,
    error_plate d = Some e /\
    list_ascii_of_string e = delete (pos d) (list_ascii_of_string (base_plate d)) /\
    String.length e = 6%nat /\
    classify (base_plate d) e = missing_chars /\
    choose_corrected (base_plate d) e = base_plate d.
Proof.
  intros Hv Ht.
  destruct (error_plate_valid d Hv) as (Hlen & _ & e & He & Hshape).
  rewrite Ht in Hshape. destruct Hshape as [Hpos Hl].
  assert (He6 : String.length e = 6%nat).
  { rewrite <- length_list_ascii_of_string, Hl.
    rewrite length_delete by (apply lookup_lt_is_Some; lia). lia. }
  rewrite length_list_ascii_of_string in Hlen.
  exists e. repeat split; try assumption.
  - unfold classify. rewrite He6, Hlen. reflexivity.
  - unfold choose_corrected. rewrite He6, Hlen. reflexivity.
Qed.

(** X20: the error version of a [swap] draw has the 7 characters of the
    base plate, so the resolver classifies the pair as [char_swap] and
    keeps the base plate; it is the base plate itself when no character
    of the plate has a replacement, and otherwise differs from the base
    plate at the drawn position only, where it holds the replacement,
    which is never the replaced character. *)
Theorem swap_error_plate (d : draw) :
  valid_draw d = true ->
  error_type_drawn d = swap ->
  exists e : string,
    error_plate d = Some e /\
    classify (base_plate d) e = char_swap /\
    choose_corrected (base_plate d) e = base_plate d /\
    (possible_chars (base_plate d) = [] -> e = base_plate d) /\
    (possible_chars (base_plate d) <> [] ->
     exists c new : ascii,
       String.get (pos d) (base_plate d) = Some c /\
       replacements !! c = Some new /\
       String.get (pos d) e = Some new /\
       new <> c /\
       forall k : nat, k <> pos d -> String.get k e = String.get k (base_plate d)).
Proof.
  intros Hv Ht.
  destruct (error_plate_valid d Hv) as (Hlen & _ & e & He & Hshape).
  rewrite Ht in Hshape.
  assert (He7 : String.length e = 7%nat).
  { rewrite <- length_list_ascii_of_string.
    destruct Hshape as [[_ ->]|(c & new & _ & _ & _ & ->)];
      rewrite ?length_insert; exact Hlen. }
  rewrite length_list_ascii_of_string in Hlen.
  exists e. split; [exact He|]. split; [|split; [|split]].
  - unfold classify. rewrite He7, Hlen. reflexivity.
  - unfold choose_corrected. rewrite He7, Hlen. reflexivity.
  - intros Hnil. destruct Hshape as [[_ ->]|(c & new & Hne & _)]; [reflexivity|].
    contradiction.
  - intros Hne. destruct Hshape as [[Hnil _]|(c & new & _ & Hc & Hnew & Hl)];
      [contradiction|].
    exists c, new. rewrite !get_list_ascii_of_string, Hl.
    split; [exact Hc|]. split; [exact Hnew|]. split; [|split].
    + apply list_lookup_insert_eq. apply lookup_lt_Some in Hc. exact Hc.
    + apply (replacements_lookup c new Hnew).
    + intros k Hk. rewrite !get_list_ascii_of_string, Hl.
      apply list_lookup_insert_ne. auto.
Qed.

(** X21: every plate that [create_csv] writes has 6 or 7 characters, all of
    the 34 characters of the alphabet. *)
Theorem create_csv_plates (num_records start_time : Z) (draws : nat -> draw)
    (rows : list csv_row) :
  (forall k, valid_draw (draws k) = true) ->
  create_csv num_records start_time draws = Some rows ->
  Forall (fun r : csv_row =>
            (String.length (csv_LicensePlate r) = 6%nat \/
             String.length (csv_LicensePlate r) = 7%nat) /\
            Forall (fun c => c ∈ list_ascii_of_string characters)
                   (list_ascii_of_string (csv_LicensePlate r))) rows.
Proof.
  intros Hv Hc. apply Forall_lookup. intros i r Hi.
  destruct (create_csv_row _ _ _ _ _ _ Hv Hc Hi) as (k & e & He & [[_ ->]|[_ ->]]); simpl.
  - destruct (error_plate_valid (draws k) (Hv k)) as (Hlen & Hchars & _).
    rewrite length_list_ascii_of_string in Hlen. split; [right; exact Hlen|exact Hchars].
  - apply (error_plate_shape (draws k) e (Hv k) He).
Qed.

Lemma StronglySorted_lookup_intro {A : Type} (R : A -> A -> Prop) (l : list A) :
  (forall (i j : nat) (x y : A),
     (i < j)%nat -> l !! i = Some x -> l !! j = Some y -> R x y) ->
  StronglySorted R l.
Proof.
  induction l as [|x l IH]; intros HR; constructor.
  - apply IH. intros i j y z Hij Hi Hj. apply (HR (S i) (S j)); [lia|assumption..].
  - apply Forall_lookup. intros j y Hj. apply (HR 0%nat (S j)); [lia|reflexivity|exact Hj].
Qed.

(** X22: on a database without detections, after [create_table] and
    [load_csv_to_db] of a file of [create_csv], the table holds the rows
    of the file, and the query [ORDER BY DateTime] has one result only:
    the rows of the table in the order of the file. *)
Theorem generated_records_fetch (num_records start_time : Z) (draws : nat -> draw)
    (rows : list csv_row) (db : database) :
  (forall k, valid_draw (draws k) = true) ->
  create_csv num_records start_time draws = Some rows ->
  license_plates db = [] ->
  let db1 := load_csv_to_db rows (create_table db) in
  map detection_values (license_plates db1) = rows /\
  forall records : list detection,
    fetched db1 records <-> records = license_plates db1.
Proof.
  intros Hv Hc Hdb db1.
  assert (Hrows : map detection_values (license_plates db1) = rows).
  { unfold db1, load_csv_to_db, create_table. cbn [license_plates].
    rewrite load_rows_values, Hdb. reflexivity. }
  split; [exact Hrows|].
  set (table := license_plates db1) in *.
  assert (Ht : forall (i j : nat) (x y : detection),
            (i < j)%nat -> table !! i = Some x -> table !! j = Some y ->
            det_time x < det_time y).
  { intros i j x y Hij Hi Hj.
    assert (H1 : rows !! i = Some (detection_values x))
      by (rewrite <- Hrows, list_lookup_fmap, Hi; reflexivity).
    assert (H2 : rows !! j = Some (detection_values y))
      by (rewrite <- Hrows, list_lookup_fmap, Hj; reflexivity).
    pose proof (create_csv_row_times _ _ _ _ _ _ _ _ Hv Hc Hij H1 H2) as Hlt.
    simpl in Hlt. lia. }
  assert (Hs : sorted_by_time table).
  { apply StronglySorted_lookup_intro. intros i j x y Hij Hi Hj.
    pose proof (Ht i j x y Hij Hi Hj). lia. }
  intros records. split.
  - intros [Hp Hr]. unfold fetched in *.
    apply (StronglySorted_unique_strong
             (fun r1 r2 : detection => det_time r1 <= det_time r2)); try assumption.
    intros x1 x2 H1 H2 H12 H21.
    rewrite Hp in H1. fold table in H1.
    apply list_elem_of_lookup in H1 as (i1 & H1).
    apply list_elem_of_lookup in H2 as (i2 & H2).
    destruct (Nat.lt_trichotomy i1 i2) as [Hlt|[->|Hlt]].
    + pose proof (Ht _ _ _ _ Hlt H1 H2). lia.
    + congruence.
    + pose proof (Ht _ _ _ _ Hlt H2 H1). lia.
  - intros ->. split; [reflexivity|exact Hs].
Qed.

Lemma generated_record_times (num_records start_time : Z) (draws : nat -> draw)
    (rows : list csv_row) (records : list detection) (i j : nat) (r1 r2 : detection) :
  (forall k, valid_draw (draws k) = true) ->
  create_csv num_records start_time draws = Some rows ->
  map detection_values records = rows ->
  (i < j)%nat -> records !! i = Some r1 -> records !! j = Some r2 ->
  det_time r1 + 20 <= det_time r2 /\
  ((j <= i + 4)%nat -> det_time r2 - det_time r1 <= 160).
Proof.
  intros Hv Hc Hrows Hij E1 E2.
  assert (H1 : rows !! i = Some (detection_values r1))
    by (rewrite <- Hrows, list_lookup_fmap, E1; reflexivity).
  assert (H2 : rows !! j = Some (detection_values r2))
    by (rewrite <- Hrows, list_lookup_fmap, E2; reflexivity).
  destruct (create_csv_row _ _ _ _ _ _ Hv Hc H1) as (k1 & e1 & _ & [[-> Hr1]|[-> Hr1]]);
    destruct (create_csv_row _ _ _ _ _ _ Hv Hc H2) as (k2 & e2 & _ & [[-> Hr2]|[-> Hr2]]);
    apply (f_equal csv_DateTime) in Hr1, Hr2; simpl in Hr1, Hr2; lia.
Qed.

(** X23: on records that hold the rows of a file of [create_csv], with a
    window of at least 3 minutes the time test never excludes a pair:
    the matches are exactly the matches of the pairs of a record and of
    one of the four records after it whose plates differ and whose score
    is at least the threshold. *)
Theorem generated_records_all_compared (num_records start_time : Z)
    (draws : nat -> draw) (rows : list csv_row) (records : list detection)
    (time_window_minutes similarity_threshold : Z) :
  (forall k, valid_draw (draws k) = true) ->
  create_csv num_records start_time draws = Some rows ->
  map detection_values records = rows ->
  3 <= time_window_minutes ->
  forall e : error,
    In e (find_license_plate_errors time_window_minutes similarity_threshold records) <->
    exists (i j : nat) (record1 record2 : detection),
      (i < j <= i + 4)%nat /\
      records !! i = Some record1 /\ records !! j = Some record2 /\
      det_plate record1 <> det_plate record2 /\
      Float.ge_int (score (det_plate record1) (det_plate record2)) similarity_threshold = true /\
      e = make_error record1 record2 (score (det_plate record1) (det_plate record2)).
Proof.
  intros Hv Hc Hrows Hw e.
  assert (Hs : sorted_by_time records).
  { apply StronglySorted_lookup_intro. intros i j x y Hij Hi Hj.
    destruct (generated_record_times _ _ _ _ _ _ _ _ _ Hv Hc Hrows Hij Hi Hj). lia. }
  rewrite find_license_plate_errors_expected by assumption.
  rewrite elem_of_expected_matches. split.
  - intros (i & j & r1 & r2 & Hij & E1 & E2 & Q & ->).
    apply qualifies_true in Q as (? & ? & ?). exists i, j, r1, r2. auto 10.
  - intros (i & j & r1 & r2 & Hij & E1 & E2 & Hp & Hge & ->).
    exists i, j, r1, r2. rewrite qualifies_true.
    destruct (generated_record_times _ _ _ _ _ _ _ _ _ Hv Hc Hrows (proj1 Hij) E1 E2)
      as [_ Hgap].
    specialize (Hgap (proj2 Hij)). unfold timedelta_minutes.
    repeat split; auto; lia.
Qed.

Lemma create_csv_row_count_witness :
  let draws := fun _ : nat =>
    {| base_plate := "1234567"; error_type_drawn := remove; pos := 0 |} in
  exists rows : list csv_row,
    create_csv 5 0 draws = Some rows /\ Z.of_nat (length rows) = 5 - 5 mod 2.
Proof.
  intros draws. apply (create_csv_row_count 5 0 draws); [|lia].
  intros k. vm_compute. reflexivity.
Defined.

Lemma create_csv_pairs_witness :
  let draws := fun _ : nat =>
    {| base_plate := "1234567"; error_type_drawn := remove; pos := 0 |} in
  exists rows : list csv_row,
    create_csv 4 0 draws = Some rows /\
    rows !! 2%nat = Some {| csv_DateTime := 80; csv_LicensePlate := "1234567" |}.
Proof.
  intros draws.
  destruct (create_csv_pairs 4 0 draws ltac:(intros k; vm_compute; reflexivity))
    as (rows & Hc & Hk).
  exists rows. split; [exact Hc|].
  destruct (Hk 1%nat ltac:(lia)) as (e & _ & H0 & _). exact H0.
Defined.

Lemma create_csv_times_increase_witness :
  let draws := fun _ : nat =>
    {| base_plate := "1234567"; error_type_drawn := remove; pos := 0 |} in
  let rows := [ {| csv_DateTime := 0; csv_LicensePlate := "1234567" |};
                {| csv_DateTime := 20; csv_LicensePlate := "234567" |} ] in
  create_csv 2 0 draws = Some rows /\ (0 + 20 <= 20).
Proof.
  intros draws rows.
  assert (Hc : create_csv 2 0 draws = Some rows) by (vm_compute; reflexivity).
  split; [exact Hc|].
  exact (create_csv_times_increase 2 0 draws rows
           ltac:(intros k; vm_compute; reflexivity) Hc 0%nat 1%nat _ _
           ltac:(lia) eq_refl eq_refl).
Defined.

Lemma remove_error_plate_witness :
  let d := {| base_plate := "1234567"; error_type_drawn := remove; pos := 2 |} in
  exists e : string,
    error_plate d = Some e /\ String.length e = 6%nat /\
    classify (base_plate d) e = missing_chars.
Proof.
  intros d.
  destruct (remove_error_plate d ltac:(vm_compute; reflexivity) eq_refl)
    as (e & He & _ & Hl & Hc & _).
  exists e. repeat split; assumption.
Defined.

Lemma swap_error_plate_witness :
  let d := {| base_plate := "1234567"; error_type_drawn := swap; pos := 4 |} in
  exists e : string,
    error_plate d = Some e /\ classify (base_plate d) e = char_swap.
Proof.
  intros d.
  destruct (swap_error_plate d ltac:(vm_compute; reflexivity) eq_refl)
    as (e & He & Hc & _).
  exists e. split; assumption.
Defined.

Lemma create_csv_plates_witness :
  let draws := fun _ : nat =>
    {| base_plate := "1234567"; error_type_drawn := remove; pos := 0 |} in
  let rows := [ {| csv_DateTime := 0; csv_LicensePlate := "1234567" |};
                {| csv_DateTime := 20; csv_LicensePlate := "234567" |} ] in
  create_csv 2 0 draws = Some rows /\
  Forall (fun r : csv_row =>
            (String.length (csv_LicensePlate r) = 6%nat \/
             String.length (csv_LicensePlate r) = 7%nat) /\
            Forall (fun c => c ∈ list_ascii_of_string characters)
                   (list_ascii_of_string (csv_LicensePlate r))) rows.
Proof.
  intros draws rows.
  assert (Hc : create_csv 2 0 draws = Some rows) by (vm_compute; reflexivity).
  split; [exact Hc|].
  exact (create_csv_plates 2 0 draws rows ltac:(intros k; vm_compute; reflexivity) Hc).
Defined.

Lemma generated_records_fetch_witness :
  let draws := fun _ : nat =>
    {| base_plate := "1234567"; error_type_drawn := remove; pos := 0 |} in
  let rows := [ {| csv_DateTime := 0; csv_LicensePlate := "1234567" |};
                {| csv_DateTime := 20; csv_LicensePlate := "234567" |} ] in
  let db := {| license_plates := []; corrected_plates := None |} in
  create_csv 2 0 draws = Some rows /\
  map detection_values (license_plates (load_csv_to_db rows (create_table db))) = rows.
Proof.
  intros draws rows db.
  assert (Hc : create_csv 2 0 draws = Some rows) by (vm_compute; reflexivity).
  split; [exact Hc|].
  exact (proj1 (generated_records_fetch 2 0 draws rows db
                  ltac:(intros k; vm_compute; reflexivity) Hc eq_refl)).
Defined.

Lemma generated_records_all_compared_witness :
  let draws := fun _ : nat =>
    {| base_plate := "1234567"; error_type_drawn := remove; pos := 0 |} in
  let rows := [ {| csv_DateTime := 0; csv_LicensePlate := "1234567" |};
                {| csv_DateTime := 20; csv_LicensePlate := "234567" |} ] in
  let records := [Detection 1 0 "1234567"; Detection 2 20 "234567"] in
  let e := make_error (Detection 1 0 "1234567") (Detection 2 20 "234567")
             (score "1234567" "234567") in
  create_csv 2 0 draws = Some rows /\
  In e (find_license_plate_errors 5 70 records).
Proof.
  intros draws rows records e.
  assert (Hc : create_csv 2 0 draws = Some rows) by (vm_compute; reflexivity).
  split; [exact Hc|].
  apply (generated_records_all_compared 2 0 draws rows records 5 70
           ltac:(intros k; vm_compute; reflexivity) Hc eq_refl ltac:(lia) e).
  exists 0%nat, 1%nat, (Detection 1 0 "1234567"), (Detection 2 20 "234567").
  split; [lia|]. split; [reflexivity|]. split; [reflexivity|].
  split; [discriminate|]. split; [vm_compute; reflexivity|reflexivity].
Defined.

End CsvGeneratorFacts.

(** ** The sequence matcher: the blocks match *)

Module MatchingBlockFacts.
Import SequenceMatcher SequenceMatcherFacts.

Section Blocks.

Context {A : Type} `{Countable A}.
Variables (a b : list A) (b2j : gmap A (list Z)).
Hypothesis b2j_sound :
  forall x js j, b2j !! x = Some js -> In j js -> 0 <= j /\ b !! Z.to_nat j = Some x.

Lemma block_matches_cell (i j : Z) (x : A) :
  0 <= i -> 0 <= j -> a !! Z.to_nat i = Some x -> b !! Z.to_nat j = Some x ->
  forall k0 : Z,
    (k0 = 0 \/ (1 <= k0 /\ block_matches a b (i - k0, j - 1 - k0 + 1, k0))) ->
    block_matches a b (i - (k0 + 1) + 1, j - (k0 + 1) + 1, k0 + 1).
Proof.
  intros Hi Hj Ha Hb k0 Hk0.
  apply lookup_lt_Some in Ha as Hla. apply lookup_lt_Some in Hb as Hlb.
  unfold block_matches in *. cbn [fst snd] in *.
  destruct Hk0 as [->|(Hk1 & P1 & P2 & P3 & P4 & P5 & P6)].
  - repeat split; try lia. intros t Ht. replace t with 0 by lia.
    replace (i - (0 + 1) + 1 + 0) with i by lia.
    replace (j - (0 + 1) + 1 + 0) with j by lia. congruence.
  - repeat split; try lia. intros t Ht.
    destruct (Z.eq_dec t k0) as [->|Hne].
    + replace (i - (k0 + 1) + 1 + k0) with i by lia.
      replace (j - (k0 + 1) + 1 + k0) with j by lia. congruence.
    + specialize (P6 t ltac:(lia)).
      replace (i - (k0 + 1) + 1 + t) with (i - k0 + t) by lia.
      replace (j - (k0 + 1) + 1 + t) with (j - 1 - k0 + 1 + t) by lia. exact P6.
Qed.

Lemma scan_row_matches (blo bhi i : Z) (x : A) (j2len : gmap Z Z) (js : list Z) :
  0 <= i -> a !! Z.to_nat i = Some x ->
  (forall j, In j js -> 0 <= j /\ b !! Z.to_nat j = Some x) ->
  row_matches a b i j2len ->
  forall (newj2len : gmap Z Z) (best : block),
    row_matches a b (i + 1) newj2len -> block_matches a b best ->
    row_matches a b (i + 1) (scan_row blo bhi i j2len js newj2len best).1 /\
    block_matches a b (scan_row blo bhi i j2len js newj2len best).2.
Proof.
  intros Hi Ha Hjs Hrow. induction js as [|j js IH]; intros newj2len best Hnew Hbest;
    simpl; [split; assumption|].
  specialize (IH (fun j' Hj' => Hjs j' (or_intror Hj'))).
  destruct (Hjs j (or_introl eq_refl)) as [Hj Hb].
  destruct (j <? blo); [apply IH; assumption|].
  destruct (bhi <=? j); [split; assumption|].
  set (k0 := default 0 (j2len !! (j - 1))).
  assert (Hk0 : k0 = 0 \/ (1 <= k0 /\ block_matches a b (i - k0, j - 1 - k0 + 1, k0))).
  { unfold k0. destruct (j2len !! (j - 1)) as [k|] eqn:E; simpl; [|left; reflexivity].
    right. apply (Hrow _ _ E). }
  pose proof (block_matches_cell i j x Hi Hj Ha Hb k0 Hk0) as Hcell.
  assert (Hk : 1 <= k0 + 1).
  { destruct Hk0 as [->|[? _]]; lia. }
  apply IH.
  - intros j' k' Hl. destruct (decide (j' = j)) as [->|Hne].
    + rewrite lookup_insert_eq in Hl. injection Hl as <-. split; [exact Hk|].
      replace (i + 1 - (k0 + 1)) with (i - (k0 + 1) + 1) by lia. exact Hcell.
    + rewrite lookup_insert_ne in Hl by congruence. apply (Hnew _ _ Hl).
  - destruct (block_size best <? k0 + 1); assumption.
Qed.

Lemma row_matches_empty (i : Z) : row_matches a b i ∅.
Proof. intros j k Hl. rewrite lookup_empty in Hl. congruence. Qed.

Lemma scan_step_matches (blo bhi i : Z) (st : gmap Z Z * block) :
  0 <= i -> row_matches a b i st.1 -> block_matches a b st.2 ->
  row_matches a b (i + 1) (scan_step a b2j blo bhi st i).1 /\
  block_matches a b (scan_step a b2j blo bhi st i).2.
Proof.
  destruct st as [j2len best]. simpl. intros Hi Hrow Hbest.
  unfold getitem. destruct (a !! Z.to_nat i) as [x|] eqn:Ea; simpl;
    [|split; [apply row_matches_empty|assumption]].
  apply (scan_row_matches blo bhi i x); try assumption.
  - intros j Hj. destruct (b2j !! x) as [js|] eqn:E; simpl in Hj; [|destruct Hj].
    apply (b2j_sound x js j E Hj).
  - apply row_matches_empty.
Qed.

Lemma scan_fold_matches (blo bhi : Z) (n : nat) :
  forall (i : Z) (st : gmap Z Z * block),
    0 <= i -> row_matches a b i st.1 -> block_matches a b st.2 ->
    block_matches a b
      (fold_left (scan_step a b2j blo bhi) (seqZ i (Z.of_nat n)) st).2.
Proof.
  induction n as [|n IH]; intros i st Hi Hrow Hbest; [exact Hbest|].
  rewrite seqZ_cons by lia. simpl fold_left.
  destruct (scan_step_matches blo bhi i st Hi Hrow Hbest) as [Hrow' Hbest'].
  replace (Z.pred (Z.of_nat (S n))) with (Z.of_nat n) by lia.
  replace (Z.succ i) with (i + 1) by lia.
  apply IH; [lia|assumption..].
Qed.

Lemma extend_left_matches (alo blo : Z) (n : nat) (best : block) :
  0 <= alo -> 0 <= blo -> block_matches a b best ->
  block_matches a b (extend_left n a b alo blo best).
Proof.
  intros Halo Hblo. revert best. induction n as [|n IH]; intros [[i j] k] Hbest;
    simpl; [exact Hbest|].
  destruct (Z.ltb_spec alo i); simpl; [|exact Hbest].
  destruct (Z.ltb_spec blo j); simpl; [|exact Hbest].
  destruct (bool_decide _) eqn:E; [|exact Hbest].
  apply bool_decide_eq_true in E. unfold getitem in E.
  apply IH. unfold block_matches in *. cbn [fst snd] in *.
  destruct Hbest as (P1 & P2 & P3 & P4 & P5 & P6).
  repeat split; try lia. intros t Ht.
  destruct (Z.eq_dec t 0) as [->|Hne].
  - rewrite !Z.add_0_r. exact E.
  - specialize (P6 (t - 1) ltac:(lia)).
    replace (i - 1 + t) with (i + (t - 1)) by lia.
    replace (j - 1 + t) with (j + (t - 1)) by lia. exact P6.
Qed.

Lemma extend_right_matches (ahi bhi : Z) (n : nat) (best : block) :
  ahi <= len a -> bhi <= len b -> block_matches a b best ->
  block_matches a b (extend_right n a b ahi bhi best).
Proof.
  unfold len. intros Hahi Hbhi. revert best.
  induction n as [|n IH]; intros [[i j] k] Hbest; simpl; [exact Hbest|].
  destruct (Z.ltb_spec (i + k) ahi); simpl; [|exact Hbest].
  destruct (Z.ltb_spec (j + k) bhi); simpl; [|exact Hbest].
  destruct (bool_decide _) eqn:E; [|exact Hbest].
  apply bool_decide_eq_true in E. unfold getitem in E.
  apply IH. unfold block_matches in *. cbn [fst snd] in *.
  destruct Hbest as (P1 & P2 & P3 & P4 & P5 & P6).
  repeat split; try lia. intros t Ht.
  destruct (Z.eq_dec t k) as [->|Hne]; [exact E|].
  apply P6. lia.
Qed.

Lemma find_longest_match_matches (alo ahi blo bhi : Z) :
  range_in a b (alo, ahi, blo, bhi) ->
  block_matches a b (find_longest_match a b b2j alo ahi blo bhi).
Proof.
  intros (Ha & Hla & Hb & Hlb). unfold find_longest_match.
  pose proof (scan_fold_matches blo bhi (Z.to_nat (ahi - alo)) alo (∅, (alo, blo, 0))
                ltac:(lia) (row_matches_empty alo)) as Hfold.
  rewrite Z2Nat.id in Hfold by lia.
  destruct (fold_left _ _ _) as [j2len best1]. simpl in Hfold.
  apply extend_right_matches; unfold len; try lia.
  apply extend_left_matches; try lia.
  apply Hfold. unfold block_matches. cbn [fst snd]. repeat split; try lia.
Qed.

Lemma blocks_loop_matches (n : nat) :
  forall (queue : list range) (blocks : list block),
    Forall (range_in a b) queue -> Forall (block_matches a b) blocks ->
    Forall (block_matches a b) (blocks_loop n a b b2j queue blocks).2.
Proof.
  induction n as [|n IH]; intros queue blocks Hq Hb.
  - destruct queue; exact Hb.
  - destruct queue as [|[[[alo ahi] blo] bhi] queue]; [exact Hb|].
    inversion Hq as [|? ? Hr Hq']; subst.
    pose proof (find_longest_match_matches alo ahi blo bhi Hr) as Hm.
    simpl in Hr. destruct Hr as (Ha & Hla & Hbl & Hlb).
    pose proof (find_longest_match_ok a b b2j alo ahi blo bhi ltac:(lia) ltac:(lia)) as Hok.
    simpl. destruct (find_longest_match a b b2j alo ahi blo bhi) as [[i j] k].
    unfold best_ok in Hok. cbn [fst snd] in Hok.
    destruct (k =? 0); [apply IH; assumption|].
    apply IH.
    + destruct (Z.ltb_spec alo i), (Z.ltb_spec blo j),
        (Z.ltb_spec (i + k) ahi), (Z.ltb_spec (j + k) bhi); simpl;
        repeat (constructor; [simpl; lia|]); assumption.
    + apply Forall_app. split; [exact Hb|]. constructor; [exact Hm|constructor].
Qed.

Lemma insert_block_matches (x : block) (l : list block) :
  block_matches a b x -> Forall (block_matches a b) l ->
  Forall (block_matches a b) (insert_block x l).
Proof.
  intros Hx. induction l as [|y l IH]; intros Hl; simpl.
  - constructor; [exact Hx|constructor].
  - destruct (block_leb x y); [constructor; assumption|].
    inversion Hl; subst. constructor; [assumption|apply IH; assumption].
Qed.

Lemma sort_blocks_matches (l : list block) :
  Forall (block_matches a b) l -> Forall (block_matches a b) (sort_blocks l).
Proof.
  induction l as [|x l IH]; intros Hl; simpl; [constructor|].
  inversion Hl; subst. apply insert_block_matches; [assumption|apply IH; assumption].
Qed.

Lemma merge_fold_matches (l : list block) :
  forall st : block * list block,
    block_matches a b st.1 -> Forall (block_matches a b) st.2 ->
    Forall (block_matches a b) l ->
    block_matches a b (fold_left merge_step l st).1 /\
    Forall (block_matches a b) (fold_left merge_step l st).2.
Proof.
  induction l as [|[[i2 j2] k2] l IH]; intros [[[i1 j1] k1] na] Hc Hna Hl; simpl;
    [split; assumption|].
  inversion Hl as [|? ? Hx Hl']; subst. simpl in Hc, Hna.
  destruct (Z.eqb_spec (i1 + k1) i2) as [Ei|Ei]; simpl.
  - destruct (Z.eqb_spec (j1 + k1) j2) as [Ej|Ej]; simpl.
    + apply IH; simpl; try assumption.
      unfold block_matches in *. cbn [fst snd] in *.
      destruct Hc as (C1 & C2 & C3 & C4 & C5 & C6).
      destruct Hx as (X1 & X2 & X3 & X4 & X5 & X6).
      repeat split; try lia. intros t Ht.
      destruct (Z.lt_ge_cases t k1) as [Hlt|Hge]; [apply C6; lia|].
      specialize (X6 (t - k1) ltac:(lia)).
      replace (i1 + t) with (i2 + (t - k1)) by lia.
      replace (j1 + t) with (j2 + (t - k1)) by lia. exact X6.
    + apply IH; simpl; try assumption.
      destruct (k1 =? 0); [assumption|].
      apply Forall_app. split; [assumption|]. constructor; [assumption|constructor].
  - apply IH; simpl; try assumption.
    destruct (k1 =? 0); [assumption|].
    apply Forall_app. split; [assumption|]. constructor; [assumption|constructor].
Qed.

Lemma merge_adjacent_matches (l : list block) :
  Forall (block_matches a b) l ->
  Forall (block_matches a b) (merge_adjacent (len a) (len b) l).
Proof.
  intros Hl. unfold merge_adjacent.
  assert (H0 : block_matches a b (0, 0, 0)).
  { unfold block_matches. cbn [fst snd]. repeat split; try lia. }
  destruct (merge_fold_matches l ((0, 0, 0), []) H0 ltac:(constructor) Hl) as [Hc Hna].
  destruct (fold_left merge_step l _) as [[[i1 j1] k1] na]. simpl in Hc, Hna.
  apply Forall_app. split.
  - destruct (k1 =? 0); [assumption|].
    apply Forall_app. split; [assumption|]. constructor; [assumption|constructor].
  - constructor; [|constructor].
    unfold block_matches, len. cbn [fst snd]. repeat split; try lia.
Qed.

End Blocks.

Section MatchingBlocks.

Context {A : Type} `{Countable A}.

Lemma chain_b_sound (b : list A) (x : A) (js : list Z) (j : Z) :
  chain_b b !! x = Some js -> In j js -> 0 <= j /\ b !! Z.to_nat j = Some x.
Proof.
  intros Hx Hj. apply SelfMatchFacts.chain_b_lookup in Hx. subst js.
  apply SelfMatchFacts.positions_from_bounds in Hj as [Hb Hl].
  rewrite Z.sub_0_r in Hl. split; [lia|exact Hl].
Qed.

Lemma get_matching_blocks_match (a b : list A) :
  Forall (block_matches a b) (get_matching_blocks a b).
Proof.
  unfold get_matching_blocks.
  pose proof (blocks_loop_matches a b (chain_b b) (chain_b_sound b)
                (Z.to_nat (2 * len a + 1)) [(0, len a, 0, len b)] []) as Hl.
  destruct (blocks_loop _ a b (chain_b b) _ _) as [queue blocks]. simpl in Hl.
  apply merge_adjacent_matches, sort_blocks_matches, Hl; [|constructor].
  constructor; [|constructor]. unfold range_in, len. lia.
Qed.

End MatchingBlocks.

End MatchingBlockFacts.

(** X24: every block [(i, j, k)] of the matching blocks of the sequence
    matcher lies inside both sequences and matches element by element:
    [a[i + t] = b[j + t]] for [0 <= t < k]. *)
Theorem matching_blocks_match {A : Type} `{Countable A} (a b : list A) (i j k : Z) :
  In (i, j, k) (SequenceMatcher.get_matching_blocks a b) ->
  0 <= i /\ 0 <= j /\ 0 <= k /\
  i + k <= SequenceMatcher.len a /\ j + k <= SequenceMatcher.len b /\
  forall t : Z, 0 <= t < k ->
    exists x : A,
      SequenceMatcher.getitem a (i + t) = Some x /\
      SequenceMatcher.getitem b (j + t) = Some x.
Proof.
  intros Hin.
  pose proof (MatchingBlockFacts.get_matching_blocks_match a b) as Hall.
  rewrite Forall_forall in Hall. apply list_elem_of_In, Hall in Hin.
  destruct Hin as (P1 & P2 & P3 & P4 & P5 & P6). cbn [fst snd] in *.
  unfold SequenceMatcher.len, SequenceMatcher.getitem.
  repeat split; try assumption. intros t Ht.
  destruct (a !! Z.to_nat (i + t)) as [x|] eqn:Ea.
  - exists x. split; [reflexivity|]. rewrite <- (P6 t Ht). exact Ea.
  - apply lookup_ge_None in Ea. lia.
Qed.

Lemma sum_sizes_zero (blocks : list SequenceMatcher.block) :
  Forall (fun x : SequenceMatcher.block => SequenceMatcher.block_size x = 0) blocks ->
  SequenceMatcher.sum_sizes blocks = 0.
Proof.
  unfold SequenceMatcher.sum_sizes.
  induction 1 as [|x l Hx _ IH]; simpl; [reflexivity|]. rewrite Hx, IH. reflexivity.
Qed.

Lemma matches_disjoint {A : Type} `{Countable A} (a b : list A) :
  (forall x, In x a -> ~ In x b) -> SequenceMatcher.matches a b = 0.
Proof.
  intros Hd. unfold SequenceMatcher.matches. apply sum_sizes_zero.
  pose proof (MatchingBlockFacts.get_matching_blocks_match a b) as Hall.
  eapply Forall_impl; [exact Hall|]. intros [[i j] k] (P1 & P2 & P3 & P4 & P5 & P6).
  cbn [fst snd] in *. unfold SequenceMatcher.block_size. cbn [snd].
  destruct (Z.eq_dec k 0) as [->|Hk]; [reflexivity|exfalso].
  specialize (P6 0 ltac:(lia)). rewrite !Z.add_0_r in P6.
  destruct (a !! Z.to_nat i) as [x|] eqn:Ea.
  - apply (Hd x).
    + apply list_elem_of_In. eapply list_elem_of_lookup_2. exact Ea.
    + apply list_elem_of_In. eapply list_elem_of_lookup_2. symmetry. exact P6.
  - apply lookup_ge_None in Ea. lia.
Qed.

(** X25: two plates without a common character, not both empty (lengths
    below [2 ^ 63]), have the score 0.0; the matcher never matches them
    at a positive threshold. *)
Theorem score_no_common_character (a b : string) :
  Z.of_nat (String.length a) < 2 ^ 63 -> Z.of_nat (String.length b) < 2 ^ 63 ->
  (a <> ""%string \/ b <> ""%string) ->
  (forall c : ascii, In c (list_ascii_of_string a) -> ~ In c (list_ascii_of_string b)) ->
  score a b = Float.zero /\
  forall similarity_threshold : Z,
    0 < similarity_threshold -> Float.ge_int (score a b) similarity_threshold = false.
Proof.
  intros Hla Hlb Hne Hd.
  assert (Hs : score a b = Float.zero).
  { unfold score, SequenceMatcher.ratio, SequenceMatcher.calculate_ratio.
    rewrite (matches_disjoint _ _ Hd), !len_list_ascii_of_string.
    set (L := Z.of_nat (String.length a) + Z.of_nat (String.length b)).
    assert (HL : 0 < L).
    { unfold L. destruct Hne as [Hne|Hne]; [destruct a|destruct b];
        try congruence; simpl String.length; lia. }
    destruct (Z.eqb_spec L 0) as [HL0|HL0]; [lia|].
    assert (HL64 : 0 < L < 2 ^ 64)
      by (unfold L; change (2 ^ 64) with (2 ^ 63 + 2 ^ 63); lia).
    pose proof (Zdigits2_le L 64 HL64 ltac:(lia)) as HdL.
    rewrite (FloatFacts.of_int_nearest L) by lia. reflexivity. }
  split; [exact Hs|]. intros t Ht. rewrite Hs.
  unfold Float.ge_int, Float.zero, Float.compare_int.
  destruct (Z.compare_spec 0 t); try reflexivity; lia.
Qed.

(** ** The generator of one plate *)

Lemma remove_positions_filter (positions : list nat) (i n : nat) :
  NoDup positions ->
  length (List.filter (fun p => (i <=? p)%nat && (p <? i + S n)%nat) positions) =
    ((if bool_decide (i ∈ positions) then 1 else 0) +
     length (List.filter (fun p => (S i <=? p)%nat && (p <? S i + n)%nat) positions))%nat.
Proof.
  set (f := fun p => (i <=? p)%nat && (p <? i + S n)%nat).
  set (g := fun p => (S i <=? p)%nat && (p <? S i + n)%nat).
  assert (Hfg : forall p, p <> i -> f p = g p).
  { intros p Hp. unfold f, g.
    destruct (Nat.leb_spec i p), (Nat.ltb_spec p (i + S n)),
      (Nat.leb_spec (S i) p), (Nat.ltb_spec p (S i + n)); try reflexivity; lia. }
  assert (Hfi : f i = true).
  { unfold f. destruct (Nat.leb_spec i i), (Nat.ltb_spec i (i + S n)); try reflexivity; lia. }
  assert (Hgi : g i = false).
  { unfold g. destruct (Nat.leb_spec (S i) i); [lia|reflexivity]. }
  induction 1 as [|p ps Hp Hnd IH]; [reflexivity|]. cbn [List.filter].
  destruct (decide (p = i)) as [->|Hne].
  - rewrite Hfi, Hgi. rewrite bool_decide_eq_true_2 by left. cbn [length].
    rewrite IH. rewrite bool_decide_eq_false_2 by exact Hp. lia.
  - rewrite (Hfg p Hne).
    assert (Hi : bool_decide (i ∈ p :: ps) = bool_decide (i ∈ ps)).
    { apply bool_decide_ext. rewrite elem_of_cons. intuition congruence. }
    rewrite Hi. destruct (g p); cbn [length]; rewrite IH; lia.
Qed.

Lemma remove_positions_length (positions : list nat) (l : list ascii) (i : nat) :
  NoDup positions ->
  (length (RandomPlate.remove_positions i positions l) +
   length (List.filter (fun p => (i <=? p)%nat && (p <? i + length l)%nat) positions)
   = length l)%nat.
Proof.
  intros Hnd. revert i. induction l as [|c l IH]; intros i;
    cbn [RandomPlate.remove_positions length].
  - assert (Hf : List.filter (fun p => (i <=? p)%nat && (p <? i + 0)%nat) positions = []).
    { clear. induction positions as [|p ps IH]; cbn [List.filter]; [reflexivity|].
      destruct (Nat.leb_spec i p), (Nat.ltb_spec p (i + 0)); cbn [andb]; try lia; exact IH. }
    rewrite Hf. reflexivity.
  - rewrite (remove_positions_filter positions i (length l) Hnd).
    specialize (IH (S i)).
    set (n1 := length (List.filter (fun p => (S i <=? p)%nat && (p <? S i + length l)%nat)
                         positions)) in *.
    destruct (bool_decide (i ∈ positions)); cbn [length]; lia.
Qed.

Lemma filter_all {B : Type} (f : B -> bool) (l : list B) :
  forallb f l = true -> List.filter f l = l.
Proof.
  induction l as [|x l IH]; simpl; [reflexivity|].
  intros Hf. apply andb_true_iff in Hf as [Hx Hl]. rewrite Hx, IH by assumption. reflexivity.
Qed.

Lemma remove_positions_Forall (P : ascii -> Prop) (positions : list nat)
    (l : list ascii) (i : nat) :
  Forall P l -> Forall P (RandomPlate.remove_positions i positions l).
Proof.
  intros Hl. revert i. induction Hl as [|c l Hc Hl IH]; intros i; simpl; [constructor|].
  destruct (bool_decide (i ∈ positions)); [apply IH|constructor; [exact Hc|apply IH]].
Qed.

Lemma apply_swaps_shape (replacements : list (ascii * ascii)) (swap_drawn : nat -> bool)
    (chars : list ascii) :
  Forall (fun r : ascii * ascii => r.2 ∈ chars) replacements ->
  forall (n : nat) (plate : string),
    Forall (fun c => c ∈ chars) (list_ascii_of_string plate) ->
    String.length (RandomPlate.apply_swaps n replacements swap_drawn plate)
      = String.length plate /\
    Forall (fun c => c ∈ chars)
      (list_ascii_of_string (RandomPlate.apply_swaps n replacements swap_drawn plate)).
Proof.
  induction 1 as [|[old new] rest Hnew _ IH]; intros n plate Hp; simpl; [auto|].
  destruct (bool_decide (old ∈ list_ascii_of_string plate) && swap_drawn n).
  - destruct (IH (S n) (RandomPlate.str_replace old new plate)) as [Hl Hc].
    + unfold RandomPlate.str_replace. rewrite list_ascii_of_string_of_list_ascii.
      apply Forall_fmap. eapply Forall_impl; [exact Hp|]. simpl. intros c Hc.
      destruct (decide (c = old)); assumption.
    + split; [|exact Hc]. rewrite Hl. unfold RandomPlate.str_replace.
      rewrite <- !length_list_ascii_of_string, list_ascii_of_string_of_list_ascii.
      apply length_map.
  - apply IH. exact Hp.
Qed.

(** X26: the plate of [generate_random_license_plate] has the drawn length
    (7 or 8) without a deviation and after a [swap], one character less
    after [missing_start] and [missing_end], and [num_chars_to_remove]
    characters less after [missing_multiple]; so it has 5 to 8
    characters, all of the alphabet, and it is the drawn plate when no
    deviation is drawn. *)
Theorem generate_random_license_plate_shape (d : RandomPlate.draw) :
  RandomPlate.valid_draw d = true ->
  let plate := RandomPlate.generate_random_license_plate d in
  String.length plate =
    (if RandomPlate.error_drawn d then
       match RandomPlate.deviation_type_drawn d with
       | RandomPlate.swap => RandomPlate.length_drawn d
       | RandomPlate.missing_start | RandomPlate.missing_end =>
           RandomPlate.length_drawn d - 1
       | RandomPlate.missing_multiple =>
           RandomPlate.length_drawn d - RandomPlate.num_chars_to_remove d
       end
     else RandomPlate.length_drawn d)%nat /\
  (5 <= String.length plate <= 8)%nat /\
  Forall (fun c => c ∈ list_ascii_of_string RandomPlate.characters)
         (list_ascii_of_string plate) /\
  (RandomPlate.error_drawn d = false -> plate = RandomPlate.plate_drawn d).
Proof.
  intros Hv plate. unfold RandomPlate.valid_draw in Hv. rewrite !andb_true_iff in Hv.
  destruct Hv as (((Hlen & Hpl) & Hchars) & Hdev).
  apply bool_decide_eq_true in Hlen. apply Nat.eqb_eq in Hpl.
  assert (Hc : Forall (fun c => c ∈ list_ascii_of_string RandomPlate.characters)
                 (list_ascii_of_string (RandomPlate.plate_drawn d))).
  { apply Forall_forall. intros c Hc. rewrite forallb_forall in Hchars.
    apply list_elem_of_In, Hchars in Hc. apply bool_decide_eq_true in Hc. exact Hc. }
  unfold plate, RandomPlate.generate_random_license_plate.
  destruct (RandomPlate.error_drawn d); [|repeat split; try assumption; lia].
  destruct (RandomPlate.deviation_type_drawn d).
  - destruct (apply_swaps_shape RandomPlate.replacements (RandomPlate.swap_drawn d)
                (list_ascii_of_string RandomPlate.characters)
                ltac:(repeat constructor; vm_compute; set_solver)
                0%nat (RandomPlate.plate_drawn d) Hc) as [Hl Hf].
    rewrite Hl, Hpl. repeat split; try assumption; try lia; try discriminate.
  - unfold str_drop. rewrite <- length_list_ascii_of_string,
      list_ascii_of_string_of_list_ascii, length_drop, length_list_ascii_of_string, Hpl.
    repeat split; try lia; try discriminate; apply Forall_drop, Hc.
  - unfold str_take. rewrite <- length_list_ascii_of_string,
      list_ascii_of_string_of_list_ascii, length_take, length_list_ascii_of_string, Hpl.
    repeat split; try lia; try discriminate; apply Forall_take, Hc.
  - rewrite !andb_true_iff in Hdev. destruct Hdev as (((Hnum & Hpos) & Hnd) & Hrange).
    apply bool_decide_eq_true in Hnum, Hnd. apply Nat.eqb_eq in Hpos.
    rewrite <- length_list_ascii_of_string, list_ascii_of_string_of_list_ascii.
    pose proof (remove_positions_length (RandomPlate.positions_to_remove d)
                  (list_ascii_of_string (RandomPlate.plate_drawn d)) 0 Hnd) as Hr.
    rewrite filter_all in Hr.
    + rewrite length_list_ascii_of_string in Hr.
      repeat split; try lia; try discriminate; apply remove_positions_Forall, Hc.
    + rewrite forallb_forall in Hrange. apply forallb_forall. intros p Hp.
      specialize (Hrange p Hp). simpl.
      rewrite length_list_ascii_of_string. exact Hrange.
Qed.

(** ** The further properties on concrete records *)

Lemma find_matches_threshold_antitone_witness :
  let records := [Detection 1 0 "1234567"; Detection 2 20 "1234568"] in
  find_license_plate_errors 5 90 records
    `sublist_of` find_license_plate_errors 5 70 records.
Proof.
  intros records. apply (find_matches_threshold_antitone 5 70 90 records). lia.
Defined.

Lemma find_matches_window_monotone_witness :
  let records := [Detection 1 0 "1234567"; Detection 2 120 "1234568"] in
  find_license_plate_errors 1 70 records
    `sublist_of` find_license_plate_errors 5 70 records.
Proof.
  intros records. apply (find_matches_window_monotone 1 5 70 records). lia.
Defined.

Lemma find_matches_threshold_above_100_witness :
  let records := [Detection 1 0 "1234567"; Detection 2 20 "1234568"] in
  find_license_plate_errors 5 101 records = [].
Proof.
  intros records. apply (find_matches_threshold_above_100 5 101 records); [|lia].
  repeat constructor; vm_compute; reflexivity.
Defined.

Lemma find_matches_distinct_ids_witness :
  let record1 := Detection 1 0 "1234567" in
  let record2 := Detection 2 20 "1234568" in
  let e := make_error record1 record2 (score "1234567" "1234568") in
  In e (find_license_plate_errors 5 70 [record1; record2]) /\ id1 e <> id2 e.
Proof.
  intros record1 record2 e.
  assert (He : In e (find_license_plate_errors 5 70 [record1; record2]))
    by (vm_compute; left; reflexivity).
  split; [exact He|].
  apply (find_matches_distinct_ids 5 70 [record1; record2] e); [|exact He].
  apply (bool_decide_unpack _). vm_compute. exact I.
Defined.

Lemma find_matches_break_witness :
  let record1 := Detection 1 0 "1234567" in
  let record2 := Detection 2 1000 "ABCDEFG" in
  let record3 := Detection 3 1010 "ABCDEFH" in
  let e := make_error record2 record3 (score "ABCDEFG" "ABCDEFH") in
  In e (find_license_plate_errors 5 70 [record1; record2; record3]) /\
  id1 e <> det_id record1.
Proof.
  intros record1 record2 record3 e.
  assert (He : In e (find_license_plate_errors 5 70 [record1; record2; record3]))
    by (vm_compute; left; reflexivity).
  split; [exact He|].
  apply (find_matches_break 5 70 [record1; record2; record3] 0 record1 record2);
    [|reflexivity|reflexivity|vm_compute; reflexivity|exact He].
  apply (bool_decide_unpack _). vm_compute. exact I.
Defined.

Lemma corrected_plate_changes_only_when_added_witness :
  let e := make_error (Detection 1 0 "B12345") (Detection 2 20 "AB12345")
             (score "B12345" "AB12345") in
  exists c, resolve e = Some c /\ corrected_plate c = plate2 e.
Proof.
  intros e.
  assert (Hc : resolve e = Some {| original_id := 1; timestamp := 0;
            original_plate := "B12345"; corrected_plate := "AB12345";
            confidence_score := 92; correction_kind := added_chars |})
    by (vm_compute; reflexivity).
  eexists. split; [exact Hc|].
  apply (proj1 (corrected_plate_changes_only_when_added e _ Hc)). reflexivity.
Defined.



Lemma load_csv_to_db_unique_ids_witness :
  let db := {| license_plates := [Detection 1 0 "1234567"; Detection 2 20 "1234568"];
               corrected_plates := None |} in
  let rows := [ {| csv_DateTime := 100; csv_LicensePlate := "AB12345" |} ] in
  NoDup (map det_id (license_plates (load_csv_to_db rows db))).
Proof.
  intros db rows. apply (load_csv_to_db_unique_ids rows db).
  apply (bool_decide_unpack _). vm_compute. exact I.
Defined.

Lemma main_block_corrections_witness :
  let rows := [ {| csv_DateTime := 0; csv_LicensePlate := "1234567" |};
                {| csv_DateTime := 20; csv_LicensePlate := "1234568" |} ] in
  let records := [Detection 1 0 "1234567"; Detection 2 20 "1234568"] in
  let db := {| license_plates := []; corrected_plates := None |} in
  exists (db2 : database) (cs : list correction),
    main_block rows records db = Some db2 /\
    corrected_plates db2 = Some (numbered_rows cs) /\
    Forall (fun c : correction => 70 <= confidence_score c <= 100) cs.
Proof.
  intros rows records db.
  assert (Hf : fetched (load_csv_to_db rows (create_table db)) records).
  { split; [vm_compute; reflexivity|repeat constructor; vm_compute; discriminate]. }
  assert (Hl : Forall (fun r : detection =>
                         Z.of_nat (String.length (det_plate r)) < 2 ^ 63) records)
    by (repeat constructor; vm_compute; reflexivity).
  destruct (main_block_corrections rows records db Hf Hl)
    as (db2 & cs & Hm & _ & _ & Hc & Hall).
  exists db2, cs. split; [exact Hm|]. split; [exact Hc|].
  eapply Forall_impl; [exact Hall|]. intros c [Hb _]. exact Hb.
Defined.

Lemma matching_blocks_match_witness :
  let a := list_ascii_of_string "abxcd" in
  let b := list_ascii_of_string "abcd" in
  In (3, 2, 2) (SequenceMatcher.get_matching_blocks a b) /\
  forall t : Z, 0 <= t < 2 ->
    exists x : ascii,
      SequenceMatcher.getitem a (3 + t) = Some x /\
      SequenceMatcher.getitem b (2 + t) = Some x.
Proof.
  intros a b.
  assert (Hin : In (3, 2, 2) (SequenceMatcher.get_matching_blocks a b))
    by (vm_compute; right; left; reflexivity).
  split; [exact Hin|].
  exact (proj2 (proj2 (proj2 (proj2 (proj2 (matching_blocks_match a b 3 2 2 Hin)))))).
Defined.

Lemma score_no_common_character_witness :
  score "1234567" "ABCDEFG" = Float.zero.
Proof.
  apply (score_no_common_character "1234567" "ABCDEFG").
  - vm_compute. reflexivity.
  - vm_compute. reflexivity.
  - left. discriminate.
  - intros c Ha Hb. simpl in Ha, Hb.
    repeat (destruct Ha as [Ha|Ha]; [subst c; repeat (destruct Hb as [Hb|Hb];
      [discriminate Hb|]); exact Hb|]). exact Ha.
Defined.

Lemma generate_random_license_plate_shape_witness :
  let d := {| RandomPlate.length_drawn := 7;
              RandomPlate.plate_drawn := "1234567";
              RandomPlate.error_drawn := true;
              RandomPlate.deviation_type_drawn := RandomPlate.missing_multiple;
              RandomPlate.swap_drawn := fun _ => false;
              RandomPlate.num_chars_to_remove := 2;
              RandomPlate.positions_to_remove := [0; 3]%nat |} in
  (5 <= String.length (RandomPlate.generate_random_license_plate d) <= 8)%nat.
Proof.
  intros d.
  apply (generate_random_license_plate_shape d). vm_compute. reflexivity.
Defined.
